(** * lift-tracker: session rotation, prescription parsing and entry saving

    A shallow embedding of the logic of [app.js] (the rotation of training
    sessions, the parsing of prescription strings, the save handler, the
    completion set and the history auto-fill) together with the parts of
    the JavaScript run time and of the document store they rely on.

    JavaScript strings are sequences of UTF-16 code units, written here as
    lists of [N].  Numbers are doubles: one that [parseInt] gives is
    written as the integer it is, one that [parseFloat] gives as the decimal
    it is equal to, and both functions round what they read to the nearest
    double as the language does ([doubleOfInteger], [doubleOfDecimal]). *)

From Stdlib Require Import ZArith NArith Lia Bool Ascii String.
From stdpp Require Import base list gmap sets strings sorting.

Local Open Scope N_scope.

(** ** JavaScript strings *)

(** An ASCII literal as a sequence of code units. *)
Fixpoint js (s : string) : list N :=
  match s with
  | EmptyString => []
  | String a s' => N_of_ascii a :: js s'
  end.

(** WhiteSpace and LineTerminator code units: what [\s] matches and what
    [trim], [parseInt] and [parseFloat] skip. *)
Definition isWhiteSpace (c : N) : bool :=
  (c =? 9) || (c =? 10) || (c =? 11) || (c =? 12) || (c =? 13) || (c =? 32)
  || (c =? 160) || (c =? 5760) || ((8192 <=? c) && (c <=? 8202))
  || (c =? 8232) || (c =? 8233) || (c =? 8239) || (c =? 8287)
  || (c =? 12288) || (c =? 65279).

(** [\d]: the ten ASCII digits, with or without the [i] flag. *)
Definition isDigit (c : N) : bool := (48 <=? c) && (c <=? 57).

(** A pattern character under the [i] flag.  Canonicalize never maps a code
    unit above 127 to one below 128, so an ASCII letter of the pattern is
    matched by its two ASCII cases only; a pattern character without case
    (such as [/] or the multiplication sign) is matched by itself only. *)
Definition isUpper (c : N) : bool := (65 <=? c) && (c <=? 90).
Definition isLower (c : N) : bool := (97 <=? c) && (c <=? 122).
Definition canonicalize (c : N) : N := if isLower c then c - 32 else c.
Definition ichar (p c : N) : bool := canonicalize c =? canonicalize p.

(** [toLowerCase], on the ASCII range.  Outside it the mapping is the
    identity here; no code unit above 127 lowers to a letter of ["alt:"],
    so the test that [parseRx] makes on the result is not affected. *)
Definition toLowerCase (s : list N) : list N :=
  map (fun c => if isUpper c then c + 32 else c) s.

Fixpoint startsWith (prefix s : list N) : bool :=
  match prefix, s with
  | [], _ => true
  | p :: prefix', c :: s' => (c =? p) && startsWith prefix' s'
  | _ :: _, [] => false
  end.

(** [s.substring(n)] for a non-negative [n]. *)
Definition substring (n : nat) (s : list N) : list N := drop n s.

(** [s.split(sep)] for a separator of one code unit: never empty. *)
Fixpoint split (sep : N) (s : list N) : list (list N) :=
  match s with
  | [] => [[]]
  | c :: s' =>
    if c =? sep then [] :: split sep s'
    else match split sep s' with
         | p :: ps => (c :: p) :: ps
         | [] => [[c]]
         end
  end.

(** [parts[parts.length - 1]]; [undefined] (here [None]) on an empty array. *)
Definition lastPart (parts : list (list N)) : option (list N) := last parts.

Fixpoint dropWhile (p : N -> bool) (s : list N) : list N :=
  match s with
  | c :: s' => if p c then dropWhile p s' else s
  | [] => []
  end.

Fixpoint takeWhile (p : N -> bool) (s : list N) : list N :=
  match s with
  | c :: s' => if p c then c :: takeWhile p s' else []
  | [] => []
  end.

Definition trimStart (s : list N) : list N := dropWhile isWhiteSpace s.
Definition trimEnd (s : list N) : list N := rev (dropWhile isWhiteSpace (rev s)).
Definition trim (s : list N) : list N := trimEnd (trimStart s).

(** ** Numbers read from strings *)

(** The result of [parseInt]: [NaN], a double that is an integer, or an
    infinity. *)
Inductive jsint :=
| NaN
| Int (z : Z)
| Inf (neg : bool).

(** The Number value for a mathematical integer: the nearest double, the
    one with an even significand when two are as near.  An integer below
    2^53 in absolute value is a double itself; from 2^1024 - 2^970 on
    there is no double that near, and the value is an infinity. *)
Definition doubleOfInteger (z : Z) : jsint :=
  let a := Z.abs z in
  if (a <? 2 ^ 53)%Z then Int z
  else
    let e := (Z.log2 a - 52)%Z in
    let q := (a / 2 ^ e)%Z in
    let r := (a mod 2 ^ e)%Z in
    let q' :=
      if (2 ^ e <? 2 * r)%Z || ((2 * r =? 2 ^ e)%Z && Z.odd q) then (q + 1)%Z else q in
    let v := (q' * 2 ^ e)%Z in
    if (2 ^ 1024 <=? v)%Z then Inf (z <? 0)%Z else Int (if (z <? 0)%Z then (- v)%Z else v).

(** The value of a code unit as a digit, up to base 36. *)
Definition digitValue (c : N) : option N :=
  if isDigit c then Some (c - 48)
  else if isLower c then Some (c - 87)
  else if isUpper c then Some (c - 55)
  else None.

Definition isRadixDigit (radix : N) (c : N) : bool :=
  match digitValue c with
  | Some v => v <? radix
  | None => false
  end.

Definition radixValue (radix : N) (ds : list N) : N :=
  fold_left (fun acc c => acc * radix + default 0 (digitValue c)) ds 0.

(** [parseInt(s)] with no radix argument: leading white space, a sign, a
    [0x] prefix, then the longest run of digits; [NaN] when that run is
    empty, and otherwise the Number value for the integer that the digits
    denote.  (The language lets an implementation read a decimal numeral
    of more than twenty significant digits less exactly; the engines in use
    round the numeral itself, as here.) *)
Definition parseInt (s : list N) : jsint :=
  let s1 := trimStart s in
  let '(neg, s2) :=
    match s1 with
    | c :: t => if c =? 45 then (true, t) else if c =? 43 then (false, t) else (false, s1)
    | [] => (false, [])
    end in
  let '(radix, s3) :=
    match s2 with
    | z :: x :: t =>
      if (z =? 48) && ((x =? 120) || (x =? 88)) then (16, t) else (10, s2)
    | _ => (10, s2)
    end in
  match takeWhile (isRadixDigit radix) s3 with
  | [] => NaN
  | ds => let v := Z.of_N (radixValue radix ds) in doubleOfInteger (if neg then (- v)%Z else v)
  end.

(** [!n] for a number: [NaN] and zero are falsy. *)
Definition falsyInt (n : jsint) : bool :=
  match n with
  | NaN => true
  | Int z => (z =? 0)%Z
  | Inf _ => false
  end.

(** The result of [parseFloat]: [NaN], an infinity, or a finite double,
    written as the decimal [(-1)^neg * mant * 10^exp] it is equal to (every
    double is equal to a decimal). *)
Inductive jsfloat :=
| FNaN
| FInf (neg : bool)
| FDec (neg : bool) (mant : N) (exp : Z).

(** [floor (log2 (p / q))] for positive [p] and [q]. *)
Definition log2Ratio (p q : Z) : Z :=
  let l := (Z.log2 p - Z.log2 q)%Z in
  if (if (0 <=? l)%Z then (q * 2 ^ l <=? p)%Z else (q <=? p * 2 ^ (- l))%Z)
  then l else (l - 1)%Z.

(** The Number value for the decimal [mant * 10^exp] with the sign [neg]:
    the nearest double, the one with an even significand when two are as
    near; an infinity from 2^1024 - 2^970 on, a zero up to 2^-1075.  The
    double is [M * 2^b] with [M] below 2^53 and [b] at least -1074; it is
    written with the exponent 0 when it is an integer and with a mantissa
    that 10 does not divide when it is not. *)
Definition doubleOfDecimal (neg : bool) (mant : N) (exp : Z) : jsfloat :=
  if mant =? 0 then FDec neg 0 0
  else
    let p := if (0 <=? exp)%Z then (Z.of_N mant * 10 ^ exp)%Z else Z.of_N mant in
    let q := if (0 <=? exp)%Z then 1%Z else (10 ^ (- exp))%Z in
    let b := Z.max (log2Ratio p q - 52) (-1074) in
    let num := if (0 <=? b)%Z then p else (p * 2 ^ (- b))%Z in
    let den := if (0 <=? b)%Z then (q * 2 ^ b)%Z else q in
    let M0 := (num / den)%Z in
    let r := (num mod den)%Z in
    let M :=
      if (den <? 2 * r)%Z || ((2 * r =? den)%Z && Z.odd M0) then (M0 + 1)%Z else M0 in
    if (M =? 0)%Z then FDec neg 0 0
    else if (0 <=? b)%Z then
      if (2 ^ 1024 <=? M * 2 ^ b)%Z then FInf neg else FDec neg (Z.to_N (M * 2 ^ b)) 0
    else
      let g := Z.gcd M (2 ^ (- b)) in
      let M' := (M / g)%Z in
      let b' := (b + Z.log2 g)%Z in
      if (b' =? 0)%Z then FDec neg (Z.to_N M') 0
      else FDec neg (Z.to_N (M' * 5 ^ (- b'))) b'.

Definition isNaN (x : jsfloat) : bool :=
  match x with
  | FNaN => true
  | _ => false
  end.

(** [parseFloat(s)]: leading white space, a sign, then [Infinity] or the
    longest prefix that is a decimal literal (digits, a fraction, an
    exponent with at least one digit), and the Number value for the decimal
    that the literal denotes. *)
Definition parseFloat (s : list N) : jsfloat :=
  let s1 := trimStart s in
  let '(neg, s2) :=
    match s1 with
    | c :: t => if c =? 45 then (true, t) else if c =? 43 then (false, t) else (false, s1)
    | [] => (false, [])
    end in
  if startsWith (js "Infinity") s2 then FInf neg
  else
    let ip := takeWhile isDigit s2 in
    let s3 := dropWhile isDigit s2 in
    let '(fp, s4) :=
      match s3 with
      | d :: t => if d =? 46 then (takeWhile isDigit t, dropWhile isDigit t) else ([], s3)
      | [] => ([], s3)
      end in
    match ip ++ fp with
    | [] => FNaN
    | ds =>
      let e :=
        match s4 with
        | c :: t =>
          if (c =? 101) || (c =? 69) then
            let '(eneg, t') :=
              match t with
              | g :: u => if g =? 45 then (true, u) else if g =? 43 then (false, u) else (false, t)
              | [] => (false, [])
              end in
            match takeWhile isDigit t' with
            | [] => 0%Z
            | es => let v := Z.of_N (radixValue 10 es) in if eneg then (- v)%Z else v
            end
          else 0%Z
        | [] => 0%Z
        end in
      doubleOfDecimal neg (radixValue 10 ds) (e - Z.of_nat (length fp))
    end.

(** ** Regular expressions *)

(** The constructs the two patterns of [parseRx] use.  [Plus] and [Opt]
    are the greedy [+] and [?]. *)
Inductive regex :=
| Empty
| Char (p : N -> bool)
| Seq (r1 r2 : regex)
| Alt (r1 r2 : regex)
| Star (r : regex)
| Group (i : nat) (r : regex).

Definition Plus (r : regex) : regex := Seq r (Star r).
Definition Opt (r : regex) : regex := Alt r Empty.

(** The matcher works on the rest of the input and on the captures so
    far, a list indexed by group number whose index 0 is the whole match;
    a continuation takes both and gives the result of the whole match. *)
Section Matcher.
Context {R : Type}.

(** RepeatMatcher for a greedy [*]: one more iteration first, the
    continuation when that fails.  An iteration that consumes nothing is
    refused; [n] bounds the number of iterations by the length of the
    input. *)
Fixpoint repeatMatcher
    (body : list N -> list (option (list N)) ->
            (list N -> list (option (list N)) -> option R) -> option R)
    (k : list N -> list (option (list N)) -> option R)
    (n : nat) (s : list N) (c : list (option (list N))) : option R :=
  match n with
  | O => k s c
  | S n' =>
    match body s c (fun s' c' =>
             if (length s' <? length s)%nat then repeatMatcher body k n' s' c' else None) with
    | Some x => Some x
    | None => k s c
    end
  end.

(** The backtracking matcher: the first alternative that lets the
    continuation succeed wins. *)
Fixpoint matcher (r : regex) (s : list N) (c : list (option (list N)))
    (k : list N -> list (option (list N)) -> option R) {struct r} : option R :=
  match r with
  | Empty => k s c
  | Char p =>
    match s with
    | a :: s' => if p a then k s' c else None
    | [] => None
    end
  | Seq r1 r2 => matcher r1 s c (fun s' c' => matcher r2 s' c' k)
  | Alt r1 r2 =>
    match matcher r1 s c k with
    | Some x => Some x
    | None => matcher r2 s c k
    end
  | Star r1 => repeatMatcher (matcher r1) k (length s) s c
  | Group i r1 =>
    matcher r1 s c (fun s' c' =>
      k s' (<[i := Some (take (length s - length s') s)]> c'))
  end.
End Matcher.

(** A match found: where it starts, its captures, the input after it. *)
Record matchResult := {
  index : nat;
  groups : list (option (list N));
  after : list N
}.

(** One attempt at the start of [s], with [ngroups] capture groups. *)
Definition matchAt (ngroups : nat) (r : regex) (s : list N)
    : option (list (option (list N)) * list N) :=
  matcher r s (replicate (S ngroups) None)
    (fun s' c => Some (<[0%nat := Some (take (length s - length s') s)]> c, s')).

(** [RegExp.prototype.exec] without the [g] flag: the first start index, from
    [i] on, at which an attempt succeeds. *)
Fixpoint execFrom (ngroups : nat) (r : regex) (i : nat) (s : list N) : option matchResult :=
  match matchAt ngroups r s with
  | Some (c, rest) => Some {| index := i; groups := c; after := rest |}
  | None =>
    match s with
    | [] => None
    | _ :: s' => execFrom ngroups r (S i) s'
    end
  end.

Definition exec (ngroups : nat) (r : regex) (s : list N) : option matchResult :=
  execFrom ngroups r 0 s.

(** [s.replace(r, '')]: the first match is cut out. *)
Definition replaceEmpty (ngroups : nat) (r : regex) (s : list N) : list N :=
  match exec ngroups r s with
  | Some m => take (index m) s ++ after m
  | None => s
  end.

(** ** parseRx *)

(** [/\/side/i] *)
Definition sideRe : regex :=
  Seq (Char (ichar 47)) (Seq (Char (ichar 115)) (Seq (Char (ichar 105))
    (Seq (Char (ichar 100)) (Char (ichar 101))))).

(** [\s*] and [(\d+)] as group [i]. *)
Definition spaces : regex := Star (Char isWhiteSpace).
Definition number (i : nat) : regex := Group i (Plus (Char isDigit)).

(** [(?:\s*-\s*(\d+))?] with the capture as group [i]. *)
Definition rangeEnd (i : nat) : regex :=
  Opt (Seq spaces (Seq (Char (ichar 45)) (Seq spaces (number i)))).

(** The class [[×x]] under the [i] flag. *)
Definition isTimes (c : N) : bool := ichar 215 c || ichar 120 c.

(** [/(\d+)(?:\s*-\s*(\d+))?\s*[×x]\s*(\d+)(?:\s*-\s*(\d+))?/i] *)
Definition schemeRe : regex :=
  Seq (number 1) (Seq (rangeEnd 2) (Seq spaces (Seq (Char isTimes)
    (Seq spaces (Seq (number 3) (rangeEnd 4)))))).

Record rxTarget := { maxSets : jsint; maxReps : jsint }.

(** [a || b] on two captures: an unset or empty capture is falsy. *)
Definition orCapture (a b : option (list N)) : option (list N) :=
  match a with
  | Some (_ :: _) => a
  | _ => b
  end.

(** [parseInt] of a capture; [undefined] reads as the text "undefined". *)
Definition parseIntCapture (a : option (list N)) : jsint :=
  match a with
  | Some s => parseInt s
  | None => NaN
  end.

(** The string that the scheme pattern is run on: the last scheme of an
    [alt:] list, then the first [/side] cut out. *)
Definition schemeText (rx : list N) : option (list N) :=
  let str :=
    if startsWith (js "alt:") (toLowerCase rx)
    then trim <$> lastPart (split 44 (substring 4 rx))
    else Some rx in
  replaceEmpty 0 sideRe <$> str.

(** [{maxSets: parseInt(match[2] || match[1]),
      maxReps: parseInt(match[4] || match[3])}] *)
Definition targetOfMatch (m : matchResult) : rxTarget :=
  let g i := default None (groups m !! i) in
  {| maxSets := parseIntCapture (orCapture (g 2%nat) (g 1%nat));
     maxReps := parseIntCapture (orCapture (g 4%nat) (g 3%nat)) |}.

Definition parseRx (rx : option (list N)) : option rxTarget :=
  match rx with
  | None => None
  | Some [] => None
  | Some str =>
    match schemeText str with
    | None => None
    | Some str' =>
      match exec 4 schemeRe str' with
      | None => None
      | Some m => Some (targetOfMatch m)
      end
    end
  end.

(** ** The scheme grammar, as the specification words it

    [A[-B] x C[-D]]: numerals, an optional upper bound after a dash, the
    letter x or the multiplication sign, white space optional around the
    dash and the sign. *)

Definition allOf (p : N -> bool) (s : list N) : Prop := Forall (fun c => p c = true) s.

(** A numeral: one digit or more.  A blank: white space, possibly none. *)
Definition numeral (s : list N) : Prop := s <> [] /\ allOf isDigit s.
Definition blank (s : list N) : Prop := allOf isWhiteSpace s.

(** The number a numeral denotes. *)
Definition decimalValue (s : list N) : Z := Z.of_N (radixValue 10 s).

(** A numeral of an integer below 2^53: every such integer is a double. *)
Definition safeNumeral (s : list N) : Prop := (decimalValue s < 2 ^ 53)%Z.

(** A number that is not [NaN] and not negative. *)
Definition nonNegative (n : jsint) : Prop :=
  match n with
  | NaN => False
  | Int z => (0 <= z)%Z
  | Inf neg => neg = false
  end.

(** An optional upper bound: white space, a dash, white space, a numeral. *)
Definition rangeText (r : option (list N * list N * list N)) : list N :=
  match r with
  | Some (w1, w2, B) => w1 ++ 45 :: w2 ++ B
  | None => []
  end.

(** The parts of an upper bound are what they should be. *)
Definition rangeOk (r : option (list N * list N * list N)) : Prop :=
  match r with
  | Some (w1, w2, B) => blank w1 /\ blank w2 /\ numeral B
  | None => True
  end.

(** The upper bound where there is a range, the single value otherwise. *)
Definition upper (A : list N) (r : option (list N * list N * list N)) : list N :=
  match r with
  | Some (_, _, B) => B
  | None => A
  end.

(** The text of a scheme, from its parts. *)
Definition schemeString (A : list N) (rs : option (list N * list N * list N))
    (w : list N) (x : N) (w' : list N) (C : list N)
    (rr : option (list N * list N * list N)) : list N :=
  A ++ rangeText rs ++ w ++ x :: w' ++ C ++ rangeText rr.



(** A list of schemes, separated by commas. *)
Fixpoint joinComma (parts : list (list N)) : list N :=
  match parts with
  | [] => []
  | [p] => p
  | p :: ps => p ++ 44 :: joinComma ps
  end.

(** A text without comma: one scheme of such a list. *)
Definition noComma (s : list N) : Prop := Forall (fun c => c <> 44) s.

(** The marker [alt:] in any case. *)
Definition isAltMarker (m : list N) : Prop :=
  exists a l t,
    m = [a; l; t; 58] /\ ichar 97 a = true /\ ichar 108 l = true /\ ichar 116 t = true.

(** The suffix [/side] in any case. *)
Definition isSideSuffix (m : list N) : Prop :=
  exists c1 c2 c3 c4,
    m = [47; c1; c2; c3; c4] /\ ichar 115 c1 = true /\ ichar 105 c2 = true /\
    ichar 100 c3 = true /\ ichar 101 c4 = true.

(** A suffix [/side], or none. *)
Definition optSide (m : list N) : Prop := m = [] \/ isSideSuffix m.


(** ** Vocabulary of the proofs about [parseRx]

    What an attempt of the scheme pattern at the start of a string comes
    to, read from left to right: every greedy run is taken whole, and
    nothing is given back.  The lemmas below show that the backtracking
    matcher computes exactly this on the two patterns. *)

(** [\s*-\s*(\d+)]: the digits after the dash and the input after them. *)
Definition scanRange (s : list N) : option (list N * list N) :=
  match dropWhile isWhiteSpace s with
  | c :: s1 =>
    if ichar 45 c then
      let s2 := dropWhile isWhiteSpace s1 in
      match takeWhile isDigit s2 with
      | [] => None
      | d => Some (d, dropWhile isDigit s2)
      end
    else None
  | [] => None
  end.

(** [\s*[×x]\s*]: the input after it. *)
Definition scanTimes (s : list N) : option (list N) :=
  match dropWhile isWhiteSpace s with
  | c :: s1 => if isTimes c then Some (dropWhile isWhiteSpace s1) else None
  | [] => None
  end.

(** From the multiplication sign on: groups 3 and 4 and the input left. *)
Definition scanReps (s : list N) : option (list N * option (list N) * list N) :=
  match scanTimes s with
  | Some s1 =>
    match takeWhile isDigit s1 with
    | [] => None
    | C =>
      let s2 := dropWhile isDigit s1 in
      match scanRange s2 with
      | Some (D, s3) => Some (C, Some D, s3)
      | None => Some (C, None, s2)
      end
    end
  | None => None
  end.

(** The four groups and the input left. *)
Definition scanScheme (s : list N)
    : option (list N * option (list N) * list N * option (list N) * list N) :=
  match takeWhile isDigit s with
  | [] => None
  | A =>
    let s1 := dropWhile isDigit s in
    match scanRange s1 with
    | Some (B, s2) =>
      match scanReps s2 with
      | Some (C, D, rest) => Some (A, Some B, C, D, rest)
      | None => None
      end
    | None =>
      match scanReps s1 with
      | Some (C, D, rest) => Some (A, None, C, D, rest)
      | None => None
      end
    end
  end.

(** The first suffix of [s] on which the scanner succeeds. *)
Fixpoint findScheme (s : list N)
    : option (list N * option (list N) * list N * option (list N) * list N) :=
  match scanScheme s with
  | Some r => Some r
  | None =>
    match s with
    | [] => None
    | _ :: s' => findScheme s'
    end
  end.

(** The groups as [parseRx] reads them. *)
Definition targetOf (A : list N) (B : option (list N)) (C : list N) (D : option (list N))
    : rxTarget :=
  {| maxSets := parseIntCapture (orCapture B (Some A));
     maxReps := parseIntCapture (orCapture D (Some C)) |}.

(** [/\/side/i] at the start of [s]. *)
Definition isSide (s : list N) : bool :=
  match s with
  | c0 :: c1 :: c2 :: c3 :: c4 :: _ =>
    ichar 47 c0 && ichar 115 c1 && ichar 105 c2 && ichar 100 c3 && ichar 101 c4
  | _ => false
  end.

(** [s] with its first [/side] cut out. *)
Fixpoint stripSide (s : list N) : list N :=
  if isSide s then drop 5 s
  else match s with
       | [] => []
       | c :: s' => c :: stripSide s'
       end.

(** [s] holds a [/side]. *)
Fixpoint hasSide (s : list N) : bool :=
  isSide s || match s with
              | [] => false
              | _ :: s' => hasSide s'
              end.

(** What [(\d+)] as group [i] comes to before a continuation [k]. *)
Definition numberRun {R : Type} (i : nat)
    (k : list N -> list (option (list N)) -> option R)
    (s : list N) (c : list (option (list N))) : option R :=
  match takeWhile isDigit s with
  | [] => None
  | A => k (dropWhile isDigit s) (<[i := Some A]> c)
  end.

(** The captures with group [i] set when the optional range matched. *)
Definition setRange (i : nat) (D : option (list N)) (c : list (option (list N))) :=
  match D with
  | Some d => <[i := Some d]> c
  | None => c
  end.

(** The scheme pattern from [\s*[×x]] on. *)
Definition repsRe : regex :=
  Seq spaces (Seq (Char isTimes) (Seq spaces (Seq (number 3) (rangeEnd 4)))).

(** The captures of a successful attempt on [s] that leaves [rest]. *)
Definition schemeGroups (s A : list N) (B : option (list N)) (C : list N)
    (D : option (list N)) (rest : list N) : list (option (list N)) :=
  [Some (take (length s - length rest) s); Some A; B; Some C; D].

(** The result of [parseRx] from what the scanner found. *)
Definition targetOfScan
    (r : list N * option (list N) * list N * option (list N) * list N) : rxTarget :=
  let '(A, B, C, D, _) := r in targetOf A B C D.

(** The first step of [parseRx]: the last scheme of an [alt:] list. *)
Definition lastScheme (rx : list N) : option (list N) :=
  if startsWith (js "alt:") (toLowerCase rx)
  then trim <$> last (split 44 (drop 4 rx))
  else Some rx.

(** The other steps: [/side] cut out, then the scan. *)
Definition parseText (t : list N) : option rxTarget :=
  targetOfScan <$> findScheme (stripSide t).

(** [s] does not begin with a code unit of the class [p]. *)
Definition headNot (p : N -> bool) (s : list N) : Prop :=
  match s with
  | [] => True
  | a :: _ => p a = false
  end.

(** The numeral of an optional upper bound. *)
Definition upperOpt (r : option (list N * list N * list N)) : option (list N) :=
  (fun r => r.2) <$> r.

(** Texts without slash, and texts without digit. *)
Definition noSlash (s : list N) : Prop := Forall (fun c => c <> 47) s.

Definition noDigit (v : list N) : Prop := Forall (fun c => isDigit c = false) v.

(** The letters of [side], in either case. *)
Definition sideTail (c : N) : bool :=
  ichar 115 c || ichar 105 c || ichar 100 c || ichar 101 c.

(** ** Numbers written into form fields *)

Fixpoint digitsOf (fuel : nat) (n : N) (acc : list N) : list N :=
  match fuel with
  | O => acc
  | S fuel' =>
    let acc' := (48 + n mod 10) :: acc in
    if n / 10 =? 0 then acc' else digitsOf fuel' (n / 10) acc'
  end.

(** The decimal numeral of an integer, as [String(n)] gives it for the
    integers a double holds exactly. *)
Definition IntToString (z : Z) : list N :=
  let n := Z.abs_N z in
  let ds := digitsOf (S (N.size_nat n)) n [] in
  if (z <? 0)%Z then 45 :: ds else ds.

(** [c] is read as the double [v]. *)
Definition readsAs (c v : Z) : bool :=
  match doubleOfInteger c with
  | Int w => (w =? v)%Z
  | _ => false
  end.

(** The number of decimal digits of a natural number. *)
Definition digits10 (v : Z) : Z := Z.of_nat (length (IntToString (Z.abs v))).

(** The multiple of [10^(d - k)] that is read as [v], for the least
    number [k] of significant digits from the given one on; [d] is the
    number of digits of [v]. *)
Fixpoint shortestDecimal (fuel : nat) (k d v : Z) : Z :=
  match fuel with
  | O => v
  | S fuel' =>
    let p := (10 ^ Z.max 0 (d - k))%Z in
    let lo := (v / p * p)%Z in
    let hi := (lo + p)%Z in
    match readsAs lo v, readsAs hi v with
    | true, true =>
      if (v - lo <? hi - v)%Z || ((v - lo =? hi - v)%Z && Z.even (lo / p)) then lo else hi
    | true, false => lo
    | false, true => hi
    | false, false => shortestDecimal fuel' (k + 1)%Z d v
    end
  end.

(** [c] without its trailing zeros. *)
Fixpoint stripZeros (fuel : nat) (c : Z) : Z :=
  match fuel with
  | O => c
  | S fuel' =>
    if (c mod 10 =? 0)%Z && negb (c =? 0)%Z then stripZeros fuel' (c / 10)%Z else c
  end.

(** [String(x)] for a double [x] that is an integer.  Below 2^53 it is
    the decimal numeral of [x].  From 2^53 on it is the decimal with the
    fewest significant digits whose Number value is [x], the nearest to [x]
    of these, written out in full when it has at most 21 digits and as
    [d.ddde+n] when it has more: so 2^64 is written 18446744073709552000
    and 10^21 is written 1e+21. *)
Definition NumberToStringInt (z : Z) : list N :=
  let a := Z.abs z in
  if (a <? 2 ^ 53)%Z then IntToString z
  else
    let sign := if (z <? 0)%Z then [45] else [] in
    let c := shortestDecimal 17 1 (digits10 a) a in
    let n := digits10 c in
    if (n <=? 21)%Z then sign ++ IntToString c
    else
      match IntToString (stripZeros (Z.to_nat n) c) with
      | [] => []
      | x :: rest =>
        sign ++ x :: match rest with [] => [] | _ :: _ => 46 :: rest end
             ++ [101; 43] ++ IntToString (n - 1)
      end.

Local Close Scope N_scope.
Local Open Scope Z_scope.

(** ** Dates

    A time value is a number of milliseconds since the epoch.  The local
    time zone is an offset from UTC, the same at every instant compared. *)

Definition msPerDay : Z := 86400000.

(** Year, month (from 1) and day of the month of a day number (days since
    1970-01-01), in the proleptic Gregorian calendar. *)
Definition civilFromDays (day : Z) : Z * Z * Z :=
  let z := day + 719468 in
  let era := z / 146097 in
  let doe := z - era * 146097 in
  let yoe := (doe - doe / 1460 + doe / 36524 - doe / 146096) / 365 in
  let doy := doe - (365 * yoe + yoe / 4 - yoe / 100) in
  let mp := (5 * doy + 2) / 153 in
  let d := doy - (153 * mp + 2) / 5 + 1 in
  let m := if mp <? 10 then mp + 3 else mp - 9 in
  (if m <=? 2 then yoe + era * 400 + 1 else yoe + era * 400, m, d).

Section LocalTime.
(** The offset of local time from UTC, in milliseconds. *)
Variable tzOffset : Z.

Definition localDay (t : Z) : Z := (t + tzOffset) / msPerDay.
Definition getFullYear (t : Z) : Z := (civilFromDays (localDay t)).1.1.
Definition getMonth (t : Z) : Z := (civilFromDays (localDay t)).1.2 - 1.
Definition getDate (t : Z) : Z := (civilFromDays (localDay t)).2.

(** The local calendar date of an instant. *)
Definition localDate (t : Z) : Z * Z * Z := (getFullYear t, getMonth t, getDate t).

(** [d.setHours(0, 0, 0, 0)]: local midnight of the day of [t]. *)
Definition startOfDay (t : Z) : Z := localDay t * msPerDay - tzOffset.
End LocalTime.

(** ** The catalogue ([lifts.js]) *)

Module Lift.
Record t := mk { id : list N; name : list N; cues : list N }.
End Lift.

(** A slot of a session: one lift, or a choice among several. *)
Inductive Slot :=
| Fixed (liftId rx : list N)
| Choose (choose : list (list N * list N)) (note : option (list N)).

Module Session.
Record t := mk { id : list N; name : list N; lifts : list Slot }.
End Session.

(** The sessions that [lifts.js] lists. *)
Definition SESSIONS_lifts_js : list Session.t :=
  [ Session.mk (js "session_a") (js "Session A")
      [ Fixed (js "box_jumps") (js "4-6 x 2-3");
        Fixed (js "barbell_bench_press") (js "alt: 3x5, 4x5-6");
        Fixed (js "leg_press") (js "2-3 x 8-10");
        Choose [ (js "db_incline_press", js "3-4 x 8-12");
                 (js "cable_fly", js "3 x 12-15") ]
               (Some (js "4-week rotation"));
        Fixed (js "row") (js "3-4 x 8-12");
        Fixed (js "triceps_pushdown") (js "2-4 x 10-15");
        Fixed (js "incline_db_curl") (js "2-4 x 10-15") ];
    Session.mk (js "session_b") (js "Session B")
      [ Fixed (js "trap_bar_deadlift") (js "3 x 5");
        Fixed (js "seated_hamstring_curl") (js "2-3 x 10-15");
        Fixed (js "weighted_pull_ups") (js "4-5 x 4-8");
        Fixed (js "db_flat_bench") (js "3-4 x 8-12");
        Choose [ (js "rear_delt_fly", js "3 x 12-15");
                 (js "face_pull", js "3 x 12-15") ]
               None;
        Fixed (js "overhead_triceps_extension") (js "2-3 x 10-15");
        Fixed (js "hammer_curl") (js "2-3 x 10-15") ];
    Session.mk (js "session_c") (js "Session C")
      [ Fixed (js "dips") (js "3-4 x 6-10");
        Fixed (js "straight_arm_pulldown") (js "3 x 12-15");
        Fixed (js "lateral_raise") (js "3 x 12-15");
        Fixed (js "hip_abduction") (js "2-3 x 12-20");
        Fixed (js "glute_kickback") (js "2-3 x 12-15");
        Fixed (js "pallof_press") (js "2-3 x 10-15/side");
        Fixed (js "cable_rotation") (js "3 x 5-8/side") ] ].

(** The prescriptions of a catalogue, slot by slot. *)
Definition slotRxs (s : Slot) : list (list N) :=
  match s with
  | Fixed _ rx => [rx]
  | Choose choose _ => snd <$> choose
  end.

Definition catalogueRxs (sessions : list Session.t) : list (list N) :=
  sessions ≫= (fun s => Session.lifts s ≫= slotRxs).

(** ** Entries and the document store *)

Module Group.
(** [{ sets, reps, weight }] *)
Record t := mk { sets : jsint; reps : jsint; weight : jsfloat }.
End Group.

(** An entry document.  [date] is [None] while the server timestamp of
    the write is still to come: [data().date] is then [null]. *)
Record Entry := {
  lift : list N;
  date : option Z;
  sets : list Group.t;
  notes : list N;
  session : option (list N)
}.

(** The outcome of an awaited call to the store. *)
Inductive fetch (A : Type) :=
| Fetched (a : A)
| Failed.
Arguments Fetched {A} a.
Arguments Failed {A}.

(** What a handler gets from outside while it runs. *)
Record Host := {
  readOk : bool;        (* a [get()] resolves *)
  writeOk : bool;       (* an [add()] or [update()] resolves *)
  now : Z;              (* [new Date()] *)
  nowAgain : Z;         (* the next [new Date()] of the same handler *)
  serverTime : Z;       (* what [serverTimestamp()] becomes *)
  freshId : list N      (* the id that [add()] gives the document *)
}.

(** Timestamps as the store orders them: one still to come is after all
    the others. *)
Definition dateLe (a b : option Z) : Prop :=
  match a, b with
  | _, None => True
  | None, Some _ => False
  | Some x, Some y => x <= y
  end.

Global Instance dateLe_dec a b : Decision (dateLe a b).
Proof. destruct a, b; simpl; apply _. Defined.

(** The order of [orderBy('date', 'desc')]. *)
Definition newerFirst (x y : list N * Entry) : Prop := dateLe (date y.2) (date x.2).

Global Instance newerFirst_dec x y : Decision (newerFirst x y).
Proof. unfold newerFirst. apply _. Defined.

(** [db.collection('users').doc(uid).collection('entries')]: the documents
    of one user, with their ids.  The store is keyed by user id and
    document id. *)
Definition entriesOf (uid : list N) (db : gmap (list N * list N) Entry)
    : list (list N * Entry) :=
  omap (fun kv => if decide (kv.1.1 = uid) then Some (kv.1.2, kv.2) else None)
       (map_to_list db).

(** What [.where('date', '>=', t)] lets through: a range filter matches
    values of the type of its bound, so timestamps from [t] on and no
    timestamp that is still to come. *)
Definition datedFrom (t : Z) (d : option Z) : Prop :=
  match d with
  | Some t' => t <= t'
  | None => False
  end.

Global Instance datedFrom_dec t d : Decision (datedFrom t d).
Proof. destruct d; simpl; apply _. Defined.

(** [.orderBy('date', 'desc')], [.limit(n)], [.where('lift', '==', x)] and
    [.where('date', '>=', t)]. *)
Definition orderByDateDesc (l : list (list N * Entry)) : list (list N * Entry) :=
  merge_sort newerFirst l.
Definition limit (n : nat) (l : list (list N * Entry)) : list (list N * Entry) := take n l.
Definition whereLift (x : list N) (l : list (list N * Entry)) : list (list N * Entry) :=
  filter (fun kv => lift kv.2 = x) l.
Definition whereDateFrom (t : Z) (l : list (list N * Entry)) : list (list N * Entry) :=
  filter (fun kv => datedFrom t (date kv.2)) l.

(** [.get()] *)
Definition get {A} (h : Host) (result : A) : fetch A :=
  if readOk h then Fetched result else Failed.

(** [.add(entry)]: the document is stored under a new id. *)
Definition add (h : Host) (uid : list N) (e : Entry) (db : gmap (list N * list N) Entry)
    : fetch (gmap (list N * list N) Entry) :=
  if writeOk h then Fetched (<[(uid, freshId h) := e]> db) else Failed.

(** [.doc(id).update({ sets, notes })]: the two fields are replaced in the
    document, which has to exist. *)
Definition update (h : Host) (uid docId : list N) (newSets : list Group.t) (newNotes : list N)
    (db : gmap (list N * list N) Entry) : fetch (gmap (list N * list N) Entry) :=
  if writeOk h then
    match db !! (uid, docId) with
    | Some e =>
      Fetched (<[(uid, docId) :=
                 {| lift := lift e; date := date e; sets := newSets;
                    notes := newNotes; session := session e |}]> db)
    | None => Failed
    end
  else Failed.

(** ** The state of the page *)

Record User := { uid : list N }.

(** A row of [#set-groups]: the values of its three inputs. *)
Record Row := { input_sets : list N; input_reps : list N; input_weight : list N }.

(** What [#history-list] shows. *)
Inductive HistoryView :=
| HistoryBlank
| HistoryNone
| HistoryFailed
| HistoryEntries (l : list (list N * Entry)).

(** The globals of [app.js] and the parts of the page the handlers read or
    write.  Texts that are only displayed (the detail pane, the session
    overview, which is redrawn from [todayEntries]) and the output of
    [console.error] are left out. *)
Record AppState := {
  currentUser : option User;
  editingEntryId : option (list N);
  currentSessionIndex : nat;
  currentLiftId : option (list N);
  currentRx : option (list N);
  todayEntries : gset (list N);
  setGroups : list Row;
  notesInput : list N;
  saveBtnDisabled : bool;
  saveBtnText : list N;
  cancelEditHidden : bool;
  editBannerHidden : bool;
  historyList : HistoryView;
  alerts : list (list N)        (* the messages given to [alert] *)
}.

Definition set_editingEntryId (v : option (list N)) (st : AppState) : AppState :=
  {| currentUser := currentUser st; editingEntryId := v;
     currentSessionIndex := currentSessionIndex st;
     currentLiftId := currentLiftId st; currentRx := currentRx st;
     todayEntries := todayEntries st; setGroups := setGroups st;
     notesInput := notesInput st; saveBtnDisabled := saveBtnDisabled st;
     saveBtnText := saveBtnText st; cancelEditHidden := cancelEditHidden st;
     editBannerHidden := editBannerHidden st; historyList := historyList st;
     alerts := alerts st |}.

Definition set_currentLift (liftId rx : option (list N)) (st : AppState) : AppState :=
  {| currentUser := currentUser st; editingEntryId := editingEntryId st;
     currentSessionIndex := currentSessionIndex st;
     currentLiftId := liftId; currentRx := rx;
     todayEntries := todayEntries st; setGroups := setGroups st;
     notesInput := notesInput st; saveBtnDisabled := saveBtnDisabled st;
     saveBtnText := saveBtnText st; cancelEditHidden := cancelEditHidden st;
     editBannerHidden := editBannerHidden st; historyList := historyList st;
     alerts := alerts st |}.

Definition set_todayEntries (v : gset (list N)) (st : AppState) : AppState :=
  {| currentUser := currentUser st; editingEntryId := editingEntryId st;
     currentSessionIndex := currentSessionIndex st;
     currentLiftId := currentLiftId st; currentRx := currentRx st;
     todayEntries := v; setGroups := setGroups st;
     notesInput := notesInput st; saveBtnDisabled := saveBtnDisabled st;
     saveBtnText := saveBtnText st; cancelEditHidden := cancelEditHidden st;
     editBannerHidden := editBannerHidden st; historyList := historyList st;
     alerts := alerts st |}.

Definition set_setGroups (v : list Row) (st : AppState) : AppState :=
  {| currentUser := currentUser st; editingEntryId := editingEntryId st;
     currentSessionIndex := currentSessionIndex st;
     currentLiftId := currentLiftId st; currentRx := currentRx st;
     todayEntries := todayEntries st; setGroups := v;
     notesInput := notesInput st; saveBtnDisabled := saveBtnDisabled st;
     saveBtnText := saveBtnText st; cancelEditHidden := cancelEditHidden st;
     editBannerHidden := editBannerHidden st; historyList := historyList st;
     alerts := alerts st |}.

Definition set_notesInput (v : list N) (st : AppState) : AppState :=
  {| currentUser := currentUser st; editingEntryId := editingEntryId st;
     currentSessionIndex := currentSessionIndex st;
     currentLiftId := currentLiftId st; currentRx := currentRx st;
     todayEntries := todayEntries st; setGroups := setGroups st;
     notesInput := v; saveBtnDisabled := saveBtnDisabled st;
     saveBtnText := saveBtnText st; cancelEditHidden := cancelEditHidden st;
     editBannerHidden := editBannerHidden st; historyList := historyList st;
     alerts := alerts st |}.

Definition set_saveBtn (disabled : bool) (text : list N) (st : AppState) : AppState :=
  {| currentUser := currentUser st; editingEntryId := editingEntryId st;
     currentSessionIndex := currentSessionIndex st;
     currentLiftId := currentLiftId st; currentRx := currentRx st;
     todayEntries := todayEntries st; setGroups := setGroups st;
     notesInput := notesInput st; saveBtnDisabled := disabled;
     saveBtnText := text; cancelEditHidden := cancelEditHidden st;
     editBannerHidden := editBannerHidden st; historyList := historyList st;
     alerts := alerts st |}.

Definition set_editHidden (v : bool) (st : AppState) : AppState :=
  {| currentUser := currentUser st; editingEntryId := editingEntryId st;
     currentSessionIndex := currentSessionIndex st;
     currentLiftId := currentLiftId st; currentRx := currentRx st;
     todayEntries := todayEntries st; setGroups := setGroups st;
     notesInput := notesInput st; saveBtnDisabled := saveBtnDisabled st;
     saveBtnText := saveBtnText st; cancelEditHidden := v;
     editBannerHidden := v; historyList := historyList st;
     alerts := alerts st |}.

Definition set_historyList (v : HistoryView) (st : AppState) : AppState :=
  {| currentUser := currentUser st; editingEntryId := editingEntryId st;
     currentSessionIndex := currentSessionIndex st;
     currentLiftId := currentLiftId st; currentRx := currentRx st;
     todayEntries := todayEntries st; setGroups := setGroups st;
     notesInput := notesInput st; saveBtnDisabled := saveBtnDisabled st;
     saveBtnText := saveBtnText st; cancelEditHidden := cancelEditHidden st;
     editBannerHidden := editBannerHidden st; historyList := v;
     alerts := alerts st |}.

(** [alert(msg)] *)
Definition alert (msg : list N) (st : AppState) : AppState :=
  {| currentUser := currentUser st; editingEntryId := editingEntryId st;
     currentSessionIndex := currentSessionIndex st;
     currentLiftId := currentLiftId st; currentRx := currentRx st;
     todayEntries := todayEntries st; setGroups := setGroups st;
     notesInput := notesInput st; saveBtnDisabled := saveBtnDisabled st;
     saveBtnText := saveBtnText st; cancelEditHidden := cancelEditHidden st;
     editBannerHidden := editBannerHidden st; historyList := historyList st;
     alerts := alerts st ++ [msg] |}.

(** A string or id as a condition: [null], [undefined] and the empty
    string are falsy. *)
Definition truthy (x : option (list N)) : option (list N) :=
  match x with
  | Some (c :: s) => Some (c :: s)
  | _ => None
  end.

(** [createSetGroupRow()]: three empty inputs. *)
Definition createSetGroupRow : Row :=
  {| input_sets := []; input_reps := []; input_weight := [] |}.

(** [resetSetGroups()] *)
Definition resetSetGroups (st : AppState) : AppState :=
  set_notesInput [] (set_setGroups [createSetGroupRow] st).

(** A number assigned to the value of a number input: its string, or the
    empty string when that is not the numeral of a number, as for [NaN] and
    the infinities (value sanitization). *)
Definition intInputValue (n : jsint) : list N :=
  match n with
  | Int z => NumberToStringInt z
  | _ => []
  end.

(** The auto-fill from the prescription:
    [const parsed = parseRx(rx); if (parsed) { row... = parsed.maxSets; ... }].
    [None] when there is no row to write to: the assignment throws. *)
Definition fillFromRx (rx : option (list N)) (st : AppState) : option AppState :=
  match parseRx rx with
  | None => Some st
  | Some parsed =>
    match setGroups st with
    | row :: rows =>
      Some (set_setGroups
              ({| input_sets := intInputValue (maxSets parsed);
                  input_reps := intInputValue (maxReps parsed);
                  input_weight := input_weight row |} :: rows) st)
    | [] => None
    end
  end.

(** The body of the [forEach] over the rows in the save handler: the group
    a row holds, [None] when the row makes the form invalid. *)
Definition readRow (row : Row) : option Group.t :=
  let nsets := parseInt (input_sets row) in
  let nreps := parseInt (input_reps row) in
  let w := parseFloat (input_weight row) in
  if falsyInt nsets || falsyInt nreps || isNaN w then None
  else Some (Group.mk nsets nreps w).

(** The [valid] flag and the [groups] array after the [forEach]. *)
Definition collectGroups (rows : list Row) : bool * list Group.t :=
  fold_left
    (fun acc row =>
       match readRow row with
       | None => (false, acc.2)
       | Some g => (acc.1, acc.2 ++ [g])
       end)
    rows (true, []).

(** [lastWeight] after the [forEach] of [loadHistory]: the weight of the
    first group of the first entry that has a group. *)
Definition lastWeightOf (snapshot : list (list N * Entry)) : option jsfloat :=
  fold_left
    (fun lastWeight kv =>
       match lastWeight, sets kv.2 with
       | None, g :: _ => Some (Group.weight g)
       | _, _ => lastWeight
       end)
    snapshot None.

Section App.
Variable tzOffset : Z.
(** The catalogue; empty when [lifts.js] defines no sessions. *)
Variable SESSIONS : list Session.t.
Variable LIFTS : list Lift.t.
(** [String(x)] for a finite number read by [parseFloat]; left to the
    host. *)
Variable NumberToString : bool -> N -> Z -> list N.

Definition useSessionMode : bool := negb (length SESSIONS =? 0)%nat.

(** A weight assigned to the value of a number input: NaN and the
    infinities leave it empty (value sanitization). *)
Definition floatInputValue (x : jsfloat) : list N :=
  match x with
  | FDec neg m e => NumberToString neg m e
  | _ => []
  end.

(** [SESSIONS.findIndex((s) => s.id === sessionId)]; [None] is [-1]. *)
Definition findIndex (sessionId : list N) : option nat :=
  fst <$> list_find (fun s => Session.id s = sessionId) SESSIONS.

(** [determineCurrentSession()].  Any exception in the body, a missing
    user included, is caught and gives 0.  [now h] is the first
    [new Date()] the body reaches and [nowAgain h] the second: when the
    entry has a date only [today] reads the clock. *)
Definition determineCurrentSession (h : Host) (db : gmap (list N * list N) Entry)
    (st : AppState) : nat :=
  match currentUser st with
  | None => 0%nat
  | Some user =>
    match get h (limit 1 (orderByDateDesc (entriesOf (uid user) db))) with
    | Failed => 0%nat
    | Fetched [] => 0%nat
    | Fetched ((_, data) :: _) =>
      let lastDate := match date data with Some t => t | None => now h end in
      match truthy (session data) with
      | None => 0%nat
      | Some lastSessionId =>
        match findIndex lastSessionId with
        | None => 0%nat
        | Some lastIndex =>
          let today := match date data with Some _ => now h | None => nowAgain h end in
          let isToday :=
            (getFullYear tzOffset lastDate =? getFullYear tzOffset today)
            && (getMonth tzOffset lastDate =? getMonth tzOffset today)
            && (getDate tzOffset lastDate =? getDate tzOffset today) in
          if isToday then lastIndex else ((lastIndex + 1) mod length SESSIONS)%nat
        end
      end
    end
  end.

(** [loadTodayEntries()] *)
Definition loadTodayEntries (h : Host) (db : gmap (list N * list N) Entry)
    (st : AppState) : AppState :=
  let today := startOfDay tzOffset (now h) in
  let result :=
    match currentUser st with
    | None => Failed
    | Some user => get h (whereDateFrom today (entriesOf (uid user) db))
    end in
  match result with
  | Fetched snapshot =>
    set_todayEntries (list_to_set ((fun kv => lift kv.2) <$> snapshot)) st
  | Failed => set_todayEntries ∅ st
  end.

(** [loadHistory(liftId)] *)
Definition loadHistory (h : Host) (db : gmap (list N * list N) Entry)
    (liftId : list N) (st : AppState) : AppState :=
  match currentUser st with
  | None => st
  | Some user =>
    match get h (limit 5 (orderByDateDesc (whereLift liftId (entriesOf (uid user) db)))) with
    | Failed => set_historyList HistoryFailed st
    | Fetched [] => set_historyList HistoryNone st
    | Fetched snapshot =>
      let st1 := set_historyList (HistoryEntries snapshot) st in
      match lastWeightOf snapshot with
      | None => st1
      | Some lastWeight =>
        match setGroups st1 with
        | [] => st1
        | firstRow :: rows =>
          match input_weight firstRow with
          | [] =>
            set_setGroups
              ({| input_sets := input_sets firstRow;
                  input_reps := input_reps firstRow;
                  input_weight := floatInputValue lastWeight |} :: rows) st1
          | _ :: _ => st1
          end
        end
      end
    end
  end.

(** [selectLift(liftId, rx)].  An unknown lift makes [lift.name] throw
    after the two globals are set. *)
Definition selectLift (h : Host) (db : gmap (list N * list N) Entry)
    (liftId : list N) (rx : option (list N)) (st : AppState) : AppState :=
  let st1 := set_currentLift (Some liftId) rx st in
  match list_find (fun l => Lift.id l = liftId) LIFTS with
  | None => st1
  | Some _ =>
    let st2 := resetSetGroups st1 in
    match fillFromRx rx st2 with
    | None => st2
    | Some st3 =>
      match currentUser st3 with
      | Some _ => loadHistory h db liftId st3
      | None => set_historyList HistoryBlank st3
      end
    end
  end.

(** [startEdit(docId, data)] *)
Definition startEdit (docId : list N) (data : Entry) (st : AppState) : AppState :=
  let rows :=
    (fun g => {| input_sets := intInputValue (Group.sets g);
                 input_reps := intInputValue (Group.reps g);
                 input_weight := floatInputValue (Group.weight g) |}) <$> sets data in
  let st1 := set_editingEntryId (Some docId) st in
  let st2 := set_notesInput (notes data) (set_setGroups rows st1) in
  set_editHidden false (set_saveBtn (saveBtnDisabled st2) (js "Update") st2).

(** The [finally] block of the save handler. *)
Definition saveFinally (st : AppState) : AppState :=
  set_saveBtn false
    (match truthy (editingEntryId st) with
     | Some _ => js "Update"
     | None => js "Save"
     end) st.

(** The click handler of [saveBtn]: the store and the page after it. *)
Definition save (h : Host) (db : gmap (list N * list N) Entry) (st : AppState)
    : gmap (list N * list N) Entry * AppState :=
  match currentUser st, truthy (currentLiftId st) with
  | Some user, Some liftId =>
    let '(valid, groups) := collectGroups (setGroups st) in
    if negb valid || (length groups =? 0)%nat then
      (db, alert (js "Please fill in sets, reps, and weight for each group.") st)
    else
      let st1 :=
        set_saveBtn true
          (match truthy (editingEntryId st) with
           | Some _ => js "Updating..."
           | None => js "Saving..."
           end) st in
      let written :=
        match truthy (editingEntryId st1) with
        | Some docId =>
          match update h (uid user) docId groups (trim (notesInput st1)) db with
          | Fetched db' =>
            Fetched (db', set_editHidden true (set_editingEntryId None st1))
          | Failed => Failed
          end
        | None =>
          let tag :=
            if useSessionMode then
              match SESSIONS !! currentSessionIndex st1 with
              | Some s => Some (Some (Session.id s))
              | None => None
              end
            else Some None in
          match tag with
          | None => Failed
          | Some entrySession =>
            let entry :=
              {| lift := liftId; date := Some (serverTime h); sets := groups;
                 notes := trim (notesInput st1); session := entrySession |} in
            match add h (uid user) entry db with
            | Fetched db' =>
              Fetched (db', set_todayEntries ({[liftId]} ∪ todayEntries st1) st1)
            | Failed => Failed
            end
          end
        end in
      match written with
      | Fetched (db', st2) =>
        let st3 := loadHistory h db' liftId (resetSetGroups st2) in
        let refilled :=
          match truthy (currentRx st3) with
          | Some rx => fillFromRx (Some rx) st3
          | None => Some st3
          end in
        match refilled with
        | Some st4 => (db', saveFinally st4)
        | None =>
          (db', saveFinally (alert (js "Failed to save. Please try again.") st3))
        end
      | Failed =>
        (db, saveFinally (alert (js "Failed to save. Please try again.") st1))
      end
  | _, _ => (db, st)
  end.
End App.

(** ** Vocabulary of the statements about the handlers *)

(** The most recent entry of a user: the first document in descending
    order of date, which is what [determineCurrentSession] asks for. *)
Definition mostRecentEntry (uid : list N) (db : gmap (list N * list N) Entry)
    : option (list N * Entry) :=
  head (orderByDateDesc (entriesOf uid db)).

(** The five most recent entries of a lift, newest first: what
    [loadHistory] asks for. *)
Definition historyOf (uid liftId : list N) (db : gmap (list N * list N) Entry)
    : list (list N * Entry) :=
  limit 5 (orderByDateDesc (whereLift liftId (entriesOf uid db))).

(** A row with its weight field filled when that field is empty. *)
Definition fillWeight (v : list N) (row : Row) : Row :=
  match input_weight row with
  | [] => {| input_sets := input_sets row; input_reps := input_reps row; input_weight := v |}
  | _ :: _ => row
  end.

(** A number that is an integer below 2^53 in absolute value: [String]
    writes all its digits, and [parseInt] reads them back exactly. *)
Definition safeInteger (n : jsint) : Prop :=
  match n with
  | Int z => Z.abs z < 2 ^ 53
  | _ => False
  end.

(** What the validation of the save handler asks of a group: counts that
    are numbers other than zero, a weight that is a number. *)
Definition passes (g : Group.t) : Prop :=
  falsyInt (Group.sets g) = false /\ falsyInt (Group.reps g) = false /\
  isNaN (Group.weight g) = false.

(** ** Example data *)

Definition user1 : User := {| uid := js "u1" |}.

(** Midnight UTC of day 20000 after the epoch. *)
Definition squatDay : Z := 20000 * msPerDay.

(** A host whose clock shows [t] and whose store answers. *)
Definition hostAt (t : Z) : Host :=
  {| readOk := true; writeOk := true; now := t; nowAgain := t;
     serverTime := t; freshId := js "new" |}.

(** A host whose clock shows the last millisecond of the day before
    [squatDay] at the first reading and midnight at the second. *)
Definition midnightHost : Host :=
  {| readOk := true; writeOk := true; now := squatDay - 1; nowAgain := squatDay;
     serverTime := squatDay; freshId := js "new" |}.

(** The page of a user before any lift is selected. *)
Definition blankState (user : option User) : AppState :=
  {| currentUser := user; editingEntryId := None; currentSessionIndex := 0;
     currentLiftId := None; currentRx := None; todayEntries := ∅;
     setGroups := [createSetGroupRow]; notesInput := [];
     saveBtnDisabled := false; saveBtnText := js "Save";
     cancelEditHidden := true; editBannerHidden := true;
     historyList := HistoryBlank; alerts := [] |}.

(** A squat entry at noon of [squatDay] and a bench entry at noon of the
    day before. *)
Definition squatStore : gmap (list N * list N) Entry :=
  <[(js "u1", js "e2") :=
      {| lift := js "bench"; date := Some (squatDay - msPerDay / 2);
         sets := []; notes := []; session := None |}]>
  (<[(js "u1", js "e1") :=
      {| lift := js "squat"; date := Some (squatDay + msPerDay / 2);
         sets := []; notes := []; session := None |}]> ∅).

Definition benchEntry (t : option Z) (sessionId : list N) : Entry :=
  {| lift := js "barbell_bench_press"; date := t;
     sets := [Group.mk (Int 3) (Int 5) (FDec false 185 0)];
     notes := []; session := Some sessionId |}.

(** A history whose newest entry belongs to session B, at noon of
    [squatDay]; the older one to session A, the day before. *)
Definition rotationStore : gmap (list N * list N) Entry :=
  <[(js "u1", js "e2") := benchEntry (Some (squatDay - msPerDay / 2)) (js "session_a")]>
  (<[(js "u1", js "e1") := benchEntry (Some (squatDay + msPerDay / 2)) (js "session_b")]> ∅).

(** A history whose only entry still waits for its timestamp. *)
Definition pendingStore : gmap (list N * list N) Entry :=
  <[(js "u1", js "e1") := benchEntry None (js "session_b")]> ∅.

(** A host's [String] on weights, good for whole numbers: a sign and the
    digits of the mantissa. *)
Definition plainNumber (neg : bool) (m : N) (e : Z) : list N :=
  (if neg then [45%N] else []) ++ IntToString (Z.of_N m).

(** The page with the bench press selected and one row filled in. *)
Definition formState (editing : option (list N)) (s r w : string) : AppState :=
  {| currentUser := Some user1; editingEntryId := editing; currentSessionIndex := 0;
     currentLiftId := Some (js "barbell_bench_press"); currentRx := Some (js "alt: 3x5, 4x5-6");
     todayEntries := ∅;
     setGroups := [ {| input_sets := js s; input_reps := js r; input_weight := js w |} ];
     notesInput := js " felt strong ";
     saveBtnDisabled := false; saveBtnText := js "Save";
     cancelEditHidden := true; editBannerHidden := true;
     historyList := HistoryBlank; alerts := [] |}.

(** ** Text put into markup *)

Local Open Scope N_scope.

(** A code unit of a text node as [innerHTML] writes it: the ampersand,
    the no-break space and the two angle brackets become entities. *)
Definition escapeChar (c : N) : list N :=
  if c =? 38 then js "&amp;"
  else if c =? 160 then js "&nbsp;"
  else if c =? 60 then js "&lt;"
  else if c =? 62 then js "&gt;"
  else [c].

(** [escapeHtml(str)]: the [innerHTML] of an element whose [textContent]
    is [str]. *)
Definition escapeHtml (str : list N) : list N := str ≫= escapeChar.

(** The four entities that [escapeHtml] writes, without their ampersand. *)
Definition entityNames : list (list N) := [js "amp;"; js "nbsp;"; js "lt;"; js "gt;"].

(** The code units that [escapeHtml] rewrites. *)
Definition isMarkupChar (c : N) : bool :=
  (c =? 38) || (c =? 160) || (c =? 60) || (c =? 62).

Local Close Scope N_scope.

(** ** Calendar dates made into instants *)

(** The day number of a calendar date, months from 1: the inverse of
    [civilFromDays]. *)
Definition daysFromCivil (y m d : Z) : Z :=
  let y' := if m <=? 2 then y - 1 else y in
  let era := y' / 400 in
  let yoe := y' - era * 400 in
  let mp := if m <=? 2 then m + 9 else m - 3 in
  let doy := (153 * mp + 2) / 5 + d - 1 in
  let doe := yoe * 365 + yoe / 4 - yoe / 100 + doy in
  era * 146097 + doe - 719468.

(** MakeDay: months from 0, a month outside 0..11 carried into the year,
    a day of the month counted on from the first of the month. *)
Definition MakeDay (year month date : Z) : Z :=
  daysFromCivil (year + month / 12) (month mod 12 + 1) 1 + date - 1.

(** [new Date(year, month, date)]: local midnight of that date.  A year
    from 0 to 99 stands for a year of the twentieth century. *)
Definition newDate (tzOffset year month date : Z) : Z :=
  let yr := if (0 <=? year) && (year <=? 99) then 1900 + year else year in
  MakeDay yr month date * msPerDay - tzOffset.

(** [Math.round(a / b)] for a positive [b]: the nearest integer, a half
    going up. *)
Definition roundDiv (a b : Z) : Z := (2 * a + b) / (2 * b).

(** ** The recent sessions *)

(** [seen] after the [forEach] of [loadRecentSessions]: a [Map] keeps its
    keys in the order they were first set. *)
Definition seenSessions (snapshot : list (list N * Entry)) : list (list N * Z) :=
  fold_left
    (fun seen kv =>
       match truthy (session kv.2), date kv.2 with
       | Some sid, Some t =>
         if decide (sid ∈ seen.*1) then seen else seen ++ [(sid, t)]
       | _, _ => seen
       end)
    snapshot [].

(** [diffDays]: the days from the local midnight of [date] to the local
    midnight of [now]. *)
Definition diffDays (tzOffset now date : Z) : Z :=
  let nowMidnight :=
    newDate tzOffset (getFullYear tzOffset now) (getMonth tzOffset now)
      (getDate tzOffset now) in
  let dateMidnight :=
    newDate tzOffset (getFullYear tzOffset date) (getMonth tzOffset date)
      (getDate tzOffset date) in
  roundDiv (nowMidnight - dateMidnight) (1000 * 60 * 60 * 24).

Definition agoStr (diffDays : Z) : list N :=
  if diffDays =? 0 then js "today"
  else if diffDays =? 1 then js "1 day ago"
  else IntToString diffDays ++ js " days ago".

(** An item of [#recent-sessions]: the name of a session, as markup, and
    how long ago it was last done. *)
Record RecentItem := { recent_name : list N; recent_ago : list N }.

(** The body of the [forEach] over the entries of [seen]; a session that
    the catalogue does not list gives no item. *)
Definition recentItem (tzOffset : Z) (SESSIONS : list Session.t) (now : Z)
    (entry : list N * Z) : option RecentItem :=
  match list_find (fun s => Session.id s = entry.1) SESSIONS with
  | None => None
  | Some (_, s) =>
    Some {| recent_name := escapeHtml (Session.name s);
            recent_ago := agoStr (diffDays tzOffset now entry.2) |}
  end.

(** [loadRecentSessions()]: the items of [#recent-sessions] after it.  A
    missing user and a failed lookup are caught and leave it empty. *)
Definition loadRecentSessions (tzOffset : Z) (SESSIONS : list Session.t) (h : Host)
    (db : gmap (list N * list N) Entry) (st : AppState) : list RecentItem :=
  match currentUser st with
  | None => []
  | Some user =>
    match get h (limit 50 (orderByDateDesc (entriesOf (uid user) db))) with
    | Failed => []
    | Fetched snapshot =>
      omap (recentItem tzOffset SESSIONS (now h)) (take 3 (seenSessions snapshot))
    end
  end.

(** ** The session overview *)

(** A row of the overview: [dataset.liftId], the name and the prescription
    as markup, and whether the row is marked completed. *)
Record OverviewRow := {
  row_liftId : list N;
  row_name : list N;
  row_rx : list N;
  row_done : bool
}.

(** A child of [#session-overview]: a row, or a choice group with its
    label and its rows. *)
Inductive OverviewItem :=
| LiftRow (row : OverviewRow)
| ChoiceGroup (label : list N) (rows : list OverviewRow).

(** [createOverviewRow(lift, rx, liftId)] *)
Definition createOverviewRow (todayEntries : gset (list N)) (lift : Lift.t)
    (rx liftId : list N) : OverviewRow :=
  {| row_liftId := liftId;
     row_name := escapeHtml (Lift.name lift);
     row_rx := escapeHtml rx;
     row_done := bool_decide (liftId ∈ todayEntries) |}.

(** [LIFTS.find((l) => l.id === liftId)] *)
Definition findLift (LIFTS : list Lift.t) (liftId : list N) : option Lift.t :=
  snd <$> list_find (fun l => Lift.id l = liftId) LIFTS.

(** The body of the [forEach] over the choices of a slot: a lift that
    [LIFTS] does not list gives no row. *)
Definition renderChoice (LIFTS : list Lift.t) (todayEntries : gset (list N))
    (choice : list N * list N) : option OverviewRow :=
  match findLift LIFTS choice.1 with
  | Some lift => Some (createOverviewRow todayEntries lift choice.2 choice.1)
  | None => None
  end.

(** The body of the [forEach] over the slots of a session. *)
Definition renderSlot (LIFTS : list Lift.t) (todayEntries : gset (list N))
    (item : Slot) : option OverviewItem :=
  match item with
  | Choose choose note =>
    Some (ChoiceGroup
            (match truthy note with
             | Some n => js "pick one " ++ [8212%N] ++ js " " ++ n
             | None => js "pick one"
             end)
            (omap (renderChoice LIFTS todayEntries) choose))
  | Fixed liftId rx =>
    match findLift LIFTS liftId with
    | Some lift => Some (LiftRow (createOverviewRow todayEntries lift rx liftId))
    | None => None
    end
  end.

(** [renderSessionOverview(session)]: the children of [#session-overview]
    after it. *)
Definition renderSessionOverview (LIFTS : list Lift.t) (todayEntries : gset (list N))
    (session : Session.t) : list OverviewItem :=
  omap (renderSlot LIFTS todayEntries) (Session.lifts session).

(** The rows of an overview, those of the choice groups included, from
    top to bottom. *)
Definition overviewRows (items : list OverviewItem) : list OverviewRow :=
  items ≫= (fun item =>
    match item with
    | LiftRow row => [row]
    | ChoiceGroup _ rows => rows
    end).

(** The lifts of a slot, and of a session. *)
Definition slotLifts (s : Slot) : list (list N) :=
  match s with
  | Fixed liftId _ => [liftId]
  | Choose choose _ => fst <$> choose
  end.

Definition sessionLifts (s : Session.t) : list (list N) :=
  Session.lifts s ≫= slotLifts.

(** ** The rows of the form *)

(** The click handler of [addGroupBtn]. *)
Definition addGroup (st : AppState) : AppState :=
  set_setGroups (setGroups st ++ [createSetGroupRow]) st.

(** The click handler of the remove button of the row at index [i]: the
    row goes unless it is the only one. *)
Definition removeGroup (i : nat) (st : AppState) : AppState :=
  if (1 <? length (setGroups st))%nat then set_setGroups (delete i (setGroups st)) st
  else st.

(** The click handler of [cancelEditBtn].  An auto-fill that finds no row
    throws, which ends the handler. *)
Definition cancelEdit (st : AppState) : AppState :=
  let st1 := set_editingEntryId None st in
  let st2 := set_editHidden true (set_saveBtn (saveBtnDisabled st1) (js "Save") st1) in
  let st3 := resetSetGroups st2 in
  match truthy (currentRx st3) with
  | Some rx =>
    match fillFromRx (Some rx) st3 with
    | Some st4 => st4
    | None => st3
    end
  | None => st3
  end.

(** ** Clicks on the rows of the form *)

Inductive FormClick :=
| AddGroup
| RemoveGroup (i : nat).

Definition formClick (c : FormClick) (st : AppState) : AppState :=
  match c with
  | AddGroup => addGroup st
  | RemoveGroup i => removeGroup i st
  end.

(** The page after a sequence of clicks, the first of the list first. *)
Definition formClicks (cs : list FormClick) (st : AppState) : AppState :=
  fold_left (fun st c => formClick c st) cs st.

(** ** The lifts of the catalogue ([lifts.js]) *)

(** The lifts that [lifts.js] lists. *)
Definition LIFTS_lifts_js : list Lift.t :=
  [ Lift.mk (js "box_jumps") (js "Box Jumps")
      (js "Jump up, step down. Keep 18" ++ [8211%N] ++ js "22" ++ [8243%N] ++ js ". Max intent, full reset.");
    Lift.mk (js "barbell_bench_press") (js "Barbell Bench Press")
      (js "1" ++ [8211%N] ++ js "2 RIR. Add reps before load. Stable shoulder position.");
    Lift.mk (js "leg_press") (js "Leg Press")
      (js "Depth no deeper than parallel. Smooth tempo.");
    Lift.mk (js "db_incline_press") (js "Dumbbell Incline Press")
      (js "Feet up, power thru whole body.");
    Lift.mk (js "cable_fly") (js "Cable Fly")
      (js "Stretch under control.");
    Lift.mk (js "row") (js "Row")
      [];
    Lift.mk (js "triceps_pushdown") (js "Triceps Pushdown")
      (js "Short rest. Full extension. Lock elbows.");
    Lift.mk (js "incline_db_curl") (js "Incline DB Curl")
      (js "Full stretch. No swing.");
    Lift.mk (js "trap_bar_deadlift") (js "Trap Bar Deadlift")
      (js "RIR 2. No grinding. Abort if hip awareness.");
    Lift.mk (js "seated_hamstring_curl") (js "Seated Hamstring Curl")
      (js "Controlled tempo. No hip shift.");
    Lift.mk (js "weighted_pull_ups") (js "Weighted Pull-Ups")
      (js "Shoulder-width or neutral grip. Add weight gradually.");
    Lift.mk (js "db_flat_bench") (js "DB Flat Bench")
      (js "Hypertrophy focus. Controlled tempo.");
    Lift.mk (js "rear_delt_fly") (js "Rear Delt Fly")
      (js "Scaps down.");
    Lift.mk (js "face_pull") (js "Face Pull")
      (js "Scaps down. Elbows high. External rotation emphasis.");
    Lift.mk (js "overhead_triceps_extension") (js "Overhead Triceps Extension")
      (js "Control stretch.");
    Lift.mk (js "hammer_curl") (js "Hammer Curl")
      (js "Neutral grip. No torso sway.");
    Lift.mk (js "dips") (js "Dips")
      (js "Stop shy of deep shoulder stretch. Add weight slowly.");
    Lift.mk (js "straight_arm_pulldown") (js "Straight Arm Pulldown")
      (js "Minimal elbow bend.");
    Lift.mk (js "lateral_raise") (js "Lateral Raise")
      (js "Soft elbows. Avoid shrugging. Arms 15" ++ [176%N] ++ js " forward; pull out not up.");
    Lift.mk (js "hip_abduction") (js "Hip Abduction")
      (js "Slight forward lean. Controlled reps.");
    Lift.mk (js "glute_kickback") (js "Glute Kickback")
      (js "Height 4. Feel glute to hamstring on push. No lumbar extension.");
    Lift.mk (js "pallof_press") (js "Pallof Press")
      (js "Anti-rotation focus. Neutral pelvis.");
    Lift.mk (js "cable_rotation") (js "Cable Rotation")
      (js "Explosive but controlled. No lumbar rotation.") ].

(** ** Vocabulary of the statements about the form *)

(** A row can be read: the save handler gets a group from it. *)
Definition readable (row : Row) : bool := bool_decide (is_Some (readRow row)).

(** The group that the save handler makes of a row it can read. *)
Definition groupOfRow (row : Row) : Group.t :=
  Group.mk (parseInt (input_sets row)) (parseInt (input_reps row))
    (parseFloat (input_weight row)).

(** Two lists of rows that differ at most in the weight field of the
    first row, and there only if that field was empty. *)
Definition sameButWeight (rows rows' : list Row) : Prop :=
  match rows, rows' with
  | [], [] => True
  | row :: rest, row' :: rest' =>
    input_sets row' = input_sets row /\ input_reps row' = input_reps row /\
    (input_weight row <> [] -> input_weight row' = input_weight row) /\
    rest' = rest
  | _, _ => False
  end.

(** The session id that the save handler puts on a new entry: none
    without sessions, the id of the current session with them; the handler
    fails when the current index is the index of no session. *)
Definition sessionTag (SESSIONS : list Session.t) (index : nat) : option (option (list N)) :=
  if useSessionMode SESSIONS then
    match SESSIONS !! index with
    | Some s => Some (Some (Session.id s))
    | None => None
    end
  else Some None.

(** ** Vocabulary of the statements about the save handler *)

(** The write of the save handler, from the page [st1] with the button
    disabled: the store and the page after it, or a failure. *)
Definition writeEntry (SESSIONS : list Session.t) (h : Host)
    (db : gmap (list N * list N) Entry) (user : User) (liftId : list N)
    (groups : list Group.t) (st1 : AppState)
    : fetch (gmap (list N * list N) Entry * AppState) :=
  match truthy (editingEntryId st1) with
  | Some docId =>
    match update h (uid user) docId groups (trim (notesInput st1)) db with
    | Fetched db' => Fetched (db', set_editHidden true (set_editingEntryId None st1))
    | Failed => Failed
    end
  | None =>
    match sessionTag SESSIONS (currentSessionIndex st1) with
    | None => Failed
    | Some entrySession =>
      let entry :=
        {| lift := liftId; date := Some (serverTime h); sets := groups;
           notes := trim (notesInput st1); session := entrySession |} in
      match add h (uid user) entry db with
      | Fetched db' => Fetched (db', set_todayEntries ({[liftId]} ∪ todayEntries st1) st1)
      | Failed => Failed
      end
    end
  end.

(** What the save handler does after a write that went through. *)
Definition afterWrite (NumberToString : bool -> N -> Z -> list N) (h : Host)
    (db' : gmap (list N * list N) Entry) (liftId : list N) (st2 : AppState) : AppState :=
  let st3 := loadHistory NumberToString h db' liftId (resetSetGroups st2) in
  let refilled :=
    match truthy (currentRx st3) with
    | Some rx => fillFromRx (Some rx) st3
    | None => Some st3
    end in
  match refilled with
  | Some st4 => saveFinally st4
  | None => saveFinally (alert (js "Failed to save. Please try again.") st3)
  end.

(** The page as the save handler leaves it when it has disabled the
    button. *)
Definition savingState (st : AppState) : AppState :=
  set_saveBtn true
    (match truthy (editingEntryId st) with
     | Some _ => js "Updating..."
     | None => js "Saving..."
     end) st.

(** ** Launching the page, signing in and out *)

Definition set_currentUser (v : option User) (st : AppState) : AppState :=
  {| currentUser := v; editingEntryId := editingEntryId st;
     currentSessionIndex := currentSessionIndex st;
     currentLiftId := currentLiftId st; currentRx := currentRx st;
     todayEntries := todayEntries st; setGroups := setGroups st;
     notesInput := notesInput st; saveBtnDisabled := saveBtnDisabled st;
     saveBtnText := saveBtnText st; cancelEditHidden := cancelEditHidden st;
     editBannerHidden := editBannerHidden st; historyList := historyList st;
     alerts := alerts st |}.

Definition set_currentSessionIndex (v : nat) (st : AppState) : AppState :=
  {| currentUser := currentUser st; editingEntryId := editingEntryId st;
     currentSessionIndex := v;
     currentLiftId := currentLiftId st; currentRx := currentRx st;
     todayEntries := todayEntries st; setGroups := setGroups st;
     notesInput := notesInput st; saveBtnDisabled := saveBtnDisabled st;
     saveBtnText := saveBtnText st; cancelEditHidden := cancelEditHidden st;
     editBannerHidden := editBannerHidden st; historyList := historyList st;
     alerts := alerts st |}.

(** A tab of [#session-tabs]: its text and whether it has the class
    [active]. *)
Record Tab := { tab_name : list N; tab_active : bool }.

(** The parts of the page that the handlers below draw or hide.  Whether
    the session selector or the dropdown is shown, which depends on the
    catalogue alone, and the value of the dropdown are left out. *)
Record View := {
  sessionTabs : list Tab;                  (* the children of [#session-tabs] *)
  recentSessions : list RecentItem;        (* the children of [#recent-sessions] *)
  sessionOverview : list OverviewItem;     (* the children of [#session-overview] *)
  sessionOverviewHidden : bool;
  liftDetailHidden : bool;
  liftOptions : list (list N * list N);    (* the options of [#lift-select]: value, text *)
  viewOnly : bool                          (* [body] has the class [view-only] *)
}.

(** [renderSessionTabs()] *)
Definition renderSessionTabs (SESSIONS : list Session.t) (st : AppState) : list Tab :=
  imap (fun i s => {| tab_name := Session.name s;
                      tab_active := bool_decide (i = currentSessionIndex st) |})
       SESSIONS.

(** [populateDropdown()] *)
Definition populateDropdown (LIFTS : list Lift.t) : list (list N * list N) :=
  ([], [8212%N; 32%N] ++ js "Choose a lift " ++ [8212%N])
  :: ((fun l => (Lift.id l, Lift.name l)) <$> LIFTS).

(** [loadSession(index)].  An index that is the index of no session makes
    [renderSessionOverview] throw after it has emptied the overview, which
    is then not shown if it was hidden. *)
Definition loadSession (tzOffset : Z) (SESSIONS : list Session.t) (LIFTS : list Lift.t)
    (h : Host) (db : gmap (list N * list N) Entry) (index : nat)
    (p : AppState * View) : AppState * View :=
  let st1 := loadTodayEntries tzOffset h db (set_currentLift None None p.1) in
  let v := p.2 in
  (st1,
   match SESSIONS !! index with
   | Some session =>
     {| sessionTabs := sessionTabs v; recentSessions := recentSessions v;
        sessionOverview := renderSessionOverview LIFTS (todayEntries st1) session;
        sessionOverviewHidden := false; liftDetailHidden := true;
        liftOptions := liftOptions v; viewOnly := viewOnly v |}
   | None =>
     {| sessionTabs := sessionTabs v; recentSessions := recentSessions v;
        sessionOverview := [];
        sessionOverviewHidden := sessionOverviewHidden v; liftDetailHidden := true;
        liftOptions := liftOptions v; viewOnly := viewOnly v |}
   end).

(** [initApp()].  The three steps that ask the store read the clock and
    the store one after the other: [h1], [h2] and [h3] are what they get. *)
Definition initApp (tzOffset : Z) (SESSIONS : list Session.t) (LIFTS : list Lift.t)
    (h1 h2 h3 : Host) (db : gmap (list N * list N) Entry)
    (p : AppState * View) : AppState * View :=
  let v := p.2 in
  if useSessionMode SESSIONS then
    let st1 :=
      set_currentSessionIndex (determineCurrentSession tzOffset SESSIONS h1 db p.1) p.1 in
    let v1 :=
      {| sessionTabs := renderSessionTabs SESSIONS st1;
         recentSessions := loadRecentSessions tzOffset SESSIONS h2 db st1;
         sessionOverview := sessionOverview v;
         sessionOverviewHidden := sessionOverviewHidden v;
         liftDetailHidden := liftDetailHidden v;
         liftOptions := liftOptions v; viewOnly := viewOnly v |} in
    loadSession tzOffset SESSIONS LIFTS h3 db (currentSessionIndex st1) (st1, v1)
  else
    (p.1,
     {| sessionTabs := sessionTabs v; recentSessions := recentSessions v;
        sessionOverview := sessionOverview v; sessionOverviewHidden := true;
        liftDetailHidden := liftDetailHidden v;
        liftOptions := populateDropdown LIFTS; viewOnly := viewOnly v |}).

(** The click handler of the tab of session [i]. *)
Definition tabClick (tzOffset : Z) (SESSIONS : list Session.t) (LIFTS : list Lift.t)
    (h : Host) (db : gmap (list N * list N) Entry) (i : nat)
    (p : AppState * View) : AppState * View :=
  let st1 := set_currentSessionIndex i p.1 in
  let v := p.2 in
  loadSession tzOffset SESSIONS LIFTS h db i
    (st1,
     {| sessionTabs := renderSessionTabs SESSIONS st1;
        recentSessions := recentSessions v; sessionOverview := sessionOverview v;
        sessionOverviewHidden := sessionOverviewHidden v;
        liftDetailHidden := liftDetailHidden v;
        liftOptions := liftOptions v; viewOnly := viewOnly v |}).

(** [resetAll()] *)
Definition resetAll (p : AppState * View) : AppState * View :=
  let v := p.2 in
  (set_notesInput [] (set_setGroups [] (set_currentLift None None p.1)),
   {| sessionTabs := sessionTabs v; recentSessions := recentSessions v;
      sessionOverview := sessionOverview v; sessionOverviewHidden := true;
      liftDetailHidden := true; liftOptions := liftOptions v; viewOnly := viewOnly v |}).

(** [initViewOnly()] *)
Definition initViewOnly (SESSIONS : list Session.t) (LIFTS : list Lift.t)
    (p : AppState * View) : AppState * View :=
  let v := p.2 in
  if useSessionMode SESSIONS then
    let st1 := set_currentSessionIndex 0 p.1 in
    (st1,
     match SESSIONS !! 0%nat with
     | Some session =>
       {| sessionTabs := renderSessionTabs SESSIONS st1;
          recentSessions := recentSessions v;
          sessionOverview := renderSessionOverview LIFTS (todayEntries st1) session;
          sessionOverviewHidden := false; liftDetailHidden := liftDetailHidden v;
          liftOptions := liftOptions v; viewOnly := viewOnly v |}
     | None =>
       {| sessionTabs := renderSessionTabs SESSIONS st1;
          recentSessions := recentSessions v; sessionOverview := [];
          sessionOverviewHidden := false; liftDetailHidden := liftDetailHidden v;
          liftOptions := liftOptions v; viewOnly := viewOnly v |}
     end)
  else
    (p.1,
     {| sessionTabs := sessionTabs v; recentSessions := recentSessions v;
        sessionOverview := sessionOverview v; sessionOverviewHidden := true;
        liftDetailHidden := liftDetailHidden v;
        liftOptions := populateDropdown LIFTS; viewOnly := viewOnly v |}).

(** The listener of [auth.onAuthStateChanged]. *)
Definition authStateChanged (tzOffset : Z) (SESSIONS : list Session.t) (LIFTS : list Lift.t)
    (h1 h2 h3 : Host) (db : gmap (list N * list N) Entry) (user : option User)
    (p : AppState * View) : AppState * View :=
  let st1 := set_currentUser user p.1 in
  let v := p.2 in
  match user with
  | Some _ =>
    initApp tzOffset SESSIONS LIFTS h1 h2 h3 db
      (st1,
       {| sessionTabs := sessionTabs v; recentSessions := recentSessions v;
          sessionOverview := sessionOverview v;
          sessionOverviewHidden := sessionOverviewHidden v;
          liftDetailHidden := liftDetailHidden v;
          liftOptions := liftOptions v; viewOnly := false |})
  | None =>
    initViewOnly SESSIONS LIFTS
      (resetAll
         (st1,
          {| sessionTabs := sessionTabs v; recentSessions := recentSessions v;
             sessionOverview := sessionOverview v;
             sessionOverviewHidden := sessionOverviewHidden v;
             liftDetailHidden := liftDetailHidden v;
             liftOptions := liftOptions v; viewOnly := true |}))
  end.

(** A page on which nothing has been drawn yet. *)
Definition blankView : View :=
  {| sessionTabs := []; recentSessions := []; sessionOverview := [];
     sessionOverviewHidden := true; liftDetailHidden := true;
     liftOptions := []; viewOnly := false |}.

(** ** The service worker

    Requests and responses as far as the worker and the Cache interface
    look at them. *)

(** A request: its URL, the host name and the path of that URL, and
    whether a cache takes it (a GET request for an http or https URL). *)
Record Request := {
  req_url : list N;
  req_hostname : list N;
  req_pathname : list N;
  req_cacheable : bool
}.

(** A response: its status, whether it has a header [Vary: *], its
    body. *)
Record Response := {
  resp_status : Z;
  resp_varyStar : bool;
  resp_body : list N
}.

(** [response.ok] *)
Definition resp_ok (r : Response) : bool := (200 <=? resp_status r) && (resp_status r <=? 299).

(** A response that [put] and [addAll] refuse whatever the request. *)
Definition resp_refused (r : Response) : bool := (resp_status r =? 206) || resp_varyStar r.

(** [s.includes(needle)] *)
Fixpoint includes (needle s : list N) : bool :=
  startsWith needle s ||
  match s with
  | [] => false
  | _ :: s' => includes needle s'
  end.

(** The cache storage: the caches by name, in the order of their
    creation, each a map from URLs to responses.

    [caches.open(name)]: the cache of that name, made if it is not
    there. *)
Definition cachesOpen (name : list N) (caches : list (list N * gmap (list N) Response))
    : list (list N * gmap (list N) Response) :=
  if decide (name ∈ caches.*1) then caches else caches ++ [(name, ∅)].

(** [cache.put(request, response)] on the cache [name], for a request and
    a response that the cache takes. *)
Definition cachePut (name : list N) (req : Request) (resp : Response)
    (caches : list (list N * gmap (list N) Response))
    : list (list N * gmap (list N) Response) :=
  (fun c : list N * gmap (list N) Response =>
     if decide (c.1 = name) then (c.1, <[req_url req := resp]> c.2) else c) <$> caches.

(** [caches.delete(name)] *)
Definition cachesDelete (name : list N) (caches : list (list N * gmap (list N) Response))
    : list (list N * gmap (list N) Response) :=
  filter (fun c => c.1 <> name) caches.

(** [cache.match(request)]: the response stored under the URL of the
    request.  Requests of one URL are taken to carry the same headers, so
    that a [Vary] header other than [*] never tells them apart. *)
Definition cacheMatch (cache : gmap (list N) Response) (req : Request) : option Response :=
  if req_cacheable req then cache !! req_url req else None.

(** [caches.match(request)]: the first cache, in the order of creation,
    that has a response for the request. *)
Fixpoint cachesMatch (caches : list (list N * gmap (list N) Response)) (req : Request)
    : option Response :=
  match caches with
  | [] => None
  | c :: rest =>
    match cacheMatch c.2 req with
    | Some r => Some r
    | None => cachesMatch rest req
    end
  end.

(** What the fetch handler does with a request: nothing, which leaves the
    request to the browser, or [respondWith] a promise, which gives a
    response or fails. *)
Inductive Answer :=
| PassThrough
| RespondWith (r : option Response).

(** [STATIC_ASSETS] *)
Definition STATIC_ASSETS : list (list N) :=
  [ js "./"; js "./index.html"; js "./style.css"; js "./app.js"; js "./lifts.js";
    js "./firebase-config.js"; js "./manifest.json"; js "./icons/icon-192.png";
    js "./icons/icon-512.png" ].

(** The two values that [CACHE_NAME] has in the source. *)
Definition CACHE_NAME_v1 : list N := js "lift-tracker-v1".
Definition CACHE_NAME_v4 : list N := js "lift-tracker-v4".

(** The responses that [addAll] stores for a list of URLs: every URL is
    fetched, and one fetch that fails or gives a response that is not ok,
    or that a cache refuses, makes the whole call fail. *)
Fixpoint fetchAll (network : Request -> option Response) (assetRequest : list N -> Request)
    (urls : list (list N)) : option (list (Request * Response)) :=
  match urls with
  | [] => Some []
  | url :: urls' =>
    match network (assetRequest url) with
    | Some r =>
      if resp_ok r && negb (resp_refused r) && req_cacheable (assetRequest url) then
        match fetchAll network assetRequest urls' with
        | Some rest => Some ((assetRequest url, r) :: rest)
        | None => None
        end
      else None
    | None => None
    end
  end.

(** The [install] handler: the cache storage after it, and whether the
    promise given to [waitUntil] is fulfilled.  [assetRequest] is the
    request that the browser makes of a URL of [STATIC_ASSETS]. *)
Definition onInstall (CACHE_NAME : list N) (network : Request -> option Response)
    (assetRequest : list N -> Request)
    (caches : list (list N * gmap (list N) Response))
    : list (list N * gmap (list N) Response) * bool :=
  let caches1 := cachesOpen CACHE_NAME caches in
  match fetchAll network assetRequest STATIC_ASSETS with
  | Some pairs =>
    (fold_left (fun cs (p : Request * Response) => cachePut CACHE_NAME p.1 p.2 cs)
       pairs caches1, true)
  | None => (caches1, false)
  end.

(** The [activate] handler: every cache whose name is not [CACHE_NAME] is
    deleted. *)
Definition onActivate (CACHE_NAME : list N)
    (caches : list (list N * gmap (list N) Response))
    : list (list N * gmap (list N) Response) :=
  fold_left (fun cs k => cachesDelete k cs)
    (filter (fun k => k <> CACHE_NAME) caches.*1) caches.

(** The hosts whose requests the fetch handler leaves alone. *)
Definition bypassed (req : Request) : bool :=
  includes (js "googleapis.com") (req_hostname req)
  || includes (js "gstatic.com") (req_hostname req)
  || includes (js "firebaseio.com") (req_hostname req)
  || includes (js "google.com") (req_hostname req).

(** The [fetch] handler of the first version of the worker: the cache
    first, for every request. *)
Definition onFetch_v1 (network : Request -> option Response)
    (caches : list (list N * gmap (list N) Response)) (req : Request)
    : Answer * list (list N * gmap (list N) Response) :=
  if bypassed req then (PassThrough, caches)
  else
    (RespondWith (match cachesMatch caches req with
                  | Some cached => Some cached
                  | None => network req
                  end),
     caches).

(** The [fetch] handler of the later version: the cache first for the
    icons, the network first for the rest, with a copy of every response
    of the network put into the cache [CACHE_NAME], when it is one that
    the cache takes. *)
Definition onFetch (CACHE_NAME : list N) (network : Request -> option Response)
    (caches : list (list N * gmap (list N) Response)) (req : Request)
    : Answer * list (list N * gmap (list N) Response) :=
  if bypassed req then (PassThrough, caches)
  else if includes (js "/icons/") (req_pathname req) then
    (RespondWith (match cachesMatch caches req with
                  | Some cached => Some cached
                  | None => network req
                  end),
     caches)
  else
    match network req with
    | Some response =>
      (RespondWith (Some response),
       let caches1 := cachesOpen CACHE_NAME caches in
       if req_cacheable req && negb (resp_refused response)
       then cachePut CACHE_NAME req response caches1
       else caches1)
    | None => (RespondWith (cachesMatch caches req), caches)
    end.

(** Example data: the request a browser makes of a URL given relative to
    a worker at [https://lifts.example/], and a network that answers every
    request with the same page. *)
Definition exampleRequest (url : list N) : Request :=
  {| req_url := js "https://lifts.example/" ++ drop 2 url;
     req_hostname := js "lifts.example";
     req_pathname := js "/" ++ drop 2 url;
     req_cacheable := true |}.

Definition examplePage : Response :=
  {| resp_status := 200; resp_varyStar := false; resp_body := js "page" |}.

(** * Theorems *)

Local Close Scope Z_scope.
Local Open Scope N_scope.

(** ** The matcher at work *)

Example parseRx_side :
  parseRx (Some (js "2-3 x 10-15/side")) = Some {| maxSets := Int 3; maxReps := Int 15 |}.
Proof. vm_compute. reflexivity. Qed.

Example parseRx_empty : parseRx (Some []) = None /\ parseRx None = None.
Proof. split; reflexivity. Qed.

(** Every prescription of the catalogue parses, to the high end of each
    of its ranges. *)
Example parseRx_catalogue :
  (fun rx => parseRx (Some rx)) <$> catalogueRxs SESSIONS_lifts_js =
  (fun p => Some {| maxSets := Int p.1; maxReps := Int p.2 |}) <$>
  [ (6, 3); (4, 6); (3, 10); (4, 12); (3, 15); (4, 12); (4, 15); (4, 15);
    (3, 5); (3, 15); (5, 8); (4, 12); (3, 15); (3, 15); (3, 15); (3, 15);
    (4, 10); (3, 15); (3, 15); (3, 20); (3, 15); (3, 15); (3, 8) ]%Z.
Proof. vm_compute. reflexivity. Qed.

(** ** Runs of one character class *)

Lemma dropWhile_takeWhile p s : takeWhile p s ++ dropWhile p s = s.
Proof. induction s as [|a s IH]; simpl; [done|]. destruct (p a); simpl; [by rewrite IH|done]. Qed.

Lemma repeat_char_fail {R} (p : N -> bool) (k : list N -> list (option (list N)) -> option R) :
  (forall a s c, p a = true -> k (a :: s) c = None) ->
  forall n s c, (length s <= n)%nat ->
  repeatMatcher (matcher (Char p)) k n s c = k (dropWhile p s) c.
Proof.
  intros Hk n. induction n as [|n IH]; intros s c Hn.
  - destruct s; [reflexivity|simpl in Hn; lia].
  - simpl. destruct s as [|a s]; [reflexivity|]. simpl.
    destruct (p a) eqn:Hp; [|reflexivity].
    assert (Hlt : (length s <? length (a :: s))%nat = true) by (apply Nat.ltb_lt; simpl; lia).
    simpl in Hlt. rewrite Hlt. rewrite IH by (simpl in Hn; lia).
    destruct (k (dropWhile p s) c) eqn:E; [done|]. by rewrite Hk.
Qed.

Lemma repeat_char_first {R} (p : N -> bool) (k : list N -> list (option (list N)) -> option R) :
  forall n s c x, (length s <= n)%nat ->
  k (dropWhile p s) c = Some x ->
  repeatMatcher (matcher (Char p)) k n s c = Some x.
Proof.
  intros n. induction n as [|n IH]; intros s c x Hn Hx.
  - destruct s; [exact Hx|simpl in Hn; lia].
  - simpl. destruct s as [|a s]; [exact Hx|]. simpl in Hx. simpl.
    destruct (p a) eqn:Hp; [|by rewrite Hx].
    assert (Hlt : (length s <? length (a :: s))%nat = true) by (apply Nat.ltb_lt; simpl; lia).
    simpl in Hlt. rewrite Hlt. rewrite (IH _ _ x); [done|simpl in Hn; lia|done].
Qed.

(** Character classes are pairwise disjoint. *)
Lemma isWhiteSpace_spec a :
  isWhiteSpace a = true <->
  (a = 9 \/ a = 10 \/ a = 11 \/ a = 12 \/ a = 13 \/ a = 32 \/ a = 160 \/ a = 5760
   \/ (8192 <= a /\ a <= 8202) \/ a = 8232 \/ a = 8233 \/ a = 8239 \/ a = 8287
   \/ a = 12288 \/ a = 65279).
Proof.
  unfold isWhiteSpace.
  rewrite !orb_true_iff, !andb_true_iff, !N.eqb_eq, !N.leb_le. tauto.
Qed.

Lemma isDigit_spec a : isDigit a = true <-> 48 <= a <= 57.
Proof. unfold isDigit. rewrite andb_true_iff, !N.leb_le. tauto. Qed.

Lemma ichar_dash_spec a : ichar 45 a = true <-> a = 45.
Proof.
  unfold ichar, canonicalize, isLower. simpl.
  destruct (N.leb_spec 97 a), (N.leb_spec a 122); simpl; rewrite N.eqb_eq; lia.
Qed.

Lemma isTimes_spec a : isTimes a = true <-> (a = 215 \/ a = 120 \/ a = 88).
Proof.
  unfold isTimes, ichar, canonicalize, isLower. simpl.
  destruct (N.leb_spec 97 a), (N.leb_spec a 122); simpl;
    rewrite orb_true_iff, !N.eqb_eq; lia.
Qed.

Ltac class_false :=
  apply not_true_is_false;
  rewrite ?isWhiteSpace_spec, ?isDigit_spec, ?ichar_dash_spec, ?isTimes_spec in *; lia.

Lemma ws_not_digit a : isWhiteSpace a = true -> isDigit a = false.
Proof. intros H. class_false. Qed.
Lemma ws_not_dash a : isWhiteSpace a = true -> ichar 45 a = false.
Proof. intros H. class_false. Qed.
Lemma ws_not_times a : isWhiteSpace a = true -> isTimes a = false.
Proof. intros H. class_false. Qed.
Lemma digit_not_ws a : isDigit a = true -> isWhiteSpace a = false.
Proof. intros H. class_false. Qed.
Lemma digit_not_dash a : isDigit a = true -> ichar 45 a = false.
Proof. intros H. class_false. Qed.
Lemma digit_not_times a : isDigit a = true -> isTimes a = false.
Proof. intros H. class_false. Qed.
Lemma dash_not_times a : ichar 45 a = true -> isTimes a = false.
Proof. intros H. class_false. Qed.
Lemma dash_not_ws a : ichar 45 a = true -> isWhiteSpace a = false.
Proof. intros H. class_false. Qed.
Lemma times_not_ws a : isTimes a = true -> isWhiteSpace a = false.
Proof. intros H. class_false. Qed.
Lemma times_not_digit a : isTimes a = true -> isDigit a = false.
Proof. intros H. class_false. Qed.

Lemma length_dropWhile p s : (length (dropWhile p s) <= length s)%nat.
Proof. induction s as [|a s IH]; simpl; [lia|]. destruct (p a); simpl; lia. Qed.

Lemma take_takeWhile p s : take (length s - length (dropWhile p s)) s = takeWhile p s.
Proof.
  induction s as [|a s IH]; simpl; [done|].
  destruct (p a) eqn:Hp; simpl.
  - pose proof (length_dropWhile p s).
    replace (S (length s) - length (dropWhile p s))%nat
      with (S (length s - length (dropWhile p s))) by lia.
    simpl. by rewrite IH.
  - by rewrite Nat.sub_diag.
Qed.

(** ** The backtracking matcher on the scheme pattern

    Each piece of the pattern, before a continuation that cannot use what
    the piece would give back, comes to one deterministic step. *)
Section Pieces.
Context {R : Type}.
Implicit Types k : list N -> list (option (list N)) -> option R.

Lemma matcher_Seq r1 r2 s c k :
  matcher (Seq r1 r2) s c k = matcher r1 s c (fun s' c' => matcher r2 s' c' k).
Proof. reflexivity. Qed.

Lemma matcher_Char_cons p a s c k :
  matcher (Char p) (a :: s) c k = if p a then k s c else None.
Proof. reflexivity. Qed.

Lemma matcher_Star r s c k :
  matcher (Star r) s c k = repeatMatcher (matcher r) k (length s) s c.
Proof. reflexivity. Qed.

Lemma matcher_Group i r s c k :
  matcher (Group i r) s c k =
  matcher r s c (fun s' c' => k s' (<[i := Some (take (length s - length s') s)]> c')).
Proof. reflexivity. Qed.

Lemma matcher_Opt r s c k :
  matcher (Opt r) s c k =
  match matcher r s c k with Some x => Some x | None => k s c end.
Proof. reflexivity. Qed.

Lemma spaces_skip k s c :
  (forall a s c, isWhiteSpace a = true -> k (a :: s) c = None) ->
  matcher spaces s c k = k (dropWhile isWhiteSpace s) c.
Proof. intros Hk. unfold spaces. rewrite matcher_Star. by apply repeat_char_fail. Qed.

Lemma number_fail i k s c :
  (forall a s c, isDigit a = true -> k (a :: s) c = None) ->
  matcher (number i) s c k = numberRun i k s c.
Proof.
  intros Hk. unfold number, Plus, numberRun.
  rewrite matcher_Group, matcher_Seq.
  destruct s as [|a s]; [done|].
  rewrite matcher_Char_cons.
  pose proof (take_takeWhile isDigit (a :: s)) as Ht.
  cbn [takeWhile dropWhile] in *.
  destruct (isDigit a) eqn:Hd; [|done].
  rewrite matcher_Star, repeat_char_fail; [|intros; by apply Hk|done].
  by rewrite Ht.
Qed.

Lemma number_total i k s c :
  (forall s c, is_Some (k s c)) ->
  matcher (number i) s c k = numberRun i k s c.
Proof.
  intros Hk. unfold number, Plus, numberRun.
  rewrite matcher_Group, matcher_Seq.
  destruct s as [|a s]; [done|].
  rewrite matcher_Char_cons.
  pose proof (take_takeWhile isDigit (a :: s)) as Ht.
  cbn [takeWhile dropWhile] in *.
  destruct (isDigit a) eqn:Hd; [|done].
  destruct (Hk (dropWhile isDigit s) (<[i:=Some (a :: takeWhile isDigit s)]> c)) as [x Hx].
  rewrite Hx, matcher_Star. apply repeat_char_first; [done|]. by rewrite Ht.
Qed.

Lemma number_ws i k a s c :
  isWhiteSpace a = true -> matcher (number i) (a :: s) c k = None.
Proof.
  intros H. unfold number, Plus.
  by rewrite matcher_Group, matcher_Seq, matcher_Char_cons, ws_not_digit.
Qed.

(** The optional range, for a continuation that the digits lemma covers. *)
Lemma range_scan i k s c :
  (forall s c, matcher (number i) s c k = numberRun i k s c) ->
  matcher (rangeEnd i) s c k =
  match scanRange s with
  | Some (D, s3) =>
    match k s3 (<[i := Some D]> c) with
    | Some x => Some x
    | None => k s c
    end
  | None => k s c
  end.
Proof.
  intros Hn. unfold rangeEnd. rewrite matcher_Opt, matcher_Seq.
  rewrite spaces_skip;
    [|intros a s' c' Ha; by rewrite matcher_Seq, matcher_Char_cons, ws_not_dash].
  unfold scanRange. destruct (dropWhile isWhiteSpace s) as [|c0 s1]; [done|].
  rewrite matcher_Seq, matcher_Char_cons.
  destruct (ichar 45 c0); [|done].
  rewrite matcher_Seq, spaces_skip; [|intros; by apply number_ws].
  rewrite Hn. unfold numberRun.
  destruct (takeWhile isDigit (dropWhile isWhiteSpace s1)); done.
Qed.
End Pieces.

Lemma scanReps_digit a s : isDigit a = true -> scanReps (a :: s) = None.
Proof.
  intros H. unfold scanReps, scanTimes. simpl.
  by rewrite digit_not_ws, digit_not_times.
Qed.

Lemma scanRange_digit a s : isDigit a = true -> scanRange (a :: s) = None.
Proof.
  intros H. unfold scanRange. simpl. by rewrite digit_not_ws, digit_not_dash.
Qed.

Lemma scanRange_not_reps s r : scanRange s = Some r -> scanReps s = None.
Proof.
  unfold scanRange, scanReps, scanTimes.
  destruct (dropWhile isWhiteSpace s) as [|c s1]; [done|].
  destruct (ichar 45 c) eqn:Hc; [|done]. by rewrite dash_not_times.
Qed.

Section Scheme.
Context {R : Type}.
Implicit Types k : list N -> list (option (list N)) -> option R.

Lemma reps_scan k s c :
  (forall s c, is_Some (k s c)) ->
  matcher repsRe s c k =
  match scanReps s with
  | Some (C, D, rest) => k rest (setRange 4 D (<[3%nat := Some C]> c))
  | None => None
  end.
Proof.
  intros Hk. unfold repsRe. rewrite matcher_Seq.
  rewrite spaces_skip;
    [|intros a s' c' Ha; by rewrite matcher_Seq, matcher_Char_cons, ws_not_times].
  unfold scanReps, scanTimes.
  destruct (dropWhile isWhiteSpace s) as [|c0 s1]; [done|].
  rewrite matcher_Seq, matcher_Char_cons.
  destruct (isTimes c0); [|done].
  rewrite matcher_Seq, spaces_skip; [|intros; by apply number_ws].
  rewrite matcher_Seq, number_total.
  2:{ intros s' c'. unfold rangeEnd. rewrite matcher_Opt.
      destruct (matcher _ s' c' k); [by eexists|apply Hk]. }
  unfold numberRun.
  destruct (takeWhile isDigit (dropWhile isWhiteSpace s1)) as [|d0 C]; [done|].
  rewrite range_scan; [|intros; by apply number_total].
  destruct (scanRange _) as [[D s3]|]; [|done]. simpl.
  destruct (Hk s3 (<[4%nat:=Some D]> (<[3%nat:=Some (d0 :: C)]> c))) as [x ->]. done.
Qed.

Lemma reps_digit k a s c :
  (forall s c, is_Some (k s c)) ->
  isDigit a = true -> matcher repsRe (a :: s) c k = None.
Proof. intros Hk H. by rewrite reps_scan, scanReps_digit. Qed.
End Scheme.

Lemma matchAt_scheme s :
  matchAt 4 schemeRe s =
  match scanScheme s with
  | Some (A, B, C, D, rest) => Some (schemeGroups s A B C D rest, rest)
  | None => None
  end.
Proof.
  unfold matchAt, schemeRe. fold repsRe.
  set (KF := fun (s' : list N) (c : list (option (list N))) =>
               Some (<[0%nat:=Some (take (length s - length s') s)]> c, s')).
  assert (HKF : forall s c, is_Some (KF s c)) by (intros; by eexists).
  rewrite matcher_Seq, number_fail.
  2:{ intros a t c Ha. rewrite matcher_Seq, range_scan.
      - rewrite scanRange_digit by done. by apply reps_digit.
      - intros. apply number_fail. intros. by apply reps_digit. }
  unfold numberRun, scanScheme.
  destruct (takeWhile isDigit s) as [|a0 A]; [done|].
  rewrite matcher_Seq, range_scan.
  2:{ intros. apply number_fail. intros. by apply reps_digit. }
  destruct (scanRange (dropWhile isDigit s)) as [[B s2]|] eqn:HB.
  - rewrite !reps_scan by done.
    rewrite (scanRange_not_reps _ _ HB).
    destruct (scanReps s2) as [[[C D] rest]|]; [|done].
    destruct D; reflexivity.
  - rewrite reps_scan by done.
    destruct (scanReps _) as [[[C D] rest]|]; [|done].
    destruct D; reflexivity.
Qed.

(** ** [exec] and [replace] on the two patterns *)

Lemma execFrom_scheme s i :
  targetOfMatch <$> execFrom 4 schemeRe i s = targetOfScan <$> findScheme s.
Proof.
  revert i. induction s as [|a s IH]; intros i; cbn [execFrom findScheme]; rewrite matchAt_scheme.
  - destruct (scanScheme []) as [[[[[A B] C] D] rest]|]; reflexivity.
  - destruct (scanScheme (a :: s)) as [[[[[A B] C] D] rest]|]; [reflexivity|apply IH].
Qed.

Lemma matchAt_side s :
  snd <$> matchAt 0 sideRe s = if isSide s then Some (drop 5 s) else None.
Proof.
  unfold matchAt, sideRe, isSide.
  destruct s as [|c0 [|c1 [|c2 [|c3 [|c4 s]]]]]; simpl;
    repeat match goal with |- context [ichar ?p ?c] => destruct (ichar p c) end;
    reflexivity.
Qed.

Lemma execFrom_side s pre :
  match execFrom 0 sideRe (length pre) s with
  | Some m => take (index m) (pre ++ s) ++ after m
  | None => pre ++ s
  end = pre ++ stripSide s.
Proof.
  revert pre. induction s as [|a s IH]; intros pre.
  - simpl. done.
  - cbn [execFrom stripSide]. pose proof (matchAt_side (a :: s)) as Hm.
    destruct (isSide (a :: s)) eqn:HS;
      destruct (matchAt 0 sideRe (a :: s)) as [[c rest]|]; simplify_eq/=.
    + by rewrite take_app_length.
    + specialize (IH (pre ++ [a])). rewrite length_app in IH. simpl in IH.
      rewrite Nat.add_1_r in IH. rewrite <- !app_assoc in IH. exact IH.
Qed.

Lemma replace_side s : replaceEmpty 0 sideRe s = stripSide s.
Proof. unfold replaceEmpty, exec. apply (execFrom_side s []). Qed.

Lemma parseRx_text rx :
  rx <> [] -> parseRx (Some rx) = lastScheme rx ≫= parseText.
Proof.
  intros Hne. unfold parseRx, schemeText, lastPart, substring, lastScheme, parseText.
  destruct rx as [|a rx]; [done|].
  destruct (startsWith _ _).
  - destruct (last _) as [l|]; [|done]. simpl. rewrite replace_side.
    pose proof (execFrom_scheme (stripSide (trim l)) 0) as H. unfold exec.
    destruct (execFrom _ _ _ _); simpl in H; rewrite <- H; done.
  - simpl. rewrite replace_side.
    pose proof (execFrom_scheme (stripSide (a :: rx)) 0) as H. unfold exec.
    destruct (execFrom _ _ _ _); simpl in H; rewrite <- H; done.
Qed.

(** ** The scan of a scheme-shaped text *)

Lemma takeWhile_app p A rest :
  allOf p A -> takeWhile p (A ++ rest) = A ++ takeWhile p rest.
Proof.
  induction 1 as [|a A Ha _ IH]; simpl; [done|]. by rewrite Ha, IH.
Qed.

Lemma dropWhile_app p A rest :
  allOf p A -> dropWhile p (A ++ rest) = dropWhile p rest.
Proof. induction 1 as [|a A Ha _ IH]; simpl; [done|]. by rewrite Ha. Qed.

Lemma takeWhile_headNot p s : headNot p s -> takeWhile p s = [].
Proof. destruct s; simpl; [done|]. by intros ->. Qed.

Lemma dropWhile_headNot p s : headNot p s -> dropWhile p s = s.
Proof. destruct s; simpl; [done|]. by intros ->. Qed.

Lemma takeWhile_run p A rest :
  allOf p A -> headNot p rest -> takeWhile p (A ++ rest) = A.
Proof.
  intros HA Hr. by rewrite takeWhile_app, takeWhile_headNot, app_nil_r.
Qed.

Lemma dropWhile_run p A rest :
  allOf p A -> headNot p rest -> dropWhile p (A ++ rest) = rest.
Proof. intros HA Hr. by rewrite dropWhile_app, dropWhile_headNot. Qed.

Lemma headNot_app p (q : N -> bool) A rest :
  (forall a, q a = true -> p a = false) ->
  allOf q A -> headNot p rest -> headNot p (A ++ rest).
Proof. intros Hpq HA Hr. destruct HA as [|a A Ha _]; simpl; [done|by apply Hpq]. Qed.

Lemma headNot_numeral p A rest :
  (forall a, isDigit a = true -> p a = false) ->
  numeral A -> headNot p (A ++ rest).
Proof. intros Hp [Hne HA]. destruct HA as [|a A Ha _]; [done|]. simpl. by apply Hp. Qed.

Lemma numeral_cons A : numeral A -> exists a A', A = a :: A' /\ isDigit a = true.
Proof. intros [Hne HA]. destruct HA as [|a A Ha _]; [done|]. eauto. Qed.

Lemma headNot_rangeText p r rest :
  (forall a, isWhiteSpace a = true -> p a = false) -> p 45 = false ->
  rangeOk r -> headNot p rest -> headNot p (rangeText r ++ rest).
Proof.
  intros Hw Hd Hr Hrest. destruct r as [[[w1 w2] B]|]; [|done].
  destruct Hr as (H1 & _ & _). simpl. rewrite <- app_assoc.
  by apply (headNot_app p isWhiteSpace).
Qed.

Lemma scanRange_rangeText w1 w2 B rest :
  blank w1 -> blank w2 -> numeral B -> headNot isDigit rest ->
  scanRange ((w1 ++ 45 :: w2 ++ B) ++ rest) = Some (B, rest).
Proof.
  intros H1 H2 HB Hr. unfold scanRange.
  rewrite <- app_assoc. simpl. rewrite dropWhile_run; [|done|done].
  replace (ichar 45 45) with true by reflexivity.
  rewrite <- app_assoc.
  rewrite dropWhile_run; [|done|apply headNot_numeral; [apply digit_not_ws|done]].
  destruct HB as [Hne HB].
  rewrite takeWhile_run, dropWhile_run by done.
  destruct B; done.
Qed.

Lemma scanRange_times w x rest :
  blank w -> isTimes x = true -> scanRange (w ++ x :: rest) = None.
Proof.
  intros Hw Hx. unfold scanRange.
  rewrite dropWhile_run; [|done|by apply times_not_ws].
  destruct (ichar 45 x) eqn:E; [|done].
  apply dash_not_times in E. congruence.
Qed.

Lemma scanTimes_times w x w' rest :
  blank w -> isTimes x = true -> blank w' -> headNot isWhiteSpace rest ->
  scanTimes (w ++ x :: w' ++ rest) = Some rest.
Proof.
  intros Hw Hx Hw' Hr. unfold scanTimes.
  rewrite dropWhile_run; [|done|by apply times_not_ws].
  by rewrite Hx, dropWhile_run.
Qed.

Lemma scanScheme_sets A rs w x T :
  numeral A -> rangeOk rs -> blank w -> isTimes x = true ->
  scanScheme (A ++ rangeText rs ++ w ++ x :: T) =
  match scanReps (w ++ x :: T) with
  | Some (C, D, rest) => Some (A, upperOpt rs, C, D, rest)
  | None => None
  end.
Proof.
  intros HA Hrs Hw Hx. unfold scanScheme.
  assert (Hh : headNot isDigit (w ++ x :: T)).
  { apply (headNot_app _ isWhiteSpace); [apply ws_not_digit|done|].
    by apply times_not_digit. }
  destruct HA as [Hne HA].
  rewrite takeWhile_run, dropWhile_run;
    [|done|by apply headNot_rangeText; auto using ws_not_digit
     |done|by apply headNot_rangeText; auto using ws_not_digit].
  destruct A as [|a A]; [done|].
  destruct rs as [[[w1 w2] B]|]; simpl rangeText.
  - destruct Hrs as (H1 & H2 & HB).
    rewrite scanRange_rangeText by done.
    destruct (scanReps _) as [[[C D] rest]|]; done.
  - simpl. rewrite scanRange_times by done.
    destruct (scanReps _) as [[[C D] rest]|]; done.
Qed.


Lemma scanReps_exact w x w' C rr :
  blank w -> isTimes x = true -> blank w' -> numeral C -> rangeOk rr ->
  scanReps (w ++ x :: w' ++ C ++ rangeText rr) = Some (C, upperOpt rr, []).
Proof.
  intros Hw Hx Hw' HC Hrr. unfold scanReps.
  rewrite scanTimes_times; [|done|done|done|apply headNot_numeral; [apply digit_not_ws|done]].
  assert (Hh : headNot isDigit (rangeText rr)).
  { rewrite <- (app_nil_r (rangeText rr)).
    by apply headNot_rangeText; auto using ws_not_digit. }
  destruct HC as [Hne HC]. rewrite takeWhile_run, dropWhile_run by done.
  destruct C as [|c C]; [done|].
  destruct rr as [[[w3 w4] D]|]; simpl rangeText.
  - destruct Hrr as (H3 & H4 & HD).
    rewrite <- (app_nil_r (w3 ++ _)). by rewrite scanRange_rangeText.
  - done.
Qed.

Lemma scanScheme_exact A rs w x w' C rr :
  numeral A -> rangeOk rs -> blank w -> isTimes x = true -> blank w' ->
  numeral C -> rangeOk rr ->
  scanScheme (schemeString A rs w x w' C rr) = Some (A, upperOpt rs, C, upperOpt rr, []).
Proof.
  intros. unfold schemeString.
  by rewrite scanScheme_sets, scanReps_exact.
Qed.


(** ** [parseInt] on numerals *)

Lemma isRadixDigit_digit a : isDigit a = true -> isRadixDigit 10 a = true.
Proof.
  intros H. unfold isRadixDigit, digitValue. rewrite H.
  apply isDigit_spec in H. apply N.ltb_lt. lia.
Qed.

Lemma takeWhile_all p A : allOf p A -> takeWhile p A = A.
Proof. intros H. rewrite <- (app_nil_r A) at 1. by rewrite takeWhile_run. Qed.

Lemma allOf_impl (p q : N -> bool) A :
  (forall a, p a = true -> q a = true) -> allOf p A -> allOf q A.
Proof. intros Hpq H. eapply Forall_impl; [exact H|exact Hpq]. Qed.

Lemma doubleOfInteger_safe z : (Z.abs z < 2 ^ 53)%Z -> doubleOfInteger z = Int z.
Proof. intros H. unfold doubleOfInteger. by rewrite (proj2 (Z.ltb_lt _ _) H). Qed.

Lemma parseInt_numeral A : numeral A -> parseInt A = doubleOfInteger (decimalValue A).
Proof.
  intros HA. destruct (numeral_cons A HA) as (a & A' & -> & Ha).
  destruct HA as [_ HA]. unfold parseInt, trimStart.
  rewrite dropWhile_headNot by (simpl; by apply digit_not_ws).
  pose proof Ha as Ha'. apply isDigit_spec in Ha'.
  replace (a =? 45) with false by (symmetry; apply N.eqb_neq; lia).
  replace (a =? 43) with false by (symmetry; apply N.eqb_neq; lia).
  assert (Hr : (match a :: A' with
                | z :: x :: t =>
                  if (z =? 48) && ((x =? 120) || (x =? 88)) then (16, t) else (10, a :: A')
                | _ => (10, a :: A')
                end) = (10, a :: A')).
  { destruct A' as [|x t]; [done|].
    apply Forall_cons in HA as [_ HA]. apply Forall_cons in HA as [Hx _].
    apply isDigit_spec in Hx.
    replace (x =? 120) with false by (symmetry; apply N.eqb_neq; lia).
    replace (x =? 88) with false by (symmetry; apply N.eqb_neq; lia).
    by rewrite andb_false_r. }
  rewrite Hr.
  rewrite takeWhile_all by (eapply allOf_impl; [apply isRadixDigit_digit|done]).
  reflexivity.
Qed.

Lemma decimalValue_nonneg A : (0 <= decimalValue A)%Z.
Proof. unfold decimalValue. lia. Qed.

Lemma doubleOfInteger_numeral A :
  safeNumeral A -> doubleOfInteger (decimalValue A) = Int (decimalValue A).
Proof.
  intros H. apply doubleOfInteger_safe. pose proof (decimalValue_nonneg A).
  unfold safeNumeral in H. lia.
Qed.

Lemma targetOf_upper A rs C rr :
  numeral A -> rangeOk rs -> numeral C -> rangeOk rr ->
  targetOf A (upperOpt rs) C (upperOpt rr) =
  {| maxSets := doubleOfInteger (decimalValue (upper A rs));
     maxReps := doubleOfInteger (decimalValue (upper C rr)) |}.
Proof.
  intros HA Hrs HC Hrr. unfold targetOf. f_equal.
  - destruct rs as [[[w1 w2] B]|]; simpl.
    + destruct Hrs as (_ & _ & HB). destruct (numeral_cons B HB) as (b & B' & -> & _).
      simpl. by apply parseInt_numeral.
    + by apply parseInt_numeral.
  - destruct rr as [[[w1 w2] B]|]; simpl.
    + destruct Hrr as (_ & _ & HB). destruct (numeral_cons B HB) as (b & B' & -> & _).
      simpl. by apply parseInt_numeral.
    + by apply parseInt_numeral.
Qed.

(** A text without a slash holds no [/side]. *)
Lemma ichar_slash_spec a : ichar 47 a = true <-> a = 47.
Proof.
  unfold ichar, canonicalize, isLower. simpl.
  destruct (N.leb_spec 97 a), (N.leb_spec a 122); simpl; rewrite N.eqb_eq; lia.
Qed.

Lemma isSide_noSlash s : noSlash s -> isSide s = false.
Proof.
  intros H. unfold isSide.
  destruct s as [|c0 [|c1 [|c2 [|c3 [|c4 s]]]]]; try done.
  apply Forall_cons in H as [H0 _].
  destruct (ichar 47 c0) eqn:E; [|done]. by apply ichar_slash_spec in E.
Qed.

Lemma stripSide_noSlash s : noSlash s -> stripSide s = s.
Proof.
  induction 1 as [|c s Hc Hs IH]; [done|].
  cbn [stripSide]. rewrite isSide_noSlash by by constructor.
  by rewrite IH.
Qed.

Lemma noSlash_allOf (p : N -> bool) s :
  p 47 = false -> allOf p s -> noSlash s.
Proof. intros Hp H. eapply Forall_impl; [exact H|]. intros c Hc ->. simpl in Hc. congruence. Qed.

Ltac no_slash :=
  first [ apply (noSlash_allOf isWhiteSpace); [reflexivity|assumption]
        | apply (noSlash_allOf isDigit); [reflexivity|assumption] ].

Lemma noSlash_rangeText r : rangeOk r -> noSlash (rangeText r).
Proof.
  destruct r as [[[w1 w2] B]|]; [|constructor].
  intros (H1 & H2 & _ & HB). simpl.
  apply Forall_app. split; [no_slash|].
  constructor; [done|]. apply Forall_app. split; no_slash.
Qed.

Lemma noSlash_schemeString A rs w x w' C rr :
  numeral A -> rangeOk rs -> blank w -> isTimes x = true -> blank w' ->
  numeral C -> rangeOk rr ->
  noSlash (schemeString A rs w x w' C rr).
Proof.
  intros [_ HA] Hrs Hw Hx Hw' [_ HC] Hrr. unfold schemeString.
  pose proof (noSlash_rangeText rs Hrs). pose proof (noSlash_rangeText rr Hrr).
  repeat (apply Forall_app; split); try no_slash; try assumption.
  constructor.
  - apply isTimes_spec in Hx. lia.
  - repeat (apply Forall_app; split); try no_slash; assumption.
Qed.

Lemma js_alt : js "alt:" = [97; 108; 116; 58].
Proof. reflexivity. Qed.

Lemma lastScheme_digit a s : isDigit a = true -> lastScheme (a :: s) = Some (a :: s).
Proof.
  intros Ha. unfold lastScheme. rewrite js_alt. cbn [toLowerCase map startsWith].
  apply isDigit_spec in Ha.
  destruct (isUpper a) eqn:E.
  - unfold isUpper in E. apply andb_true_iff in E as [E _]. apply N.leb_le in E. lia.
  - replace (a =? 97) with false by (symmetry; apply N.eqb_neq; lia). done.
Qed.

(** The parse of a scheme-shaped string: the upper bounds. *)
Lemma parseRx_schemeString A rs w x w' C rr :
  numeral A -> rangeOk rs -> blank w -> isTimes x = true -> blank w' ->
  numeral C -> rangeOk rr ->
  parseRx (Some (schemeString A rs w x w' C rr)) =
  Some {| maxSets := doubleOfInteger (decimalValue (upper A rs));
          maxReps := doubleOfInteger (decimalValue (upper C rr)) |}.
Proof.
  intros HA Hrs Hw Hx Hw' HC Hrr.
  pose proof (scanScheme_exact A rs w x w' C rr HA Hrs Hw Hx Hw' HC Hrr) as Hscan.
  pose proof (noSlash_schemeString A rs w x w' C rr HA Hrs Hw Hx Hw' HC Hrr) as Hns.
  destruct (numeral_cons A HA) as (a & A' & HeqA & Ha).
  remember (schemeString A rs w x w' C rr) as u eqn:Hu.
  assert (Hcons : exists t, u = a :: t).
  { rewrite Hu, HeqA. unfold schemeString. simpl. eauto. }
  destruct Hcons as [t Ht].
  rewrite parseRx_text by (rewrite Ht; done).
  rewrite Ht at 1. rewrite lastScheme_digit by done. rewrite <- Ht. simpl.
  unfold parseText. rewrite stripSide_noSlash by done.
  rewrite Ht in Hscan |- *. cbn [findScheme]. rewrite Hscan. simpl.
  by rewrite targetOf_upper.
Qed.

(** ** What a successful scan says about the text *)

Lemma allOf_takeWhile p s : allOf p (takeWhile p s).
Proof.
  induction s as [|a s IH]; simpl; [constructor|].
  destruct (p a) eqn:E; by constructor.
Qed.

Ltac norm_app :=
  repeat (progress (rewrite <- ?app_assoc in *; cbn [app rangeText] in *)).

Lemma span_inv p s :
  exists w, takeWhile p s = w /\ s = w ++ dropWhile p s /\ allOf p w.
Proof.
  exists (takeWhile p s). split_and!; [done| |apply allOf_takeWhile].
  by rewrite dropWhile_takeWhile.
Qed.

Lemma scanRange_inv s B s2 :
  scanRange s = Some (B, s2) ->
  exists w1 w2, s = (w1 ++ 45 :: w2 ++ B) ++ s2 /\ blank w1 /\ blank w2 /\ numeral B.
Proof.
  unfold scanRange. intros H.
  destruct (span_inv isWhiteSpace s) as (w1 & _ & Hs & Hw1).
  destruct (dropWhile isWhiteSpace s) as [|c s1]; [done|].
  destruct (ichar 45 c) eqn:Hc; [|done]. apply ichar_dash_spec in Hc as ->.
  destruct (span_inv isWhiteSpace s1) as (w2 & _ & Hs1 & Hw2).
  destruct (span_inv isDigit (dropWhile isWhiteSpace s1)) as (B' & HB & Hs2 & HB').
  rewrite HB in H. destruct B' as [|b B']; [done|]. injection H as <- <-.
  exists w1, w2. split_and!; try done.
  norm_app. by rewrite <- Hs2, <- Hs1.
Qed.

Lemma scanTimes_inv s s1 :
  scanTimes s = Some s1 ->
  exists w x w', s = w ++ x :: w' ++ s1 /\ blank w /\ isTimes x = true /\ blank w'.
Proof.
  unfold scanTimes. intros H.
  destruct (span_inv isWhiteSpace s) as (w & _ & Hs & Hw).
  destruct (dropWhile isWhiteSpace s) as [|c t]; [done|].
  destruct (isTimes c) eqn:Hc; [|done]. injection H as <-.
  destruct (span_inv isWhiteSpace t) as (w' & _ & Ht & Hw').
  exists w, c, w'. split_and!; try done. by rewrite <- Ht.
Qed.

Lemma scanReps_inv s C D rest :
  scanReps s = Some (C, D, rest) ->
  exists w x w' rr,
    s = w ++ x :: w' ++ C ++ rangeText rr ++ rest /\
    blank w /\ isTimes x = true /\ blank w' /\ numeral C /\ rangeOk rr /\
    D = upperOpt rr.
Proof.
  unfold scanReps. intros H.
  destruct (scanTimes s) as [s1|] eqn:Ht; [|done].
  apply scanTimes_inv in Ht as (w & x & w' & -> & Hw & Hx & Hw').
  destruct (span_inv isDigit s1) as (C' & HC & Hs1 & HC').
  rewrite HC in H. destruct C' as [|c C']; [done|].
  destruct (scanRange (dropWhile isDigit s1)) as [[D' s3]|] eqn:HD.
  - injection H as <- <- <-.
    apply scanRange_inv in HD as (w3 & w4 & HD & H3 & H4 & HD').
    exists w, x, w', (Some (w3, w4, D')). split_and!; try done.
    norm_app. by rewrite <- HD, <- Hs1.
  - injection H as <- <- <-.
    exists w, x, w', None. split_and!; try done.
    cbn [app rangeText] in *. by rewrite <- Hs1.
Qed.

Lemma scanScheme_inv s A B C D rest :
  scanScheme s = Some (A, B, C, D, rest) ->
  exists rs w x w' rr,
    s = schemeString A rs w x w' C rr ++ rest /\
    numeral A /\ rangeOk rs /\ blank w /\ isTimes x = true /\ blank w' /\
    numeral C /\ rangeOk rr /\ B = upperOpt rs /\ D = upperOpt rr.
Proof.
  unfold scanScheme. intros H.
  destruct (span_inv isDigit s) as (A' & HA & Hs & HA').
  rewrite HA in H. destruct A' as [|a A']; [done|].
  destruct (scanRange (dropWhile isDigit s)) as [[B' s2]|] eqn:HB.
  - destruct (scanReps s2) as [[[C' D'] rest']|] eqn:HR; [|done].
    injection H as <- <- <- <- <-.
    apply scanRange_inv in HB as (w1 & w2 & HB & H1 & H2 & HB').
    apply scanReps_inv in HR as (w & x & w' & rr & -> & Hw & Hx & Hw' & HC & Hrr & ->).
    exists (Some (w1, w2, B')), w, x, w', rr. split_and!; try done.
    unfold schemeString. norm_app. by rewrite <- HB, <- Hs.
  - destruct (scanReps _) as [[[C' D'] rest']|] eqn:HR; [|done].
    injection H as <- <- <- <- <-.
    apply scanReps_inv in HR as (w & x & w' & rr & HR & Hw & Hx & Hw' & HC & Hrr & ->).
    exists None, w, x, w', rr. split_and!; try done.
    unfold schemeString. norm_app. by rewrite <- HR, <- Hs.
Qed.

Lemma findScheme_eq s :
  findScheme s =
  match scanScheme s with
  | Some r => Some r
  | None => match s with [] => None | _ :: s' => findScheme s' end
  end.
Proof. destruct s; reflexivity. Qed.

Lemma findScheme_inv t r :
  findScheme t = Some r -> exists pre s, t = pre ++ s /\ scanScheme s = Some r.
Proof.
  induction t as [|a t IH]; rewrite findScheme_eq.
  - destruct (scanScheme []) eqn:E; [|done]. intros [= <-]. by exists [], [].
  - destruct (scanScheme (a :: t)) eqn:E.
    + intros [= <-]. by exists [], (a :: t).
    + intros H. destruct (IH H) as (pre & s & -> & Hs). by exists (a :: pre), s.
Qed.



Lemma doubleOfInteger_nonNegative z : (0 <= z)%Z -> nonNegative (doubleOfInteger z).
Proof.
  intros Hz. unfold doubleOfInteger.
  destruct (Z.ltb_spec (Z.abs z) (2 ^ 53)) as [|Hbig]; [done|].
  replace (z <? 0)%Z with false by (symmetry; apply Z.ltb_ge; lia).
  cbv zeta. destruct (2 ^ 1024 <=? _)%Z; [done|].
  cbn [nonNegative].
  set (e := (Z.log2 (Z.abs z) - 52)%Z).
  assert (0 < 2 ^ e)%Z.
  { apply Z.pow_pos_nonneg; [lia|]. subst e.
    pose proof (Z.log2_le_mono _ _ Hbig) as Hl.
    rewrite Z.log2_pow2 in Hl by lia. lia. }
  assert (0 <= Z.abs z / 2 ^ e)%Z by (apply Z.div_pos; lia).
  destruct (_ || _); nia.
Qed.

Lemma findScheme_numeric t r :
  findScheme t = Some r ->
  nonNegative (maxSets (targetOfScan r)) /\ nonNegative (maxReps (targetOfScan r)).
Proof.
  intros Hr. apply findScheme_inv in Hr as (pre & s & -> & Hs).
  destruct r as [[[[A B] C] D] rest].
  apply scanScheme_inv in Hs
    as (rs & w & x & w' & rr & -> & HA & Hrs & Hw & Hx & Hw' & HC & Hrr & -> & ->).
  change (targetOfScan (A, upperOpt rs, C, upperOpt rr, rest))
    with (targetOf A (upperOpt rs) C (upperOpt rr)).
  rewrite targetOf_upper by done. cbn [maxSets maxReps].
  split; apply doubleOfInteger_nonNegative, decimalValue_nonneg.
Qed.

Lemma split_cons sep s : exists p ps, split sep s = p :: ps.
Proof.
  induction s as [|c s (p & ps & IH)]; simpl; [by eauto|].
  destruct (c =? sep); [by eauto|]. rewrite IH. by eauto.
Qed.

Lemma last_split_some sep s : is_Some (last (split sep s)).
Proof.
  destruct (split_cons sep s) as (p & ps & ->).
  rewrite last_is_Some. done.
Qed.

Lemma lastScheme_some rx : is_Some (lastScheme rx).
Proof.
  unfold lastScheme. destruct (startsWith _ _); [|by eexists].
  destruct (last_split_some 44 (drop 4 rx)) as [l ->]. by eexists.
Qed.

Lemma schemeText_lastScheme rx : schemeText rx = stripSide <$> lastScheme rx.
Proof.
  unfold schemeText, lastScheme, lastPart, substring.
  destruct (startsWith _ _); simpl.
  - destruct (last _); simpl; by rewrite ?replace_side.
  - by rewrite replace_side.
Qed.

Lemma parseRx_schemeText rx :
  rx <> [] ->
  parseRx (Some rx) = schemeText rx ≫= (fun t => targetOfScan <$> findScheme t).
Proof.
  intros H. rewrite parseRx_text, schemeText_lastScheme by done.
  destruct (lastScheme rx); reflexivity.
Qed.

(** ** Text without digit after the scheme *)

Lemma noDigit_dropWhile p v : noDigit v -> noDigit (dropWhile p v).
Proof.
  induction 1 as [|c v Hc Hv IH]; simpl; [constructor|].
  destruct (p c); [done|by constructor].
Qed.

Lemma noDigit_headNot v : noDigit v -> headNot isDigit v.
Proof. by destruct 1. Qed.

Lemma takeWhile_digit_app a v :
  noDigit v -> takeWhile isDigit (a ++ v) = takeWhile isDigit a.
Proof.
  intros Hv. induction a as [|c a IH]; simpl.
  - by apply takeWhile_headNot, noDigit_headNot.
  - destruct (isDigit c); [by rewrite IH|done].
Qed.

Lemma dropWhile_digit_app a v :
  noDigit v -> dropWhile isDigit (a ++ v) = dropWhile isDigit a ++ v.
Proof.
  intros Hv. induction a as [|c a IH]; simpl.
  - by apply dropWhile_headNot, noDigit_headNot.
  - destruct (isDigit c); [by rewrite IH|done].
Qed.

Lemma dropWhile_app_cases p a v :
  dropWhile p (a ++ v) =
  match dropWhile p a with
  | [] => dropWhile p v
  | r => r ++ v
  end.
Proof.
  induction a as [|c a IH]; simpl.
  - by destruct (dropWhile p v).
  - destruct (p c); [done|done].
Qed.

Lemma scanRange_noDigit v : noDigit v -> scanRange v = None.
Proof.
  intros Hv. unfold scanRange.
  pose proof (noDigit_dropWhile isWhiteSpace v Hv) as H1.
  destruct (dropWhile isWhiteSpace v) as [|c s1]; [done|].
  destruct (ichar 45 c); [|done].
  apply Forall_cons in H1 as [_ H1].
  apply (noDigit_dropWhile isWhiteSpace) in H1.
  by rewrite takeWhile_headNot by by apply noDigit_headNot.
Qed.

Lemma scanRange_app a v :
  noDigit v ->
  scanRange (a ++ v) = (fun r => (r.1, r.2 ++ v)) <$> scanRange a.
Proof.
  intros Hv. unfold scanRange at 2.
  destruct (dropWhile isWhiteSpace a) as [|c s1] eqn:Ha.
  - unfold scanRange. rewrite dropWhile_app_cases, Ha.
    by apply scanRange_noDigit.
  - unfold scanRange. rewrite dropWhile_app_cases, Ha. simpl.
    destruct (ichar 45 c); [|done].
    rewrite dropWhile_app_cases.
    destruct (dropWhile isWhiteSpace s1) as [|d s2] eqn:Hs1.
    + simpl. by rewrite takeWhile_headNot
        by by apply noDigit_headNot, noDigit_dropWhile.
    + rewrite takeWhile_digit_app, dropWhile_digit_app by done.
      by destruct (takeWhile isDigit (d :: s2)).
Qed.

Lemma scanReps_noDigit v : noDigit v -> scanReps v = None.
Proof.
  intros Hv. unfold scanReps, scanTimes.
  pose proof (noDigit_dropWhile isWhiteSpace v Hv) as H1.
  destruct (dropWhile isWhiteSpace v) as [|c s1]; [done|].
  destruct (isTimes c); [|done].
  apply Forall_cons in H1 as [_ H1].
  apply (noDigit_dropWhile isWhiteSpace) in H1.
  by rewrite takeWhile_headNot by by apply noDigit_headNot.
Qed.

Lemma scanReps_app a v :
  noDigit v ->
  fst <$> scanReps (a ++ v) = fst <$> scanReps a.
Proof.
  intros Hv. unfold scanReps at 2. unfold scanTimes.
  destruct (dropWhile isWhiteSpace a) as [|c s1] eqn:Ha.
  - replace (scanReps (a ++ v)) with (scanReps (dropWhile isWhiteSpace v)).
    + by rewrite scanReps_noDigit by by apply noDigit_dropWhile.
    + unfold scanReps, scanTimes. rewrite dropWhile_app_cases, Ha.
      f_equal. clear. induction v as [|c v IH]; simpl; [done|].
      destruct (isWhiteSpace c) eqn:E; [done|]. simpl. by rewrite E.
  - unfold scanReps, scanTimes. rewrite dropWhile_app_cases, Ha. simpl.
    destruct (isTimes c); [|done].
    rewrite dropWhile_app_cases.
    destruct (dropWhile isWhiteSpace s1) as [|d s2] eqn:Hs1.
    + simpl. by rewrite takeWhile_headNot
        by by apply noDigit_headNot, noDigit_dropWhile.
    + rewrite takeWhile_digit_app, dropWhile_digit_app by done.
      destruct (takeWhile isDigit (d :: s2)) as [|c0 C]; [done|].
      rewrite scanRange_app by done.
      by destruct (scanRange _) as [[D s3]|].
Qed.

Lemma scanScheme_app a v :
  noDigit v ->
  fst <$> scanScheme (a ++ v) = fst <$> scanScheme a.
Proof.
  intros Hv. unfold scanScheme.
  rewrite takeWhile_digit_app, dropWhile_digit_app by done.
  destruct (takeWhile isDigit a) as [|c0 A]; [done|].
  rewrite scanRange_app by done.
  destruct (scanRange (dropWhile isDigit a)) as [[B s2]|]; simpl.
  - pose proof (scanReps_app s2 v Hv) as H.
    destruct (scanReps (s2 ++ v)) as [[[C D] r]|], (scanReps s2) as [[[C' D'] r']|];
      simplify_eq/=; done.
  - pose proof (scanReps_app (dropWhile isDigit a) v Hv) as H.
    destruct (scanReps (_ ++ v)) as [[[C D] r]|], (scanReps _) as [[[C' D'] r']|];
      simplify_eq/=; done.
Qed.

Lemma scanScheme_noDigit v : noDigit v -> scanScheme v = None.
Proof.
  intros Hv. unfold scanScheme.
  by rewrite takeWhile_headNot by by apply noDigit_headNot.
Qed.

Lemma findScheme_noDigit v : noDigit v -> findScheme v = None.
Proof.
  induction 1 as [|c v Hc Hv IH]; [done|].
  rewrite findScheme_eq, scanScheme_noDigit by by constructor. done.
Qed.

Lemma findScheme_app t v :
  noDigit v -> fst <$> findScheme (t ++ v) = fst <$> findScheme t.
Proof.
  intros Hv. induction t as [|a t IH].
  - simpl. by rewrite findScheme_noDigit.
  - rewrite (findScheme_eq (a :: t)). simpl app. rewrite findScheme_eq.
    pose proof (scanScheme_app (a :: t) v Hv) as H. simpl app in H.
    destruct (scanScheme (a :: t ++ v)), (scanScheme (a :: t)); simplify_eq/=;
      [by f_equal|done].
Qed.

Lemma targetOfScan_fst r : targetOfScan r = targetOfScan (r.1, []).
Proof. by destruct r as [[[[A B] C] D] rest]. Qed.

Lemma target_findScheme_app t v :
  noDigit v -> targetOfScan <$> findScheme (t ++ v) = targetOfScan <$> findScheme t.
Proof.
  intros Hv. pose proof (findScheme_app t v Hv) as H.
  destruct (findScheme (t ++ v)) as [r|], (findScheme t) as [r'|]; simplify_eq/=; [|done].
  by rewrite (targetOfScan_fst r), (targetOfScan_fst r'), H.
Qed.

(** ** [/side] and what follows it *)

Lemma sideTail_false c :
  sideTail c = false ->
  ichar 115 c = false /\ ichar 105 c = false /\ ichar 100 c = false /\ ichar 101 c = false.
Proof.
  unfold sideTail. intros H.
  apply orb_false_elim in H as [H H4]. apply orb_false_elim in H as [H H3].
  apply orb_false_elim in H as [H1 H2]. done.
Qed.

Lemma isSide_app_long a v : (5 <= length a)%nat -> isSide (a ++ v) = isSide a.
Proof.
  destruct a as [|c0 [|c1 [|c2 [|c3 [|c4 a]]]]]; simpl; intros; try lia. done.
Qed.

Lemma isSide_app_short a v :
  a <> [] -> (length a < 5)%nat -> headNot sideTail v -> isSide (a ++ v) = false.
Proof.
  intros Hne Hlen Hv. destruct v as [|x v].
  - rewrite app_nil_r. destruct a as [|c0 [|c1 [|c2 [|c3 [|c4 a]]]]]; simpl in *; done || lia.
  - simpl in Hv. apply sideTail_false in Hv as (H1 & H2 & H3 & H4).
    destruct a as [|c0 [|c1 [|c2 [|c3 [|c4 a]]]]]; simpl in Hlen; try done; try lia;
      cbn [app isSide];
      do 3 (try (destruct v as [|? v]; [reflexivity|]));
      rewrite ?H1, ?H2, ?H3, ?H4, ?andb_false_r; reflexivity.
Qed.

Lemma isSide_length s : isSide s = true -> (5 <= length s)%nat.
Proof.
  destruct s as [|c0 [|c1 [|c2 [|c3 [|c4 a]]]]]; simpl; intros; try done. lia.
Qed.

Lemma hasSide_length s : hasSide s = true -> (5 <= length s)%nat.
Proof.
  induction s as [|c s IH]; simpl.
  - done.
  - intros H. apply orb_true_iff in H as [H|H].
    + by apply (isSide_length (c :: s)) in H.
    + apply IH in H. lia.
Qed.

Lemma hasSide_cons c s : hasSide (c :: s) = isSide (c :: s) || hasSide s.
Proof. reflexivity. Qed.

Lemma stripSide_cons c s :
  stripSide (c :: s) = if isSide (c :: s) then drop 5 (c :: s) else c :: stripSide s.
Proof. reflexivity. Qed.

Lemma stripSide_app_hasSide a v :
  hasSide a = true -> stripSide (a ++ v) = stripSide a ++ v.
Proof.
  induction a as [|c a IH]; [done|].
  intros H. pose proof (hasSide_length _ H) as Hlen.
  rewrite hasSide_cons in H.
  rewrite <- app_comm_cons, !stripSide_cons, app_comm_cons.
  rewrite isSide_app_long by done.
  destruct (isSide (c :: a)) eqn:E.
  - by rewrite drop_app_le by done.
  - simpl in H. by rewrite IH.
Qed.

Lemma stripSide_app_noSide a v :
  hasSide a = false -> headNot sideTail v -> stripSide (a ++ v) = a ++ stripSide v.
Proof.
  intros H Hv. induction a as [|c a IH]; [done|].
  rewrite hasSide_cons in H. apply orb_false_elim in H as [H1 H2].
  rewrite <- app_comm_cons, stripSide_cons, app_comm_cons.
  assert (isSide ((c :: a) ++ v) = false) as ->.
  { destruct (decide (5 <= length (c :: a))%nat).
    - by rewrite isSide_app_long.
    - apply isSide_app_short; [done|lia|done]. }
  by rewrite IH.
Qed.

Lemma stripSide_noSide a : hasSide a = false -> stripSide a = a.
Proof.
  intros H. rewrite <- (app_nil_r a) at 1.
  rewrite stripSide_app_noSide by done. by rewrite app_nil_r.
Qed.

Lemma noDigit_stripSide v : noDigit v -> noDigit (stripSide v).
Proof.
  induction 1 as [|c v Hc Hv IH]; [constructor|].
  rewrite stripSide_cons. destruct (isSide (c :: v)).
  - simpl. clear IH Hc.
    do 4 (destruct Hv as [|? v ? Hv]; [constructor|]). done.
  - by constructor.
Qed.

(** Appending text that holds no digit and does not continue a [/side]
    leaves the parse as it is. *)
Lemma parseText_app t v :
  noDigit v -> headNot sideTail v -> parseText (t ++ v) = parseText t.
Proof.
  intros Hv Hh. unfold parseText. destruct (hasSide t) eqn:E.
  - rewrite stripSide_app_hasSide by done. by apply target_findScheme_app.
  - rewrite stripSide_app_noSide, (stripSide_noSide t) by done.
    by apply target_findScheme_app, noDigit_stripSide.
Qed.

Lemma blank_noDigit w : blank w -> noDigit w.
Proof. intros H. eapply Forall_impl; [exact H|]. apply ws_not_digit. Qed.

Lemma isSideSuffix_inv m :
  isSideSuffix m ->
  exists c1 c2 c3 c4,
    m = [47; c1; c2; c3; c4] /\ ichar 115 c1 = true /\ ichar 105 c2 = true /\
    ichar 100 c3 = true /\ ichar 101 c4 = true.
Proof. intros H. exact H. Qed.

Lemma ichar_letter_spec p a :
  isLower p = true -> ichar p a = true <-> (a = p \/ a = p - 32).
Proof.
  intros Hp. unfold ichar, canonicalize. rewrite Hp.
  unfold isLower in *. apply andb_true_iff in Hp as [H1 H2].
  apply N.leb_le in H1, H2.
  destruct (N.leb_spec 97 a), (N.leb_spec a 122); simpl; rewrite N.eqb_eq; lia.
Qed.

Lemma isSideSuffix_noDigit m : isSideSuffix m -> noDigit m.
Proof.
  intros (c1 & c2 & c3 & c4 & -> & H1 & H2 & H3 & H4)%isSideSuffix_inv.
  apply ichar_letter_spec in H1, H2, H3, H4; try done.
  repeat constructor; apply not_true_is_false; rewrite isDigit_spec; lia.
Qed.

Lemma isSideSuffix_head m : isSideSuffix m -> headNot sideTail m.
Proof.
  intros (c1 & c2 & c3 & c4 & -> & _)%isSideSuffix_inv. reflexivity.
Qed.

Lemma isSideSuffix_headNot_ws m : isSideSuffix m -> headNot isWhiteSpace m.
Proof.
  intros (c1 & c2 & c3 & c4 & -> & _)%isSideSuffix_inv. reflexivity.
Qed.

Lemma blank_sideTail w v : blank w -> headNot sideTail v -> headNot sideTail (w ++ v).
Proof.
  intros Hw Hv. apply (headNot_app _ isWhiteSpace); [|done|done].
  intros a Ha. apply isWhiteSpace_spec in Ha. unfold sideTail.
  repeat (apply orb_false_intro); apply not_true_is_false;
    rewrite ichar_letter_spec by done; lia.
Qed.

(** ** [trim], [split] and the marker *)

Lemma allOf_rev p s : allOf p s -> allOf p (rev s).
Proof.
  unfold allOf. rewrite !Forall_forall. intros H x Hx. apply H.
  apply list_elem_of_In. apply in_rev. by apply list_elem_of_In.
Qed.

Lemma trimEnd_inv s : exists w, blank w /\ s = trimEnd s ++ w.
Proof.
  exists (rev (takeWhile isWhiteSpace (rev s))). split.
  - apply allOf_rev, allOf_takeWhile.
  - unfold trimEnd. rewrite <- rev_app_distr, dropWhile_takeWhile.
    by rewrite rev_involutive.
Qed.

Lemma trimStart_app_side l m :
  isSideSuffix m -> trimStart (l ++ m) = trimStart l ++ m.
Proof.
  intros Hm. unfold trimStart. rewrite dropWhile_app_cases.
  destruct (dropWhile isWhiteSpace l); [|done].
  by rewrite dropWhile_headNot by by apply isSideSuffix_headNot_ws.
Qed.

Lemma trimEnd_app_side l m : isSideSuffix m -> trimEnd (l ++ m) = l ++ m.
Proof.
  intros (c1 & c2 & c3 & c4 & -> & _ & _ & _ & H4)%isSideSuffix_inv.
  unfold trimEnd. rewrite rev_app_distr. simpl.
  apply ichar_letter_spec in H4; [|done].
  replace (isWhiteSpace c4) with false.
  - change (c4 :: c3 :: c2 :: c1 :: 47 :: rev l) with (rev [47; c1; c2; c3; c4] ++ rev l).
    by rewrite <- rev_app_distr, rev_involutive.
  - symmetry. apply not_true_is_false. rewrite isWhiteSpace_spec. lia.
Qed.

Lemma trim_app_side l m : isSideSuffix m -> trim (l ++ m) = trimStart l ++ m.
Proof.
  intros Hm. unfold trim. by rewrite trimStart_app_side, trimEnd_app_side.
Qed.

Lemma parseText_trimEnd t : parseText (trimEnd t) = parseText t.
Proof.
  destruct (trimEnd_inv t) as (w & Hw & Ht). rewrite Ht at 2.
  symmetry. apply parseText_app; [by apply blank_noDigit|].
  rewrite <- (app_nil_r w). by apply blank_sideTail.
Qed.

Lemma split_noComma s : noComma s -> split 44 s = [s].
Proof.
  induction 1 as [|c s Hc Hs IH]; [done|]. simpl.
  apply N.eqb_neq in Hc. by rewrite Hc, IH.
Qed.

Lemma split_app_comma pre rest :
  split 44 (pre ++ 44 :: rest) = split 44 pre ++ split 44 rest.
Proof.
  induction pre as [|c pre IH]; [done|]. simpl.
  destruct (c =? 44); [by rewrite IH|].
  rewrite IH. by destruct (split_cons 44 pre) as (p & ps & ->).
Qed.

Lemma split_app_noComma b v :
  noComma v ->
  exists init l, split 44 b = init ++ [l] /\ split 44 (b ++ v) = init ++ [l ++ v].
Proof.
  intros Hv. induction b as [|c b (init & l & IH1 & IH2)].
  - exists [], []. split; [done|]. simpl. by rewrite split_noComma.
  - simpl. destruct (c =? 44).
    + exists ([] :: init), l. by rewrite IH1, IH2.
    + rewrite IH1, IH2. destruct init as [|p init].
      * by exists [], (c :: l).
      * by exists ((c :: p) :: init), l.
Qed.

Lemma last_split_app b v :
  noComma v -> last (split 44 (b ++ v)) = (fun l => l ++ v) <$> last (split 44 b).
Proof.
  intros Hv. destruct (split_app_noComma b v Hv) as (init & l & -> & ->).
  by rewrite !last_snoc.
Qed.

Lemma joinComma_snoc parts p :
  parts <> [] -> exists pre, joinComma (parts ++ [p]) = pre ++ 44 :: p.
Proof.
  induction parts as [|q parts IH]; [done|]. intros _.
  destruct parts as [|q' parts].
  - by exists q.
  - destruct IH as [pre IH]; [done|].
    exists (q ++ 44 :: pre).
    change (joinComma ((q :: q' :: parts) ++ [p]))
      with (q ++ 44 :: joinComma ((q' :: parts) ++ [p])).
    rewrite IH. by rewrite <- app_assoc.
Qed.

Lemma last_split_join parts p :
  noComma p -> last (split 44 (joinComma (parts ++ [p]))) = Some p.
Proof.
  intros Hp. destruct parts as [|q parts].
  - simpl. by rewrite split_noComma.
  - destruct (joinComma_snoc (q :: parts) p) as [pre ->]; [done|].
    rewrite split_app_comma, (split_noComma p) by done.
    by rewrite last_app_cons.
Qed.

(** The marker *)
Lemma lastScheme_alt m body :
  isAltMarker m -> lastScheme (m ++ body) = trim <$> last (split 44 body).
Proof.
  intros (a & l & t & -> & Ha & Hl & Ht).
  apply ichar_letter_spec in Ha, Hl, Ht; try done.
  unfold lastScheme. rewrite js_alt.
  assert (startsWith [97; 108; 116; 58] (toLowerCase ([a; l; t; 58] ++ body)) = true) as ->.
  { destruct Ha as [-> | ->], Hl as [-> | ->], Ht as [-> | ->]; reflexivity. }
  done.
Qed.

Lemma startsWith_alt_length s :
  startsWith [97; 108; 116; 58] (toLowerCase s) = true -> (4 <= length s)%nat.
Proof.
  destruct s as [|c0 [|c1 [|c2 [|c3 s]]]]; simpl; rewrite ?andb_false_r; try done.
  intros. lia.
Qed.

Lemma startsWith_alt_app_side s m :
  isSideSuffix m ->
  startsWith [97; 108; 116; 58] (toLowerCase (s ++ m)) =
  startsWith [97; 108; 116; 58] (toLowerCase s).
Proof.
  intros (c1 & c2 & c3 & c4 & -> & _)%isSideSuffix_inv.
  destruct s as [|d0 [|d1 [|d2 [|d3 s]]]]; cbn [app toLowerCase map startsWith];
    rewrite ?andb_false_r; try reflexivity.
Qed.

(** A prefix without digit and without slash is passed over. *)
Lemma stripSide_prefix pre t : noSlash pre -> stripSide (pre ++ t) = pre ++ stripSide t.
Proof.
  induction 1 as [|c pre Hc Hpre IH]; [done|].
  rewrite <- app_comm_cons, stripSide_cons.
  assert (isSide (c :: pre ++ t) = false) as ->; [|by rewrite IH].
  unfold isSide. destruct (pre ++ t) as [|c1 [|c2 [|c3 [|c4 s]]]]; try done.
  destruct (ichar 47 c) eqn:E; [|done]. by apply ichar_slash_spec in E.
Qed.

Lemma findScheme_prefix pre t : noDigit pre -> findScheme (pre ++ t) = findScheme t.
Proof.
  induction 1 as [|c pre Hc Hpre IH]; [done|].
  rewrite <- app_comm_cons, findScheme_eq.
  assert (scanScheme (c :: pre ++ t) = None) as ->; [|done].
  unfold scanScheme. simpl. by rewrite Hc.
Qed.

Lemma parseText_prefix pre t :
  noDigit pre -> noSlash pre -> parseText (pre ++ t) = parseText t.
Proof.
  intros Hd Hs. unfold parseText. by rewrite stripSide_prefix, findScheme_prefix.
Qed.

Lemma parseText_trim t : parseText (trim t) = parseText t.
Proof.
  unfold trim. rewrite parseText_trimEnd. unfold trimStart.
  destruct (span_inv isWhiteSpace t) as (w & _ & Ht & Hw).
  rewrite Ht at 2. symmetry. apply parseText_prefix.
  - by apply blank_noDigit.
  - by apply (noSlash_allOf isWhiteSpace).
Qed.

Lemma noComma_drop n s : noComma s -> noComma (drop n s).
Proof. apply Forall_drop. Qed.

Lemma alt_prefix s :
  startsWith [97; 108; 116; 58] (toLowerCase s) = true ->
  noDigit (take 4 s) /\ noSlash (take 4 s).
Proof.
  destruct s as [|c0 [|c1 [|c2 [|c3 s]]]]; simpl; rewrite ?andb_false_r; try done.
  rewrite !andb_true_iff, !N.eqb_eq. unfold isUpper.
  intros (H0 & H1 & H2 & H3 & _).
  repeat match goal with
  | H : (if ?b then _ else _) = _ |- _ =>
    let E := fresh in destruct b eqn:E;
    [apply andb_true_iff in E as [?%N.leb_le ?%N.leb_le]|]
  end;
  (split; repeat constructor;
   try (apply not_true_is_false; rewrite isDigit_spec); lia).
Qed.

(** On a text without comma [parseRx] is the scan of the text itself,
    marker or not. *)
Lemma parseRx_noComma p : noComma p -> parseRx (Some p) = parseText p.
Proof.
  intros Hp. destruct (decide (p = [])) as [->|Hne]; [done|].
  rewrite parseRx_text by done. unfold lastScheme. rewrite js_alt.
  destruct (startsWith _ _) eqn:E; [|done].
  rewrite split_noComma by by apply noComma_drop. simpl.
  rewrite parseText_trim. rewrite <- (take_drop 4 p) at 2.
  symmetry. destruct (alt_prefix p E). by apply parseText_prefix.
Qed.

Lemma parseRx_alt_last m parts p :
  isAltMarker m -> noComma p ->
  parseRx (Some (m ++ joinComma (parts ++ [p]))) = parseRx (Some p).
Proof.
  intros Hm Hp. rewrite (parseRx_noComma p) by done.
  rewrite parseRx_text.
  2:{ destruct Hm as (a & l & t & -> & _). done. }
  rewrite (lastScheme_alt m _ Hm). rewrite (last_split_join parts p Hp). simpl.
  apply parseText_trim.
Qed.

Lemma isSideSuffix_noComma m : isSideSuffix m -> noComma m.
Proof.
  intros (c1 & c2 & c3 & c4 & -> & H1 & H2 & H3 & H4)%isSideSuffix_inv.
  apply ichar_letter_spec in H1, H2, H3, H4; try done.
  repeat constructor; lia.
Qed.

Lemma parseText_app_side t m : isSideSuffix m -> parseText (t ++ m) = parseText t.
Proof.
  intros Hm. apply parseText_app;
    [by apply isSideSuffix_noDigit|by apply isSideSuffix_head].
Qed.

Lemma parseText_trimStart t : parseText (trimStart t) = parseText (trim t).
Proof. unfold trim. by rewrite parseText_trimEnd. Qed.

Lemma parseRx_side_suffix s m :
  isSideSuffix m -> parseRx (Some (s ++ m)) = parseRx (Some s).
Proof.
  intros Hm. destruct (decide (s = [])) as [->|Hne].
  - simpl app. rewrite parseRx_noComma by by apply isSideSuffix_noComma.
    by rewrite <- (app_nil_l m), parseText_app_side.
  - rewrite !parseRx_text; [|done|by destruct s].
    unfold lastScheme. rewrite js_alt, startsWith_alt_app_side by done.
    destruct (startsWith _ _) eqn:E.
    + apply startsWith_alt_length in E.
      rewrite drop_app_le by done.
      rewrite last_split_app by by apply isSideSuffix_noComma.
      destruct (last (split 44 (drop 4 s))) as [l|]; [|done]. simpl.
      rewrite trim_app_side, parseText_app_side by done.
      apply parseText_trimStart.
    + simpl. by apply parseText_app_side.
Qed.

(** ** The parse of a scheme, whatever stands around it *)

Lemma noComma_allOf (p : N -> bool) s : p 44 = false -> allOf p s -> noComma s.
Proof. intros Hp H. eapply Forall_impl; [exact H|]. intros c Hc ->. congruence. Qed.

Lemma noComma_rangeText r : rangeOk r -> noComma (rangeText r).
Proof.
  destruct r as [[[w1 w2] B]|]; [|constructor].
  intros (H1 & H2 & _ & HB). simpl.
  apply Forall_app. split; [by apply (noComma_allOf isWhiteSpace)|].
  constructor; [done|]. apply Forall_app.
  split; [by apply (noComma_allOf isWhiteSpace)|by apply (noComma_allOf isDigit)].
Qed.

Lemma noComma_schemeString A rs w x w' C rr :
  numeral A -> rangeOk rs -> blank w -> isTimes x = true -> blank w' ->
  numeral C -> rangeOk rr ->
  noComma (schemeString A rs w x w' C rr).
Proof.
  intros [_ HA] Hrs Hw Hx Hw' [_ HC] Hrr. unfold schemeString.
  pose proof (noComma_rangeText rs Hrs). pose proof (noComma_rangeText rr Hrr).
  pose proof (noComma_allOf isDigit A eq_refl HA).
  pose proof (noComma_allOf isDigit C eq_refl HC).
  pose proof (noComma_allOf isWhiteSpace w eq_refl Hw).
  pose proof (noComma_allOf isWhiteSpace w' eq_refl Hw').
  repeat (apply Forall_app; split); try assumption.
  constructor.
  - apply isTimes_spec in Hx. lia.
  - repeat (apply Forall_app; split); assumption.
Qed.

(** What may follow a scheme: a suffix "/side" or none, then white
    space. *)
Lemma optSide_tail side w1 :
  optSide side -> blank w1 ->
  noDigit (side ++ w1) /\ headNot sideTail (side ++ w1) /\ noComma (side ++ w1).
Proof.
  intros [->|Hs] Hw.
  - simpl. split_and!; [by apply blank_noDigit| |by apply (noComma_allOf isWhiteSpace)].
    rewrite <- (app_nil_r w1). by apply blank_sideTail.
  - split_and!.
    + apply Forall_app. split; [by apply isSideSuffix_noDigit|by apply blank_noDigit].
    + pose proof (isSideSuffix_head side Hs) as Hh.
      destruct Hs as (c1 & c2 & c3 & c4 & -> & _). exact Hh.
    + apply Forall_app.
      split; [by apply isSideSuffix_noComma|by apply (noComma_allOf isWhiteSpace)].
Qed.

Lemma parseText_scheme w0 A rs w x w' C rr v :
  blank w0 -> numeral A -> rangeOk rs -> blank w -> isTimes x = true -> blank w' ->
  numeral C -> rangeOk rr -> noDigit v -> headNot sideTail v ->
  parseText (w0 ++ schemeString A rs w x w' C rr ++ v) =
  Some {| maxSets := doubleOfInteger (decimalValue (upper A rs));
          maxReps := doubleOfInteger (decimalValue (upper C rr)) |}.
Proof.
  intros Hw0 HA Hrs Hw Hx Hw' HC Hrr Hv Hh.
  rewrite parseText_prefix;
    [|by apply blank_noDigit|by apply (noSlash_allOf isWhiteSpace)].
  rewrite parseText_app by done.
  rewrite <- parseRx_noComma by by apply noComma_schemeString.
  by apply parseRx_schemeString.
Qed.

(** C2.  For every prescription of the shape "A x B" the parse is
    [{maxSets: A, maxReps: B}]; with a range on both sides, "A-B x C-D", it
    is the upper bounds [{maxSets: B, maxReps: D}]; with a range on one
    side only, that side gives its upper bound and the other side its
    single value: all this when the numerals that are read, the upper ones,
    denote integers below 2^53.  Whatever the numerals, each field is the
    double nearest to the numeral that is read.  A, B, C and D are
    numerals, the sign [x] is the letter x in either case or the
    multiplication sign, and the white space around the sign and around a
    dash is any run of white space, the empty one included. *)
Theorem parseRx_upper_bounds (A B C D w1 w2 w w' w3 w4 : list N) (x : N) :
  numeral A -> numeral B -> numeral C -> numeral D ->
  blank w1 -> blank w2 -> blank w -> blank w' -> blank w3 -> blank w4 ->
  isTimes x = true ->
  (safeNumeral A -> safeNumeral C ->
   parseRx (Some (A ++ w ++ x :: w' ++ C)) =
     Some {| maxSets := Int (decimalValue A); maxReps := Int (decimalValue C) |}) /\
  (safeNumeral B -> safeNumeral D ->
   parseRx (Some (A ++ (w1 ++ 45 :: w2 ++ B) ++ w ++ x :: w' ++ C ++ (w3 ++ 45 :: w4 ++ D))) =
     Some {| maxSets := Int (decimalValue B); maxReps := Int (decimalValue D) |}) /\
  (safeNumeral B -> safeNumeral C ->
   parseRx (Some (A ++ (w1 ++ 45 :: w2 ++ B) ++ w ++ x :: w' ++ C)) =
     Some {| maxSets := Int (decimalValue B); maxReps := Int (decimalValue C) |}) /\
  (safeNumeral A -> safeNumeral D ->
   parseRx (Some (A ++ w ++ x :: w' ++ C ++ (w3 ++ 45 :: w4 ++ D))) =
     Some {| maxSets := Int (decimalValue A); maxReps := Int (decimalValue D) |}) /\
  (forall rs rr, rangeOk rs -> rangeOk rr ->
     parseRx (Some (schemeString A rs w x w' C rr)) =
       Some {| maxSets := doubleOfInteger (decimalValue (upper A rs));
               maxReps := doubleOfInteger (decimalValue (upper C rr)) |}).
Proof.
  intros HA HB HC HD H1 H2 Hw Hw' H3 H4 Hx.
  split_and!.
  - intros S1 S2.
    replace (A ++ w ++ x :: w' ++ C) with (schemeString A None w x w' C None)
      by (unfold schemeString; simpl; by rewrite app_nil_r).
    rewrite parseRx_schemeString by done. cbn [upper].
    by rewrite !doubleOfInteger_numeral.
  - intros S1 S2.
    change (A ++ (w1 ++ 45 :: w2 ++ B) ++ w ++ x :: w' ++ C ++ (w3 ++ 45 :: w4 ++ D))
      with (schemeString A (Some (w1, w2, B)) w x w' C (Some (w3, w4, D))).
    rewrite parseRx_schemeString by done. cbn [upper].
    by rewrite !doubleOfInteger_numeral.
  - intros S1 S2.
    replace (A ++ (w1 ++ 45 :: w2 ++ B) ++ w ++ x :: w' ++ C)
      with (schemeString A (Some (w1, w2, B)) w x w' C None)
      by (unfold schemeString; simpl; by rewrite app_nil_r).
    rewrite parseRx_schemeString by done. cbn [upper].
    by rewrite !doubleOfInteger_numeral.
  - intros S1 S2.
    change (A ++ w ++ x :: w' ++ C ++ (w3 ++ 45 :: w4 ++ D))
      with (schemeString A None w x w' C (Some (w3, w4, D))).
    rewrite parseRx_schemeString by done. cbn [upper].
    by rewrite !doubleOfInteger_numeral.
  - intros rs rr Hrs Hrr. by apply parseRx_schemeString.
Qed.

Lemma parseRx_upper_bounds_witness :
  parseRx (Some (js "4-6 x 2-3")) = Some {| maxSets := Int 6; maxReps := Int 3 |}.
Proof.
  assert (Hd : forall c, isDigit c = true -> numeral [c])
    by (intros c Hc; split; [discriminate|repeat constructor; exact Hc]).
  assert (Hs : blank [32]) by (repeat constructor).
  assert (Hn : blank []) by constructor.
  destruct (parseRx_upper_bounds [52] [54] [50] [51] [] [] [32] [32] [] [] 120
              (Hd 52 eq_refl) (Hd 54 eq_refl) (Hd 50 eq_refl) (Hd 51 eq_refl)
              Hn Hn Hs Hs Hn Hn eq_refl) as (_ & H & _).
  apply H; reflexivity.
Defined.

(** A numeral of 2^53 + 1, which no double holds: the parse gives 2^53. *)
Lemma parseRx_upper_bounds_counterexample :
  numeral (js "9007199254740993") /\
  decimalValue (js "9007199254740993") = 9007199254740993%Z /\
  parseRx (Some (js "9007199254740993 x 1")) =
    Some {| maxSets := Int 9007199254740992; maxReps := Int 1 |}.
Proof.
  split_and!.
  - split; [discriminate|]. unfold allOf. by repeat constructor.
  - reflexivity.
  - by vm_compute.
Qed.

Lemma schemeText_side_suffix s m :
  isSideSuffix m -> noSlash s -> startsWith (js "alt:") (toLowerCase s) = false ->
  schemeText (s ++ m) = Some s.
Proof.
  intros Hm Hs Halt. unfold schemeText.
  rewrite js_alt in *. rewrite startsWith_alt_app_side, Halt by done.
  cbn [fmap option_fmap option_map]. rewrite replace_side, stripSide_prefix by done.
  destruct Hm as (c1 & c2 & c3 & c4 & -> & H1 & H2 & H3 & H4).
  rewrite stripSide_cons. unfold isSide. rewrite H1, H2, H3, H4.
  cbn. by rewrite app_nil_r.
Qed.

(** C3.  A prescription made of the marker "alt:", in any case, and a
    list of texts separated by commas parses as its last text alone does,
    whatever stands before it: when the last text is a scheme, with or
    without a suffix "/side" and white space around it, the parse is the
    upper bounds of that scheme.  A suffix "/side", in any case, changes the
    parse of no prescription: a scheme followed by it parses to the upper
    bounds of the scheme, and after a prescription with no marker and no
    slash of its own it is cut out before the scheme pattern is run.  The
    bounds are given for numerals below 2^53.  And
    [parse("alt: 3x5, 4x5-6") = {maxSets: 4, maxReps: 6}]. *)
Theorem parseRx_alt_and_side :
  (forall m parts w0 A rs w x w' C rr side w1,
     isAltMarker m -> blank w0 ->
     numeral A -> rangeOk rs -> blank w -> isTimes x = true -> blank w' ->
     numeral C -> rangeOk rr -> optSide side -> blank w1 ->
     safeNumeral (upper A rs) -> safeNumeral (upper C rr) ->
     parseRx (Some (m ++ joinComma
                      (parts ++ [w0 ++ schemeString A rs w x w' C rr ++ side ++ w1]))) =
     Some {| maxSets := Int (decimalValue (upper A rs));
             maxReps := Int (decimalValue (upper C rr)) |}) /\
  (forall A rs w x w' C rr side,
     numeral A -> rangeOk rs -> blank w -> isTimes x = true -> blank w' ->
     numeral C -> rangeOk rr -> isSideSuffix side ->
     safeNumeral (upper A rs) -> safeNumeral (upper C rr) ->
     parseRx (Some (schemeString A rs w x w' C rr ++ side)) =
     Some {| maxSets := Int (decimalValue (upper A rs));
             maxReps := Int (decimalValue (upper C rr)) |}) /\
  (forall m parts p, isAltMarker m -> noComma p ->
     parseRx (Some (m ++ joinComma (parts ++ [p]))) = parseRx (Some p)) /\
  (forall s m, isSideSuffix m -> parseRx (Some (s ++ m)) = parseRx (Some s)) /\
  (forall s m, isSideSuffix m -> noSlash s ->
     startsWith (js "alt:") (toLowerCase s) = false -> schemeText (s ++ m) = Some s) /\
  parseRx (Some (js "alt: 3x5, 4x5-6")) = Some {| maxSets := Int 4; maxReps := Int 6 |}.
Proof.
  split_and!.
  - intros m parts w0 A rs w x w' C rr side w1 Hm Hw0 HA Hrs Hw Hx Hw' HC Hrr Hside Hw1
      HsA HsC.
    destruct (optSide_tail side w1 Hside Hw1) as (Hd & Hh & Hc).
    assert (Hnc : noComma (w0 ++ schemeString A rs w x w' C rr ++ side ++ w1)).
    { apply Forall_app. split; [by apply (noComma_allOf isWhiteSpace)|].
      apply Forall_app. split; [by apply noComma_schemeString|done]. }
    rewrite parseRx_alt_last, parseRx_noComma by done.
    rewrite parseText_scheme by done.
    by rewrite !doubleOfInteger_numeral.
  - intros A rs w x w' C rr side HA Hrs Hw Hx Hw' HC Hrr Hside HsA HsC.
    rewrite parseRx_side_suffix, parseRx_schemeString by done.
    by rewrite !doubleOfInteger_numeral.
  - apply parseRx_alt_last.
  - apply parseRx_side_suffix.
  - apply schemeText_side_suffix.
  - by vm_compute.
Qed.

Lemma parseRx_alt_and_side_witness :
  parseRx (Some (js "alt: 3x5, 2x8")) = Some {| maxSets := Int 2; maxReps := Int 8 |} /\
  parseRx (Some (js "alt: 3x5, 4x5-6/side")) = Some {| maxSets := Int 4; maxReps := Int 6 |} /\
  parseRx (Some (js "2-3 x 10-15/side")) = Some {| maxSets := Int 3; maxReps := Int 15 |} /\
  parseRx (Some (js "alt: 3x5, 4x5-6")) = parseRx (Some (js " 4x5-6")) /\
  parseRx (Some (js "2-3 x 10-15/side")) = parseRx (Some (js "2-3 x 10-15")) /\
  schemeText (js "2-3 x 10-15/side") = Some (js "2-3 x 10-15").
Proof.
  assert (Hd : forall c, isDigit c = true -> numeral [c])
    by (intros c Hc; split; [discriminate|repeat constructor; exact Hc]).
  assert (Hdd : forall c d, isDigit c = true -> isDigit d = true -> numeral [c; d])
    by (intros c d Hc Hc'; split; [discriminate|repeat constructor; done]).
  assert (Hs : blank [32]) by (repeat constructor).
  assert (Hn : blank []) by constructor.
  assert (Hm : isAltMarker (js "alt:")) by (exists 97, 108, 116; by split_and!).
  assert (Hside : isSideSuffix (js "/side")) by (exists 115, 105, 100, 101; by split_and!).
  destruct parseRx_alt_and_side as (Hlast & Hbounds & Halt & Hsuffix & Hcut & _).
  split_and!.
  - apply (Hlast (js "alt:") [js " 3x5"] [32] [50] None [] 120 [] [56] None [] []);
      try done; try (by apply Hd); by left.
  - apply (Hlast (js "alt:") [js " 3x5"] [32] [52] None [] 120 [] [53]
             (Some ([], [], [54])) (js "/side") []);
      try done; try (by apply Hd); [by split_and!; try apply Hd|by right].
  - apply (Hbounds [50] (Some ([], [], [51])) [32] 120 [32] [49; 48]
             (Some ([], [], [49; 53])));
      try done; try (by apply Hd); try (by apply Hdd);
      by split_and!; try apply Hd; try apply Hdd.
  - apply (Halt (js "alt:") [js " 3x5"] (js " 4x5-6")); [done|].
    unfold noComma. by repeat constructor.
  - by apply (Hsuffix (js "2-3 x 10-15") (js "/side")).
  - apply (Hcut (js "2-3 x 10-15") (js "/side")); [done| |reflexivity].
    unfold noSlash. by repeat constructor.
Defined.

(** ** The scheme that counts *)











Local Close Scope N_scope.
Local Open Scope Z_scope.

(** ** The store *)

Lemma elem_of_entriesOf uid db k e :
  (k, e) ∈ entriesOf uid db <-> db !! (uid, k) = Some e.
Proof.
  unfold entriesOf. rewrite list_elem_of_omap. split.
  - intros ([[u k'] e'] & Hin & Hf). simpl in Hf.
    destruct (decide (u = uid)) as [->|]; [|done].
    injection Hf as -> ->. by apply elem_of_map_to_list in Hin.
  - intros H. exists ((uid, k), e). split; [by apply elem_of_map_to_list|].
    simpl. by rewrite decide_True.
Qed.

Global Instance dateLe_trans : Transitive dateLe.
Proof. intros [x|] [y|] [z|]; simpl; try done; lia. Qed.

Global Instance dateLe_total : Total dateLe.
Proof. intros [x|] [y|]; simpl; try tauto; lia. Qed.

Global Instance newerFirst_trans : Transitive newerFirst.
Proof. intros x y z Hxy Hyz. unfold newerFirst in *. by etrans. Qed.

Global Instance newerFirst_total : Total newerFirst.
Proof. intros x y. unfold newerFirst. destruct (total dateLe (date y.2) (date x.2)); auto. Qed.

Lemma head_orderByDateDesc l x :
  head (orderByDateDesc l) = Some x ->
  x ∈ l /\ forall y, y ∈ l -> dateLe (date y.2) (date x.2).
Proof.
  unfold orderByDateDesc. intros H.
  pose proof (StronglySorted_merge_sort newerFirst l) as Hs.
  pose proof (merge_sort_Permutation newerFirst l) as Hp.
  destruct (merge_sort newerFirst l) as [|x' l'] eqn:E; [done|].
  injection H as ->. split.
  - rewrite <- Hp. by left.
  - intros y Hy. rewrite <- Hp in Hy.
    apply StronglySorted_inv in Hs as [_ Hall].
    apply elem_of_cons in Hy as [->|Hy].
    + destruct (total dateLe (date x.2) (date x.2)); done.
    + rewrite Forall_forall in Hall. by apply Hall.
Qed.

Lemma head_orderByDateDesc_nil l : head (orderByDateDesc l) = None -> l = [].
Proof.
  unfold orderByDateDesc. intros H.
  pose proof (merge_sort_Permutation newerFirst l) as Hp.
  destruct (merge_sort newerFirst l); [|done].
  by apply Permutation_nil_l in Hp.
Qed.

Lemma head_limit1 l : limit 1 l = match head l with Some x => [x] | None => [] end.
Proof. by destruct l. Qed.

Section Rotation.
Variable tzOffset : Z.
Variable SESSIONS : list Session.t.

Lemma isToday_localDate a b :
  (getFullYear tzOffset a =? getFullYear tzOffset b)
  && (getMonth tzOffset a =? getMonth tzOffset b)
  && (getDate tzOffset a =? getDate tzOffset b) = true
  <-> localDate tzOffset a = localDate tzOffset b.
Proof.
  unfold localDate. rewrite !andb_true_iff, !Z.eqb_eq. split.
  - intros [[-> ->] ->]. done.
  - intros [= -> -> ->]. done.
Qed.

Lemma determineCurrentSession_eq h db st :
  determineCurrentSession tzOffset SESSIONS h db st =
  match currentUser st with
  | None => 0%nat
  | Some u =>
    if readOk h then
      match mostRecentEntry (uid u) db with
      | None => 0%nat
      | Some (_, e) =>
        match truthy (session e) with
        | None => 0%nat
        | Some sid =>
          match findIndex SESSIONS sid with
          | None => 0%nat
          | Some i =>
            let lastDate := match date e with Some t => t | None => now h end in
            let today := match date e with Some _ => now h | None => nowAgain h end in
            if decide (localDate tzOffset lastDate = localDate tzOffset today)
            then i else ((i + 1) mod length SESSIONS)%nat
          end
        end
      end
    else 0%nat
  end.
Proof.
  unfold determineCurrentSession, get, mostRecentEntry.
  destruct (currentUser st) as [u|]; [|done].
  destruct (readOk h); [|done].
  rewrite head_limit1.
  destruct (head _) as [[k e]|]; [|done].
  destruct (truthy (session e)) as [sid|]; [|done].
  destruct (findIndex SESSIONS sid) as [i|]; [|done].
  cbv zeta.
  match goal with |- (if ?b then _ else _) = _ => destruct b eqn:E end.
  - apply isToday_localDate in E. by rewrite decide_True.
  - rewrite decide_False; [done|]. intros H%isToday_localDate. congruence.
Qed.
End Rotation.

(** ** The rotation of sessions *)

Lemma mostRecentEntry_newest uid db k e :
  mostRecentEntry uid db = Some (k, e) ->
  db !! (uid, k) = Some e /\
  forall k' e', db !! (uid, k') = Some e' -> dateLe (date e') (date e).
Proof.
  intros [Hin Hmax]%head_orderByDateDesc. split.
  - by apply elem_of_entriesOf.
  - intros k' e' H. apply (Hmax (k', e')). by apply elem_of_entriesOf.
Qed.

Lemma mostRecentEntry_none uid db :
  (forall k, db !! (uid, k) = None) -> mostRecentEntry uid db = None.
Proof.
  intros H. destruct (mostRecentEntry uid db) as [[k e]|] eqn:E; [|done].
  apply mostRecentEntry_newest in E as [E _]. by rewrite H in E.
Qed.

Lemma findIndex_Some SESSIONS sid i :
  findIndex SESSIONS sid = Some i ->
  (i < length SESSIONS)%nat /\ exists s, SESSIONS !! i = Some s /\ Session.id s = sid.
Proof.
  unfold findIndex. intros H.
  destruct (list_find _ SESSIONS) as [[j s]|] eqn:E; [|done].
  injection H as ->. apply list_find_Some in E as (Hs & Hid & _).
  split; [by eapply lookup_lt_Some|by exists s].
Qed.

Lemma findIndex_None SESSIONS sid :
  (forall s, s ∈ SESSIONS -> Session.id s <> sid) -> findIndex SESSIONS sid = None.
Proof.
  intros H. unfold findIndex.
  destruct (list_find _ SESSIONS) as [[j s]|] eqn:E; [|done].
  apply list_find_Some in E as (Hs & Hid & _).
  exfalso. apply (H s); [|done]. by eapply list_elem_of_lookup_2.
Qed.

Lemma findIndex_first SESSIONS sid i s :
  SESSIONS !! i = Some s -> Session.id s = sid ->
  (forall j s', (j < i)%nat -> SESSIONS !! j = Some s' -> Session.id s' <> sid) ->
  findIndex SESSIONS sid = Some i.
Proof.
  intros Hs Hid Hfirst. unfold findIndex.
  assert (list_find (fun s => Session.id s = sid) SESSIONS = Some (i, s)) as ->; [|done].
  apply list_find_Some. split_and!; [done|done|].
  intros j s' Hj Hlt. by apply (Hfirst j).
Qed.

(** C1.  [determineCurrentSession] gives 0 when no user is signed in or
    the lookup fails, when the user has no entry, when the most recent
    entry has no session id, and when no session of the catalogue has that
    id.  The most recent entry is the one the store lists first in
    descending order of date: it is an entry of the user and none of the
    user's entries is dated after it.  Otherwise, with [i] the index of its
    session in the catalogue, the first session that has the id: when the
    local calendar date of the entry is today's the result is [i], and
    when it is not the result is [(i + 1) mod length SESSIONS], which is 0
    for the last session of the catalogue. *)
Theorem determineCurrentSession_rotation tzOffset SESSIONS h db st :
  let r := determineCurrentSession tzOffset SESSIONS h db st in
  (currentUser st = None -> r = 0%nat) /\
  (readOk h = false -> r = 0%nat) /\
  (forall u, currentUser st = Some u -> readOk h = true ->
     ((forall k, db !! (uid u, k) = None) -> r = 0%nat) /\
     (forall k e, mostRecentEntry (uid u) db = Some (k, e) ->
        (db !! (uid u, k) = Some e /\
         forall k' e', db !! (uid u, k') = Some e' -> dateLe (date e') (date e)) /\
        (truthy (session e) = None -> r = 0%nat) /\
        (forall sid, truthy (session e) = Some sid ->
           ((forall s, s ∈ SESSIONS -> Session.id s <> sid) -> r = 0%nat) /\
           (forall i s t,
              SESSIONS !! i = Some s -> Session.id s = sid ->
              (forall j s', (j < i)%nat -> SESSIONS !! j = Some s' -> Session.id s' <> sid) ->
              date e = Some t ->
              (localDate tzOffset t = localDate tzOffset (now h) -> r = i) /\
              (localDate tzOffset t <> localDate tzOffset (now h) ->
                 r = ((i + 1) mod length SESSIONS)%nat /\
                 (S i = length SESSIONS -> r = 0%nat)))))).
Proof.
  intros r. subst r. rewrite determineCurrentSession_eq.
  split_and!.
  - by intros ->.
  - intros ->. by destruct (currentUser st).
  - intros u -> ->. split.
    + intros Hnone. by rewrite (mostRecentEntry_none _ _ Hnone).
    + intros k e He. rewrite He. split; [by apply mostRecentEntry_newest|]. split.
      * by intros ->.
      * intros sid ->. split; [intros Hno; by rewrite (findIndex_None _ _ Hno)|].
        intros i s t Hs Hid Hfirst ->.
        rewrite (findIndex_first _ _ _ _ Hs Hid Hfirst). cbv zeta. split.
        -- intros Heq. by rewrite decide_True.
        -- intros Hne. rewrite decide_False by done. split; [done|].
           intros <-. rewrite Nat.add_1_r. apply Nat.Div0.mod_same.
Qed.

(** C9.  When the most recent entry carries the id of a session of the
    catalogue but no timestamp, the current moment stands for its date.
    The body reads the clock twice, once for the date that is missing and
    once for today: when the two readings fall on the same local calendar
    date the index of that session is the result, and the session is
    resumed; when local midnight falls between them the session is
    advanced, as for an entry of an earlier day. *)
Theorem determineCurrentSession_pending_date tzOffset SESSIONS h db st u k e sid i s :
  currentUser st = Some u -> readOk h = true ->
  mostRecentEntry (uid u) db = Some (k, e) ->
  date e = None -> truthy (session e) = Some sid ->
  SESSIONS !! i = Some s -> Session.id s = sid ->
  (forall j s', (j < i)%nat -> SESSIONS !! j = Some s' -> Session.id s' <> sid) ->
  (localDate tzOffset (now h) = localDate tzOffset (nowAgain h) ->
     determineCurrentSession tzOffset SESSIONS h db st = i) /\
  (localDate tzOffset (now h) <> localDate tzOffset (nowAgain h) ->
     determineCurrentSession tzOffset SESSIONS h db st
     = ((i + 1) mod length SESSIONS)%nat).
Proof.
  intros Hu Hr He Hd Hs Hi Hid Hfirst. rewrite determineCurrentSession_eq.
  rewrite Hu, Hr, He, Hs, (findIndex_first _ _ _ _ Hi Hid Hfirst), Hd. cbv zeta.
  split; intros H; [by rewrite decide_True|by rewrite decide_False].
Qed.

(** ** The completion set *)

Lemma startOfDay_earlier tzOffset t n :
  localDay tzOffset t < localDay tzOffset n -> t < startOfDay tzOffset n.
Proof.
  unfold startOfDay, localDay, msPerDay. intros H.
  pose proof (Z.mul_succ_div_gt (t + tzOffset) 86400000 ltac:(lia)). lia.
Qed.

Lemma startOfDay_today tzOffset t n :
  localDay tzOffset n <= localDay tzOffset t -> startOfDay tzOffset n <= t.
Proof.
  unfold startOfDay, localDay, msPerDay. intros H.
  pose proof (Z.mul_div_le (t + tzOffset) 86400000 ltac:(lia)). lia.
Qed.

Lemma elem_of_whereDateFrom t l kv :
  kv ∈ whereDateFrom t l <-> datedFrom t (date kv.2) /\ kv ∈ l.
Proof.
  unfold whereDateFrom.
  apply (list_elem_of_filter (fun kv : list N * Entry => datedFrom t (date kv.2))).
Qed.

Lemma loadTodayEntries_eq tzOffset h db st u :
  currentUser st = Some u -> readOk h = true ->
  todayEntries (loadTodayEntries tzOffset h db st) =
  list_to_set ((fun kv => lift kv.2) <$>
     whereDateFrom (startOfDay tzOffset (now h)) (entriesOf (uid u) db)).
Proof. intros Hu Hr. unfold loadTodayEntries, get. by rewrite Hu, Hr. Qed.

(** C6.  After [loadTodayEntries], for a signed-in user and a store that
    answers, a lift is in the completion set if and only if some entry of
    the user for that lift has a timestamp at or after the local midnight
    that began today.  So an entry dated today or later puts its lift in
    the set, a lift whose entries are all dated on earlier local days is
    not in it, and with a squat entry at noon today and a bench entry at
    noon yesterday the set is exactly ["squat"]. *)
Theorem loadTodayEntries_completed tzOffset h db st u :
  currentUser st = Some u -> readOk h = true ->
  let done := todayEntries (loadTodayEntries tzOffset h db st) in
  (forall x, x ∈ done <->
     exists k e t, db !! (uid u, k) = Some e /\ lift e = x /\
                   date e = Some t /\ startOfDay tzOffset (now h) <= t) /\
  (forall k e t, db !! (uid u, k) = Some e -> date e = Some t ->
     localDay tzOffset (now h) <= localDay tzOffset t -> lift e ∈ done) /\
  (forall x,
     (forall k e, db !! (uid u, k) = Some e -> lift e = x ->
        exists t, date e = Some t /\ localDay tzOffset t < localDay tzOffset (now h)) ->
     x ∉ done) /\
  todayEntries
    (loadTodayEntries 0 (hostAt (squatDay + 3 * msPerDay / 4)) squatStore
       (blankState (Some {| uid := js "u1" |})))
  = {[ js "squat" ]}.
Proof.
  intros Hu Hr done.
  assert (Hiff : forall x, x ∈ done <->
     exists k e t, db !! (uid u, k) = Some e /\ lift e = x /\
                   date e = Some t /\ startOfDay tzOffset (now h) <= t).
  { intros x. subst done. rewrite (loadTodayEntries_eq _ _ _ _ u) by done.
    rewrite elem_of_list_to_set, list_elem_of_fmap. split.
    - intros ([k e] & -> & [Hd Hin]%elem_of_whereDateFrom).
      apply elem_of_entriesOf in Hin. simpl in Hd.
      destruct (date e) as [t|] eqn:Ht; [|done]. by exists k, e, t.
    - intros (k & e & t & Hdb & <- & Ht & Hd). exists (k, e). split; [done|].
      apply elem_of_whereDateFrom. split; [|by apply elem_of_entriesOf].
      simpl. by rewrite Ht. }
  split_and!; [done| | |by vm_compute].
  - intros k e t Hdb Ht Hday. apply Hiff. exists k, e, t. split_and!; try done.
    by apply startOfDay_today.
  - intros x Hearlier (k & e & t & Hdb & Hx & Ht & Hd)%Hiff.
    destruct (Hearlier k e Hdb Hx) as (t' & Ht' & Hlt).
    rewrite Ht in Ht'. injection Ht' as <-.
    apply startOfDay_earlier in Hlt. lia.
Qed.

Section Save.
Variable SESSIONS : list Session.t.
Variable NumberToString : bool -> N -> Z -> list N.

(** C10.  With no user signed in, or with no lift selected, the save
    handler does nothing at all: the store and the whole page, the list of
    messages shown to the user included, are what they were. *)
Theorem save_guard h db st :
  currentUser st = None \/ truthy (currentLiftId st) = None ->
  save SESSIONS NumberToString h db st = (db, st).
Proof.
  intros [H|H]; unfold save; rewrite H; [done|]. by destruct (currentUser st).
Qed.

(** The store after the handler, on the edit path. *)
Lemma save_edit_store h db st docId :
  truthy (editingEntryId st) = Some docId ->
  (save SESSIONS NumberToString h db st).1 =
  match currentUser st, truthy (currentLiftId st), collectGroups (setGroups st) with
  | Some u, Some _, (true, g :: gs) =>
    match update h (uid u) docId (g :: gs) (trim (notesInput st)) db with
    | Fetched db' => db'
    | Failed => db
    end
  | _, _, _ => db
  end.
Proof.
  intros Hedit. unfold save.
  destruct (currentUser st) as [u|]; [|done].
  destruct (truthy (currentLiftId st)) as [liftId|]; [|done].
  destruct (collectGroups (setGroups st)) as [valid groups] eqn:Hc.
  destruct valid; simpl; [|done].
  destruct groups as [|g groups]; simpl; [done|].
  rewrite Hedit.
  destruct (update _ _ _ _ _ _) as [db'|]; [|done].
  by destruct (match truthy _ with Some _ => _ | None => _ end).
Qed.

Lemma update_lookup h uid docId groups text db db' :
  update h uid docId groups text db = Fetched db' ->
  exists e, db !! (uid, docId) = Some e /\ writeOk h = true /\
    db' = <[(uid, docId) :=
             {| lift := lift e; date := date e; sets := groups;
                notes := text; session := session e |}]> db.
Proof.
  unfold update. destruct (writeOk h); [|done].
  destruct (db !! (uid, docId)) as [e|]; [|done].
  intros [= <-]. by exists e.
Qed.

(** C5.  On the edit path of the save handler (an entry id is being
    edited) every document of the store stays under its id with its lift,
    its date and its session id; documents other than the edited one do not
    change at all and no document is added.  When the form is valid, the
    write goes through and the edited document exists, that document
    becomes the old one with [sets] and [notes] replaced by the groups of
    the form and the trimmed notes. *)
Theorem save_edit_frame h db st docId :
  truthy (editingEntryId st) = Some docId ->
  let db' := (save SESSIONS NumberToString h db st).1 in
  (forall key e, db !! key = Some e ->
     exists e', db' !! key = Some e' /\
       lift e' = lift e /\ date e' = date e /\ session e' = session e /\
       (forall u, currentUser st = Some u -> key <> (uid u, docId) -> e' = e)) /\
  (forall key, db !! key = None -> db' !! key = None) /\
  (forall u e groups,
     currentUser st = Some u -> is_Some (truthy (currentLiftId st)) ->
     collectGroups (setGroups st) = (true, groups) -> groups <> [] ->
     writeOk h = true -> db !! (uid u, docId) = Some e ->
     db' !! (uid u, docId) =
     Some {| lift := lift e; date := date e; sets := groups;
             notes := trim (notesInput st); session := session e |}).
Proof.
  intros Hedit db'. subst db'. rewrite (save_edit_store h db st docId Hedit).
  split_and!.
  - intros key e He.
    assert (Hsame : exists e', db !! key = Some e' /\
       lift e' = lift e /\ date e' = date e /\ session e' = session e /\
       (forall u, currentUser st = Some u -> key <> (uid u, docId) -> e' = e))
      by (exists e; by split_and!).
    destruct (currentUser st) as [u|]; [|done].
    destruct (truthy (currentLiftId st)); [|done].
    destruct (collectGroups (setGroups st)) as [[] [|g gs]]; try done.
    destruct (update _ _ _ _ _ _) as [db'|] eqn:Hup; [|done].
    apply update_lookup in Hup as (e0 & He0 & _ & ->).
    destruct (decide (key = (uid u, docId))) as [->|Hk].
    + eexists. rewrite lookup_insert_eq. split; [done|].
      rewrite He0 in He. injection He as <-. split_and!; try done.
      intros u' [= <-]. done.
    + exists e. rewrite lookup_insert_ne by done. by split_and!.
  - intros key Hk.
    destruct (currentUser st) as [u|]; [|done].
    destruct (truthy (currentLiftId st)); [|done].
    destruct (collectGroups (setGroups st)) as [[] [|g gs]]; try done.
    destruct (update _ _ _ _ _ _) as [db'|] eqn:Hup; [|done].
    apply update_lookup in Hup as (e0 & He0 & _ & ->).
    rewrite lookup_insert_ne; [done|]. intros <-. congruence.
  - intros u e groups -> [liftId ->] -> Hne Hw He.
    destruct groups as [|g gs]; [done|].
    unfold update. rewrite Hw, He. by rewrite lookup_insert_eq.
Qed.
End Save.

(** ** The weight auto-fill *)

Lemma lastWeightOf_from w l :
  fold_left
    (fun lastWeight (kv : list N * Entry) =>
       match lastWeight, sets kv.2 with
       | None, g :: _ => Some (Group.weight g)
       | _, _ => lastWeight
       end) l (Some w) = Some w.
Proof. induction l as [|kv l IH]; [done|]. simpl. exact IH. Qed.

Lemma lastWeightOf_first k e rest g gs :
  sets e = g :: gs -> lastWeightOf ((k, e) :: rest) = Some (Group.weight g).
Proof. intros H. unfold lastWeightOf. simpl. rewrite H. apply lastWeightOf_from. Qed.

Section History.
Variable LIFTS : list Lift.t.
Variable NumberToString : bool -> N -> Z -> list N.

Lemma loadHistory_eq h db liftId st u :
  currentUser st = Some u -> readOk h = true ->
  loadHistory NumberToString h db liftId st =
  match historyOf (uid u) liftId db with
  | [] => set_historyList HistoryNone st
  | snapshot =>
    let st1 := set_historyList (HistoryEntries snapshot) st in
    match lastWeightOf snapshot, setGroups st with
    | Some lastWeight, firstRow :: rows =>
      match input_weight firstRow with
      | [] =>
        set_setGroups
          ({| input_sets := input_sets firstRow; input_reps := input_reps firstRow;
              input_weight := floatInputValue NumberToString lastWeight |} :: rows) st1
      | _ :: _ => st1
      end
    | _, _ => st1
    end
  end.
Proof.
  intros Hu Hr. unfold loadHistory, get, historyOf. rewrite Hu, Hr.
  destruct (limit 5 _) as [|kv l]; [done|].
  cbv zeta. destruct (lastWeightOf (kv :: l)); [|done].
  simpl. by destruct (setGroups st).
Qed.

(** C7.  After [loadHistory], for a signed-in user and a store that
    answers: when the history of the lift is not empty and its most recent
    entry has a first group, the first row of the form holds the weight of
    that group in its weight field if that field was empty, and the rows
    are untouched if it was not; when the history is empty the rows and the
    notes are untouched, and after [selectLift] the form is one row that
    holds the sets and reps of the prescription, if it parses, and an empty
    weight field, with empty notes. *)
Theorem loadHistory_weight h db liftId st u :
  currentUser st = Some u -> readOk h = true ->
  let st' := loadHistory NumberToString h db liftId st in
  (forall k e rest g gs row rows,
     historyOf (uid u) liftId db = (k, e) :: rest -> sets e = g :: gs ->
     setGroups st = row :: rows ->
     setGroups st' =
       fillWeight (floatInputValue NumberToString (Group.weight g)) row :: rows /\
     (input_weight row = [] ->
        input_weight <$> head (setGroups st') =
        Some (floatInputValue NumberToString (Group.weight g))) /\
     (input_weight row <> [] -> setGroups st' = setGroups st)) /\
  (historyOf (uid u) liftId db = [] ->
     setGroups st' = setGroups st /\ notesInput st' = notesInput st) /\
  (forall rx, historyOf (uid u) liftId db = [] ->
     is_Some (list_find (fun l => Lift.id l = liftId) LIFTS) ->
     setGroups (selectLift LIFTS NumberToString h db liftId rx st) =
     match parseRx rx with
     | Some parsed =>
       [ {| input_sets := intInputValue (maxSets parsed);
            input_reps := intInputValue (maxReps parsed);
            input_weight := [] |} ]
     | None => [createSetGroupRow]
     end /\
     notesInput (selectLift LIFTS NumberToString h db liftId rx st) = []).
Proof.
  intros Hu Hr st'. subst st'. split_and!.
  - intros k e rest g gs row rows Hh He Hrow.
    rewrite (loadHistory_eq h db liftId st u Hu Hr), Hh.
    cbv zeta. rewrite (lastWeightOf_first k e rest g gs He), Hrow.
    unfold fillWeight. destruct (input_weight row) eqn:Hw; simpl; split_and!; done.
  - intros Hh. by rewrite (loadHistory_eq h db liftId st u Hu Hr), Hh.
  - intros rx Hh [l Hl]. unfold selectLift. rewrite Hl.
    unfold fillFromRx. destruct (parseRx rx) as [parsed|]; simpl.
    + rewrite Hu. rewrite (loadHistory_eq h db liftId _ u) by done. by rewrite Hh.
    + rewrite Hu. rewrite (loadHistory_eq h db liftId _ u) by done. by rewrite Hh.
Qed.
End History.

Lemma readRow_passes row g : readRow row = Some g -> passes g.
Proof.
  unfold readRow, passes.
  destruct (falsyInt (parseInt (input_sets row))) eqn:E1; [done|].
  destruct (falsyInt (parseInt (input_reps row))) eqn:E2; [done|].
  destruct (isNaN (parseFloat (input_weight row))) eqn:E3; [done|].
  simpl. by intros [= <-].
Qed.

Lemma collectGroups_from rows valid acc :
  Forall passes acc ->
  Forall passes
    (fold_left
       (fun acc row =>
          match readRow row with
          | None => (false, acc.2)
          | Some g => (acc.1, acc.2 ++ [g])
          end) rows (valid, acc)).2.
Proof.
  revert valid acc. induction rows as [|row rows IH]; intros valid acc Hacc; [done|].
  simpl. destruct (readRow row) as [g|] eqn:E; apply IH; [|done].
  apply Forall_app. split; [done|]. constructor; [|done]. by eapply readRow_passes.
Qed.

Lemma collectGroups_passes rows : Forall passes (collectGroups rows).2.
Proof. apply collectGroups_from. constructor. Qed.

(** What the save handler ensures of an entry it creates: at least one
    group, and groups that pass the validation. *)
Lemma save_creates SESSIONS NumberToString h db st :
  truthy (editingEntryId st) = None ->
  (save SESSIONS NumberToString h db st).1 = db \/
  exists u liftId e,
    currentUser st = Some u /\ truthy (currentLiftId st) = Some liftId /\
    (save SESSIONS NumberToString h db st).1 = <[(uid u, freshId h) := e]> db /\
    lift e = liftId /\ date e = Some (serverTime h) /\
    sets e <> [] /\ Forall passes (sets e).
Proof.
  intros Hedit. unfold save.
  destruct (currentUser st) as [u|]; [|by left].
  destruct (truthy (currentLiftId st)) as [liftId|]; [|by left].
  pose proof (collectGroups_passes (setGroups st)) as Hp.
  destruct (collectGroups (setGroups st)) as [valid groups].
  destruct valid; simpl; [|by left].
  destruct groups as [|g groups]; simpl; [by left|].
  rewrite Hedit.
  destruct (if useSessionMode SESSIONS then _ else _) as [tag|]; [|by left].
  unfold add. destruct (writeOk h); [|by left].
  right. eexists u, liftId, _. split_and!; try done.
  all: try by destruct (match truthy _ with Some _ => _ | None => _ end).
  all: by simpl.
Qed.

(** ** The statements about the handlers at concrete inputs *)

Lemma determineCurrentSession_rotation_witness :
  determineCurrentSession 0 SESSIONS_lifts_js (hostAt (squatDay + 3 * msPerDay / 4))
    rotationStore (blankState (Some user1)) = 1%nat /\
  determineCurrentSession 0 SESSIONS_lifts_js (hostAt (squatDay + 3 * msPerDay / 2))
    rotationStore (blankState (Some user1)) = 2%nat.
Proof.
  assert (Hfirst : forall j s', (j < 1)%nat -> SESSIONS_lifts_js !! j = Some s' ->
                     Session.id s' <> js "session_b").
  { intros [|j] s' Hj; [|lia]. by intros [= <-]. }
  destruct (SESSIONS_lifts_js !! 1%nat) as [sessionB|] eqn:HB; [|by vm_compute in HB].
  assert (Session.id sessionB = js "session_b") as Hid
    by (vm_compute in HB; by injection HB as <-).
  split.
  - destruct (determineCurrentSession_rotation 0 SESSIONS_lifts_js
                (hostAt (squatDay + 3 * msPerDay / 4)) rotationStore
                (blankState (Some user1))) as (_ & _ & H).
    destruct (H user1 eq_refl eq_refl) as (_ & H1).
    destruct (H1 (js "e1") (benchEntry (Some (squatDay + msPerDay / 2)) (js "session_b")))
      as (_ & _ & H2); [vm_compute; reflexivity|].
    destruct (H2 (js "session_b") eq_refl) as (_ & H3).
    destruct (H3 1%nat sessionB (squatDay + msPerDay / 2) HB Hid Hfirst eq_refl)
      as (H4 & _).
    apply H4. vm_compute. reflexivity.
  - destruct (determineCurrentSession_rotation 0 SESSIONS_lifts_js
                (hostAt (squatDay + 3 * msPerDay / 2)) rotationStore
                (blankState (Some user1))) as (_ & _ & H).
    destruct (H user1 eq_refl eq_refl) as (_ & H1).
    destruct (H1 (js "e1") (benchEntry (Some (squatDay + msPerDay / 2)) (js "session_b")))
      as (_ & _ & H2); [vm_compute; reflexivity|].
    destruct (H2 (js "session_b") eq_refl) as (_ & H3).
    destruct (H3 1%nat sessionB (squatDay + msPerDay / 2) HB Hid Hfirst eq_refl)
      as (_ & H4).
    apply H4. vm_compute. discriminate.
Defined.

Lemma determineCurrentSession_pending_date_witness :
  determineCurrentSession 0 SESSIONS_lifts_js (hostAt squatDay) pendingStore
    (blankState (Some user1)) = 1%nat.
Proof.
  assert (Hfirst : forall j s', (j < 1)%nat -> SESSIONS_lifts_js !! j = Some s' ->
                     Session.id s' <> js "session_b").
  { intros [|j] s' Hj; [|lia]. by intros [= <-]. }
  destruct (SESSIONS_lifts_js !! 1%nat) as [sessionB|] eqn:HB; [|by vm_compute in HB].
  assert (Session.id sessionB = js "session_b") as Hid
    by (vm_compute in HB; by injection HB as <-).
  destruct (determineCurrentSession_pending_date 0 SESSIONS_lifts_js (hostAt squatDay)
              pendingStore (blankState (Some user1)) user1 (js "e1")
              (benchEntry None (js "session_b")) (js "session_b") 1%nat sessionB)
    as [H _];
    [reflexivity|reflexivity|vm_compute; reflexivity|reflexivity|reflexivity
    |exact HB|exact Hid|exact Hfirst|].
  apply H. reflexivity.
Defined.

(** The two readings of the clock on either side of local midnight: the
    pending entry of session B, the second of the catalogue, opens the
    third session. *)
Lemma determineCurrentSession_pending_date_counterexample :
  mostRecentEntry (uid user1) pendingStore = Some (js "e1", benchEntry None (js "session_b")) /\
  (Session.id <$> SESSIONS_lifts_js !! 1%nat) = Some (js "session_b") /\
  determineCurrentSession 0 SESSIONS_lifts_js midnightHost pendingStore
    (blankState (Some user1)) = 2%nat.
Proof. split_and!; by vm_compute. Qed.

Lemma loadTodayEntries_completed_witness :
  js "squat" ∈ todayEntries
    (loadTodayEntries 0 (hostAt (squatDay + 3 * msPerDay / 4)) squatStore
       (blankState (Some user1))).
Proof.
  destruct (loadTodayEntries_completed 0 (hostAt (squatDay + 3 * msPerDay / 4)) squatStore
              (blankState (Some user1)) user1 eq_refl eq_refl) as (Hiff & _).
  apply Hiff. exists (js "e1").
  eexists _, (squatDay + msPerDay / 2).
  split; [vm_compute; reflexivity|]. split; [reflexivity|].
  split; [reflexivity|]. vm_compute. discriminate.
Defined.

Lemma save_guard_witness :
  save SESSIONS_lifts_js plainNumber (hostAt squatDay) rotationStore (blankState None)
  = (rotationStore, blankState None).
Proof. apply save_guard. left. reflexivity. Defined.

Lemma save_edit_frame_witness :
  exists e',
    (save SESSIONS_lifts_js plainNumber (hostAt squatDay) rotationStore
       (formState (Some (js "e1")) "4" "6" "190")).1 !! (js "u1", js "e1") = Some e' /\
    lift e' = js "barbell_bench_press" /\
    date e' = Some (squatDay + msPerDay / 2) /\
    session e' = Some (js "session_b").
Proof.
  destruct (save_edit_frame SESSIONS_lifts_js plainNumber (hostAt squatDay) rotationStore
              (formState (Some (js "e1")) "4" "6" "190") (js "e1") eq_refl) as (H & _).
  destruct (H (js "u1", js "e1") (benchEntry (Some (squatDay + msPerDay / 2)) (js "session_b")))
    as (e' & He' & Hl & Hd & Hs & _); [vm_compute; reflexivity|].
  exists e'. split_and!; assumption.
Defined.

Lemma loadHistory_weight_witness :
  setGroups
    (loadHistory plainNumber (hostAt squatDay) rotationStore (js "barbell_bench_press")
       (blankState (Some user1)))
  = [ {| input_sets := []; input_reps := []; input_weight := js "185" |} ].
Proof.
  destruct (loadHistory_weight [] plainNumber (hostAt squatDay) rotationStore
              (js "barbell_bench_press") (blankState (Some user1)) user1 eq_refl eq_refl)
    as (H & _).
  destruct (H (js "e1") (benchEntry (Some (squatDay + msPerDay / 2)) (js "session_b"))
              [(js "e2", benchEntry (Some (squatDay - msPerDay / 2)) (js "session_a"))]
              (Group.mk (Int 3) (Int 5) (FDec false 185 0)) []
              createSetGroupRow [])
    as (H1 & _); [vm_compute; reflexivity|reflexivity|reflexivity|].
  exact H1.
Defined.

(** C8.  An entry that the save path accepts should hold at least one
    group, each with sets >= 1, reps >= 1 and weight >= 0, and a form that
    breaks this should be refused with a message and nothing written.  The
    validation of the handler asks less (counts that are numbers other
    than zero, a weight that is a number), so a form whose only row reads
    -3 sets, 5 reps and a weight of -20 goes through: the entry is written
    with these numbers and no message is shown. *)
Theorem save_writes_negative_groups NumberToString :
  let r := save SESSIONS_lifts_js NumberToString (hostAt squatDay) ∅
             (formState None "-3" "5" "-20") in
  r.1 !! (js "u1", js "new") =
    Some {| lift := js "barbell_bench_press"; date := Some squatDay;
            sets := [Group.mk (Int (-3)) (Int 5) (FDec true 20 0)];
            notes := js "felt strong"; session := Some (js "session_a") |} /\
  alerts r.2 = [].
Proof. vm_compute. split; reflexivity. Qed.

(** ** Text put into markup *)

Local Open Scope N_scope.

Lemma escapeHtml_cons c s : escapeHtml (c :: s) = escapeChar c ++ escapeHtml s.
Proof. reflexivity. Qed.

Lemma escapeHtml_app s t : escapeHtml (s ++ t) = escapeHtml s ++ escapeHtml t.
Proof. unfold escapeHtml. apply bind_app. Qed.

(** What [escapeChar] gives, by cases. *)
Lemma escapeChar_cases c :
  (c = 38 /\ escapeChar c = [38; 97; 109; 112; 59]) \/
  (c = 160 /\ escapeChar c = [38; 110; 98; 115; 112; 59]) \/
  (c = 60 /\ escapeChar c = [38; 108; 116; 59]) \/
  (c = 62 /\ escapeChar c = [38; 103; 116; 59]) \/
  (isMarkupChar c = false /\ escapeChar c = [c]).
Proof.
  unfold escapeChar, isMarkupChar.
  destruct (N.eqb_spec c 38) as [->|]; [by left|].
  destruct (N.eqb_spec c 160) as [->|]; [by right; left|].
  destruct (N.eqb_spec c 60) as [->|]; [by right; right; left|].
  destruct (N.eqb_spec c 62) as [->|]; [by right; right; right; left|].
  by right; right; right; right.
Qed.

Lemma isMarkupChar_false c :
  isMarkupChar c = false <-> c <> 38 /\ c <> 160 /\ c <> 60 /\ c <> 62.
Proof.
  unfold isMarkupChar. rewrite !orb_false_iff, !N.eqb_neq. tauto.
Qed.

Lemma escapeChar_length c : (1 <= length (escapeChar c))%nat.
Proof.
  destruct (escapeChar_cases c) as [[_ ->]|[[_ ->]|[[_ ->]|[[_ ->]|[_ ->]]]]]; simpl; lia.
Qed.

Lemma escapeChar_markup_length c :
  isMarkupChar c = true -> (1 < length (escapeChar c))%nat.
Proof.
  destruct (escapeChar_cases c) as [[_ ->]|[[_ ->]|[[_ ->]|[[_ ->]|[E _]]]]];
    simpl; try lia. congruence.
Qed.

Lemma escapeHtml_length s : (length s <= length (escapeHtml s))%nat.
Proof.
  induction s as [|c s IH]; [done|].
  rewrite escapeHtml_cons, length_app. pose proof (escapeChar_length c). simpl. lia.
Qed.

(** X1.  The text that [escapeHtml] gives holds no angle bracket, and
    every ampersand in it begins one of the entities [&amp;], [&nbsp;],
    [&lt;] and [&gt;]: put into markup, it opens no tag and no entity other
    than these four. *)
Theorem escapeHtml_markup_free s :
  Forall (fun c => c <> 60 /\ c <> 62) (escapeHtml s) /\
  (forall pre post, escapeHtml s = pre ++ 38 :: post ->
     exists name, name ∈ entityNames /\ name `prefix_of` post).
Proof.
  split.
  - induction s as [|c s IH]; [constructor|].
    rewrite escapeHtml_cons. apply Forall_app. split; [|done].
    destruct (escapeChar_cases c) as [[_ ->]|[[_ ->]|[[_ ->]|[[_ ->]|[E ->]]]]];
      repeat constructor; try done.
    all: apply isMarkupChar_false in E; tauto.
  - induction s as [|c s IH]; intros pre post H.
    { by destruct pre. }
    rewrite escapeHtml_cons in H.
    assert (Hrest : forall pre', escapeHtml s = pre' ++ 38 :: post ->
              exists name, name ∈ entityNames /\ name `prefix_of` post)
      by (intros pre'; apply IH).
    unfold entityNames.
    destruct (escapeChar_cases c) as [[_ E]|[[_ E]|[[_ E]|[[_ E]|[Hc E]]]]];
      rewrite E in H; clear E.
    + destruct pre as [|p0 pre]; simplify_eq/=.
      { exists (js "amp;"). split; [set_solver|]. by eexists. }
      do 4 (destruct pre as [|? pre]; simplify_eq/=). by eapply Hrest.
    + destruct pre as [|p0 pre]; simplify_eq/=.
      { exists (js "nbsp;"). split; [set_solver|]. by eexists. }
      do 5 (destruct pre as [|? pre]; simplify_eq/=). by eapply Hrest.
    + destruct pre as [|p0 pre]; simplify_eq/=.
      { exists (js "lt;"). split; [set_solver|]. by eexists. }
      do 3 (destruct pre as [|? pre]; simplify_eq/=). by eapply Hrest.
    + destruct pre as [|p0 pre]; simplify_eq/=.
      { exists (js "gt;"). split; [set_solver|]. by eexists. }
      do 3 (destruct pre as [|? pre]; simplify_eq/=). by eapply Hrest.
    + apply isMarkupChar_false in Hc.
      destruct pre as [|p0 pre]; simplify_eq/=; [tauto|]. by eapply Hrest.
Qed.

Lemma escapeHtml_fixed s : Forall (fun c => isMarkupChar c = false) s -> escapeHtml s = s.
Proof.
  induction 1 as [|c s Hc _ IH]; [done|].
  rewrite escapeHtml_cons, IH.
  destruct (escapeChar_cases c) as [[-> _]|[[-> _]|[[-> _]|[[-> _]|[_ ->]]]]]; done.
Qed.

(** X2.  [escapeHtml] loses nothing: two texts with the same result are the
    same text.  It gives a text back unchanged exactly when the text holds
    no ampersand, no no-break space and no angle bracket, and never gives a
    shorter one. *)
Theorem escapeHtml_injective :
  (forall s t, escapeHtml s = escapeHtml t -> s = t) /\
  (forall s, escapeHtml s = s <-> Forall (fun c => isMarkupChar c = false) s) /\
  (forall s, (length s <= length (escapeHtml s))%nat).
Proof.
  split_and!.
  - induction s as [|c s IH]; intros [|d t] H.
    + done.
    + rewrite escapeHtml_cons in H. pose proof (escapeChar_length d) as Hl.
      destruct (escapeChar d); simpl in *; [lia|done].
    + rewrite escapeHtml_cons in H. pose proof (escapeChar_length c) as Hl.
      destruct (escapeChar c); simpl in *; [lia|done].
    + rewrite !escapeHtml_cons in H.
      destruct (escapeChar_cases c) as [[-> E]|[[-> E]|[[-> E]|[[-> E]|[Hc E]]]]];
        rewrite E in H; clear E;
        destruct (escapeChar_cases d) as [[-> E]|[[-> E]|[[-> E]|[[-> E]|[Hd E]]]]];
        rewrite E in H; clear E; simplify_eq/=;
        try (f_equal; by apply IH).
      all: try (apply isMarkupChar_false in Hc; tauto).
      all: try (apply isMarkupChar_false in Hd; tauto).
  - intros s. split; [|apply escapeHtml_fixed].
    induction s as [|c s IH]; intros H; [constructor|].
    rewrite escapeHtml_cons in H.
    destruct (isMarkupChar c) eqn:Hc.
    + apply escapeChar_markup_length in Hc.
      apply (f_equal length) in H. rewrite length_app in H.
      pose proof (escapeHtml_length s). simpl in H. lia.
    + constructor; [done|]. apply IH.
      destruct (escapeChar_cases c) as [[-> _]|[[-> _]|[[-> _]|[[-> _]|[_ E]]]]];
        try done.
      rewrite E in H. by injection H.
  - apply escapeHtml_length.
Qed.

Local Close Scope N_scope.

(** ** Numbers written and read back *)

Local Open Scope N_scope.

Lemma radixValue_snoc ds d :
  radixValue 10 (ds ++ [d]) = radixValue 10 ds * 10 + default 0 (digitValue d).
Proof. unfold radixValue. by rewrite fold_left_app. Qed.

Lemma digit_of_mod n :
  isDigit (48 + n mod 10) = true /\ default 0 (digitValue (48 + n mod 10)) = n mod 10.
Proof.
  assert (H : n mod 10 < 10) by (by apply N.mod_upper_bound).
  generalize dependent (n mod 10). intros r H.
  assert (Hd : isDigit (48 + r) = true) by (apply isDigit_spec; lia).
  split; [done|]. unfold digitValue. rewrite Hd. simpl. lia.
Qed.

Lemma div_mod_10 n : n = n / 10 * 10 + n mod 10.
Proof. rewrite N.mul_comm. by apply N.div_mod. Qed.

Lemma digitsOf_spec fuel n acc :
  n < 10 ^ N.of_nat (S fuel) ->
  exists ds, digitsOf (S fuel) n acc = ds ++ acc /\ ds <> [] /\
             allOf isDigit ds /\ radixValue 10 ds = n.
Proof.
  revert n acc. induction fuel as [|fuel IH]; intros n acc Hn.
  - change (10 ^ N.of_nat 1) with 10 in Hn.
    destruct (digit_of_mod n) as [Hd Hv].
    exists [48 + n mod 10]. cbn [digitsOf].
    rewrite (N.div_small n 10) by done. simpl. split_and!; try done.
    + by repeat constructor.
    + unfold radixValue. simpl. rewrite Hv. by apply N.mod_small.
  - destruct (digit_of_mod n) as [Hd Hv].
    cbn [digitsOf]. destruct (N.eqb_spec (n / 10) 0) as [E|E].
    + exists [48 + n mod 10]. split_and!; try done.
      * by repeat constructor.
      * unfold radixValue. simpl. rewrite Hv.
        rewrite (div_mod_10 n) at 2. by rewrite E.
    + destruct (IH (n / 10) ((48 + n mod 10) :: acc)) as (ds & Hds & Hne & Hall & Hval).
      { apply N.Div0.div_lt_upper_bound.
        rewrite <- N.pow_succ_r'. by rewrite <- Nat2N.inj_succ. }
      exists (ds ++ [48 + n mod 10]). split_and!.
      * rewrite <- app_assoc. exact Hds.
      * by destruct ds.
      * apply Forall_app. split; [done|]. by repeat constructor.
      * rewrite radixValue_snoc, Hval, Hv. symmetry. apply div_mod_10.
Qed.

Lemma pos_lt_pow2 p : N.pos p < 2 ^ N.of_nat (Pos.size_nat p).
Proof.
  induction p as [p IH|p IH|]; cbn [Pos.size_nat];
    rewrite ?Nat2N.inj_succ, ?N.pow_succ_r'; [lia|lia|done].
Qed.

Lemma size_nat_fuel n : n < 10 ^ N.of_nat (S (N.size_nat n)).
Proof.
  rewrite Nat2N.inj_succ, N.pow_succ_r'.
  assert (n < 2 ^ N.of_nat (N.size_nat n)) as H.
  { destruct n as [|p]; [done|]. apply pos_lt_pow2. }
  assert (2 ^ N.of_nat (N.size_nat n) <= 10 ^ N.of_nat (N.size_nat n)) by (apply N.pow_le_mono_l; lia). lia.
Qed.

(** The numeral that [IntToString] writes. *)
Lemma IntToString_numeral z :
  exists ds, numeral ds /\ decimalValue ds = Z.abs z /\
             IntToString z = if (z <? 0)%Z then 45 :: ds else ds.
Proof.
  unfold IntToString.
  destruct (digitsOf_spec (N.size_nat (Z.abs_N z)) (Z.abs_N z) [] (size_nat_fuel _))
    as (ds & Hds & Hne & Hall & Hval).
  rewrite app_nil_r in Hds. exists ds. split_and!.
  - by split.
  - unfold decimalValue. rewrite Hval. apply N2Z.inj_abs_N.
  - by rewrite Hds.
Qed.

Lemma IntToString_nonempty z : IntToString z <> [].
Proof.
  destruct (IntToString_numeral z) as (ds & [Hne _] & _ & ->).
  by destruct (z <? 0)%Z.
Qed.

Lemma parseInt_minus A :
  numeral A -> parseInt (45 :: A) = doubleOfInteger (- decimalValue A)%Z.
Proof.
  intros HA. destruct (numeral_cons A HA) as (a & A' & -> & Ha).
  destruct HA as [_ HA]. unfold parseInt, trimStart.
  rewrite dropWhile_headNot by done.
  change (45 =? 45) with true. cbv iota beta.
  assert (Hr : (match a :: A' with
                | z :: x :: t =>
                  if (z =? 48) && ((x =? 120) || (x =? 88)) then (16, t) else (10, a :: A')
                | _ => (10, a :: A')
                end) = (10, a :: A')).
  { destruct A' as [|x t]; [done|].
    apply Forall_cons in HA as [_ HA]. apply Forall_cons in HA as [Hx _].
    apply isDigit_spec in Hx.
    replace (x =? 120) with false by (symmetry; apply N.eqb_neq; lia).
    replace (x =? 88) with false by (symmetry; apply N.eqb_neq; lia).
    by rewrite andb_false_r. }
  rewrite Hr.
  rewrite takeWhile_all by (eapply allOf_impl; [apply isRadixDigit_digit|done]).
  reflexivity.
Qed.

(** The decimal numeral of an integer reads as the double nearest to the
    integer, which is the integer itself below 2^53. *)
Lemma parseInt_IntToString_double z : parseInt (IntToString z) = doubleOfInteger z.
Proof.
  destruct (IntToString_numeral z) as (ds & Hds & Hval & ->).
  destruct (Z.ltb_spec z 0).
  - rewrite parseInt_minus by done. f_equal. lia.
  - rewrite parseInt_numeral by done. f_equal. lia.
Qed.

Lemma parseInt_IntToString z :
  (Z.abs z < 2 ^ 53)%Z -> parseInt (IntToString z) = Int z.
Proof.
  intros Hz. rewrite parseInt_IntToString_double. by apply doubleOfInteger_safe.
Qed.

Lemma NumberToStringInt_safe z :
  (Z.abs z < 2 ^ 53)%Z -> NumberToStringInt z = IntToString z.
Proof. intros Hz. unfold NumberToStringInt. by rewrite (proj2 (Z.ltb_lt _ _) Hz). Qed.

Lemma parseInt_intInputValue z :
  (Z.abs z < 2 ^ 53)%Z -> parseInt (intInputValue (Int z)) = Int z.
Proof.
  intros Hz. cbn [intInputValue]. rewrite NumberToStringInt_safe by done.
  by apply parseInt_IntToString.
Qed.

Local Close Scope N_scope.

(** ** Calendar dates and day numbers *)

Lemma yoe_bounds doe :
  0 <= doe < 146097 ->
  let yoe := (doe - doe / 1460 + doe / 36524 - doe / 146096) / 365 in
  let doy := doe - (365 * yoe + yoe / 4 - yoe / 100) in
  0 <= yoe <= 399 /\ 0 <= doy <= 365.
Proof.
  intros H yoe doy. subst yoe doy. Z.div_mod_to_equations. lia.
Qed.

Lemma civil_month_day doy :
  0 <= doy <= 365 ->
  let mp := (5 * doy + 2) / 153 in
  let d := doy - (153 * mp + 2) / 5 + 1 in
  0 <= mp <= 11 /\ 1 <= d <= 31.
Proof.
  intros H mp d. subst mp d. Z.div_mod_to_equations. lia.
Qed.

(** A day number is found again from its calendar date, whose month is
    one of the twelve. *)
Lemma daysFromCivil_civilFromDays n :
  daysFromCivil (civilFromDays n).1.1 (civilFromDays n).1.2 (civilFromDays n).2 = n /\
  1 <= (civilFromDays n).1.2 <= 12.
Proof.
  unfold civilFromDays.
  set (z := n + 719468).
  set (era := z / 146097).
  set (doe := z - era * 146097).
  assert (Hdoe : 0 <= doe < 146097) by (subst doe era; Z.div_mod_to_equations; lia).
  pose proof (yoe_bounds doe Hdoe) as Hy. cbv zeta in Hy.
  set (yoe := (doe - doe / 1460 + doe / 36524 - doe / 146096) / 365) in *.
  set (doy := doe - (365 * yoe + yoe / 4 - yoe / 100)) in *.
  destruct Hy as [Hyoe Hdoy].
  pose proof (civil_month_day doy Hdoy) as Hm. cbv zeta in Hm.
  set (mp := (5 * doy + 2) / 153) in *.
  set (d := doy - (153 * mp + 2) / 5 + 1) in *.
  destruct Hm as [Hmp Hd].
  cbn [fst snd]. unfold daysFromCivil.
  destruct (Z.ltb_spec mp 10) as [Hlt|Hge].
  - rewrite (proj2 (Z.leb_gt (mp + 3) 2)) by lia.
    replace ((yoe + era * 400) / 400) with era by (Z.div_mod_to_equations; lia).
    replace (mp + 3 - 3) with mp by lia.
    split; [|lia]. subst d doy z. Z.div_mod_to_equations. lia.
  - rewrite (proj2 (Z.leb_le (mp - 9) 2)) by lia.
    replace ((yoe + era * 400 + 1 - 1) / 400) with era by (Z.div_mod_to_equations; lia).
    replace (mp - 9 + 9) with mp by lia.
    split; [|lia]. subst d doy z. Z.div_mod_to_equations. lia.
Qed.

Lemma civilFromDays_inj a b : civilFromDays a = civilFromDays b -> a = b.
Proof.
  intros H. rewrite <- (proj1 (daysFromCivil_civilFromDays a)).
  rewrite <- (proj1 (daysFromCivil_civilFromDays b)). by rewrite H.
Qed.

(** Two instants have the same year, month and day of the month exactly
    when they fall on the same local day. *)
Lemma localDate_localDay tzOffset a b :
  localDate tzOffset a = localDate tzOffset b <-> localDay tzOffset a = localDay tzOffset b.
Proof.
  unfold localDate, getFullYear, getMonth, getDate.
  split; [|by intros ->]. intros H. apply civilFromDays_inj.
  destruct (civilFromDays (localDay tzOffset a)) as [[y m] d].
  destruct (civilFromDays (localDay tzOffset b)) as [[y' m'] d'].
  cbn [fst snd] in H. injection H as H1 H2 H3.
  assert (m = m') by lia. congruence.
Qed.

Lemma daysFromCivil_day y m d : daysFromCivil y m 1 + d - 1 = daysFromCivil y m d.
Proof. unfold daysFromCivil. lia. Qed.

(** [new Date(d.getFullYear(), d.getMonth(), d.getDate())] is the local
    midnight of [d], for a year that is not one of 0..99. *)
Lemma newDate_startOfDay tzOffset t :
  getFullYear tzOffset t < 0 \/ 99 < getFullYear tzOffset t ->
  newDate tzOffset (getFullYear tzOffset t) (getMonth tzOffset t) (getDate tzOffset t)
  = startOfDay tzOffset t.
Proof.
  intros Hy. unfold newDate, MakeDay, startOfDay.
  replace ((0 <=? getFullYear tzOffset t) && (getFullYear tzOffset t <=? 99)) with false
    by (symmetry; apply andb_false_iff; rewrite Z.leb_gt, Z.leb_gt; lia).
  unfold getFullYear, getMonth, getDate in *.
  destruct (daysFromCivil_civilFromDays (localDay tzOffset t)) as [Hrt Hm].
  set (c := civilFromDays (localDay tzOffset t)) in *.
  replace ((c.1.2 - 1) / 12) with 0 by (Z.div_mod_to_equations; lia).
  replace ((c.1.2 - 1) mod 12 + 1) with c.1.2 by (Z.div_mod_to_equations; lia).
  rewrite Z.add_0_r, daysFromCivil_day, Hrt. done.
Qed.

Lemma roundDiv_mul k : roundDiv (k * msPerDay) (1000 * 60 * 60 * 24) = k.
Proof. unfold roundDiv, msPerDay. Z.div_mod_to_equations. lia. Qed.

Lemma diffDays_localDay tzOffset now date :
  getFullYear tzOffset now < 0 \/ 99 < getFullYear tzOffset now ->
  getFullYear tzOffset date < 0 \/ 99 < getFullYear tzOffset date ->
  diffDays tzOffset now date = localDay tzOffset now - localDay tzOffset date.
Proof.
  intros Hn Hd. unfold diffDays. rewrite !newDate_startOfDay by done.
  unfold startOfDay.
  replace (localDay tzOffset now * msPerDay - tzOffset -
           (localDay tzOffset date * msPerDay - tzOffset))
    with ((localDay tzOffset now - localDay tzOffset date) * msPerDay) by lia.
  apply roundDiv_mul.
Qed.

Lemma agoStr_today d : agoStr d = js "today" <-> d = 0.
Proof.
  unfold agoStr. destruct (Z.eqb_spec d 0) as [->|H0]; [done|].
  destruct (Z.eqb_spec d 1) as [->|H1]; [done|].
  split; [|done]. intros H. apply (f_equal length) in H.
  rewrite length_app in H. simpl in H. lia.
Qed.

Lemma agoStr_one d : agoStr d = js "1 day ago" <-> d = 1.
Proof.
  unfold agoStr. destruct (Z.eqb_spec d 0) as [->|H0]; [done|].
  destruct (Z.eqb_spec d 1) as [->|H1]; [done|].
  split; [|done]. intros H. apply (f_equal length) in H.
  rewrite length_app in H. simpl in H.
  pose proof (IntToString_nonempty d). destruct (IntToString d); simpl in *; [done|lia].
Qed.

(** X4.  For instants whose local year is not one of 0..99, [diffDays]
    is the number of local days from the day of the entry to today, so
    the label of a recent session reads "today" exactly when the entry was
    made on today's local day, "1 day ago" exactly when it was made on the
    day before, and otherwise gives that number of days: a sign when it is
    negative and the decimal numeral of its absolute value, which reads
    back as the double nearest to the number, the number itself below
    2^53. *)
Theorem recent_label_counts_days tzOffset now date :
  getFullYear tzOffset now < 0 \/ 99 < getFullYear tzOffset now ->
  getFullYear tzOffset date < 0 \/ 99 < getFullYear tzOffset date ->
  let n := localDay tzOffset now - localDay tzOffset date in
  diffDays tzOffset now date = n /\
  (agoStr (diffDays tzOffset now date) = js "today" <->
     localDay tzOffset date = localDay tzOffset now) /\
  (agoStr (diffDays tzOffset now date) = js "1 day ago" <->
     localDay tzOffset date = localDay tzOffset now - 1) /\
  (n <> 0 -> n <> 1 ->
     exists digits ds,
       agoStr (diffDays tzOffset now date) = digits ++ js " days ago" /\
       digits = (if n <? 0 then [45%N] else []) ++ ds /\
       numeral ds /\ decimalValue ds = Z.abs n /\
       parseInt digits = doubleOfInteger n /\
       (Z.abs n < 2 ^ 53 -> parseInt digits = Int n)).
Proof.
  intros Hn Hd n. rewrite diffDays_localDay by done. fold n.
  split_and!; [done| | |].
  - rewrite agoStr_today. lia.
  - rewrite agoStr_one. lia.
  - intros H0 H1. destruct (IntToString_numeral n) as (ds & Hds & Hval & E).
    exists (IntToString n), ds. split_and!; try done.
    + unfold agoStr. by rewrite (proj2 (Z.eqb_neq n 0)), (proj2 (Z.eqb_neq n 1)).
    + rewrite E. by destruct (n <? 0).
    + apply parseInt_IntToString_double.
    + apply parseInt_IntToString.
Qed.

Lemma recent_label_counts_days_witness :
  agoStr (diffDays 0 (squatDay + 3 * msPerDay / 4) (squatDay - msPerDay / 2)) = js "1 day ago".
Proof.
  destruct (recent_label_counts_days 0 (squatDay + 3 * msPerDay / 4) (squatDay - msPerDay / 2))
    as (_ & _ & H & _).
  - right. vm_compute. reflexivity.
  - right. vm_compute. reflexivity.
  - apply H. vm_compute. reflexivity.
Defined.

(** ** The recent sessions *)

Lemma seenSessions_snoc l kv :
  seenSessions (l ++ [kv]) =
  match truthy (session kv.2), date kv.2 with
  | Some sid, Some t =>
    if decide (sid ∈ (seenSessions l).*1) then seenSessions l
    else seenSessions l ++ [(sid, t)]
  | _, _ => seenSessions l
  end.
Proof. unfold seenSessions. by rewrite fold_left_app. Qed.

Lemma elem_of_snoc {A} (l : list A) (x y : A) : y ∈ l ++ [x] <-> y ∈ l \/ y = x.
Proof. by rewrite elem_of_app, list_elem_of_singleton. Qed.

(** The sessions of [seen] are those of the entries that have a session
    and a date. *)
Lemma seenSessions_ids l sid :
  sid ∈ (seenSessions l).*1 <->
  exists kv t, kv ∈ l /\ truthy (session kv.2) = Some sid /\ date kv.2 = Some t.
Proof.
  induction l as [|kv l IH] using rev_ind.
  { split; [by intros ?%elem_of_nil|]. by intros (? & ? & ?%elem_of_nil & _). }
  assert (Hold : (exists kv0 t, kv0 ∈ l /\ truthy (session kv0.2) = Some sid /\
                    date kv0.2 = Some t) ->
                 exists kv0 t, kv0 ∈ l ++ [kv] /\ truthy (session kv0.2) = Some sid /\
                    date kv0.2 = Some t).
  { intros (kv0 & t & Hin & ?). exists kv0, t. split; [|done]. apply elem_of_snoc. by left. }
  rewrite seenSessions_snoc.
  destruct (truthy (session kv.2)) as [sid'|] eqn:Hs;
    [destruct (date kv.2) as [t'|] eqn:Hd|].
  - destruct (decide (sid' ∈ (seenSessions l).*1)) as [Hin|Hnin].
    + rewrite IH. split; [done|].
      intros (kv' & t & [Hkv| ->]%elem_of_snoc & Hs' & Hd'); [by exists kv', t|].
      apply IH. congruence.
    + rewrite fmap_app. cbn [fmap list_fmap fst]. rewrite elem_of_snoc, IH. split.
      * intros [H| ->]; [by apply Hold|].
        exists kv, t'. split; [|done]. apply elem_of_snoc. by right.
      * intros (kv' & t & [Hkv| ->]%elem_of_snoc & Hs' & Hd'); [left; by exists kv', t|].
        right. congruence.
  - rewrite IH. split; [done|].
    intros (kv' & t & [Hkv| ->]%elem_of_snoc & Hs' & Hd'); [by exists kv', t|congruence].
  - rewrite IH. split; [done|].
    intros (kv' & t & [Hkv| ->]%elem_of_snoc & Hs' & Hd'); [by exists kv', t|congruence].
Qed.

Lemma seenSessions_NoDup l : NoDup (seenSessions l).*1.
Proof.
  induction l as [|kv l IH] using rev_ind; [constructor|].
  rewrite seenSessions_snoc.
  destruct (truthy (session kv.2)) as [sid|]; [|done].
  destruct (date kv.2) as [t|]; [|done].
  destruct (decide (sid ∈ (seenSessions l).*1)); [done|].
  rewrite fmap_app. apply NoDup_app. split_and!; [done| |by apply NoDup_singleton].
  intros x Hx Hx'%list_elem_of_singleton. by subst.
Qed.

(** A pair of [seen] comes from the first entry of its session that has a
    date. *)
Lemma seenSessions_first l sid t :
  (sid, t) ∈ seenSessions l ->
  exists l1 kv l2, l = l1 ++ kv :: l2 /\
    truthy (session kv.2) = Some sid /\ date kv.2 = Some t /\
    forall kv', kv' ∈ l1 -> truthy (session kv'.2) = Some sid -> date kv'.2 = None.
Proof.
  induction l as [|kv l IH] using rev_ind; [by intros ?%elem_of_nil|].
  rewrite seenSessions_snoc. intros Hin.
  assert (Hold : (sid, t) ∈ seenSessions l ->
    exists l1 kv0 l2, l ++ [kv] = l1 ++ kv0 :: l2 /\
      truthy (session kv0.2) = Some sid /\ date kv0.2 = Some t /\
      forall kv', kv' ∈ l1 -> truthy (session kv'.2) = Some sid -> date kv'.2 = None).
  { intros (l1 & kv0 & l2 & -> & ?)%IH. exists l1, kv0, (l2 ++ [kv]).
    split; [|done]. by rewrite <- app_assoc. }
  destruct (truthy (session kv.2)) as [sid'|] eqn:Hs; [|by apply Hold].
  destruct (date kv.2) as [t'|] eqn:Hd; [|by apply Hold].
  destruct (decide (sid' ∈ (seenSessions l).*1)) as [Hi|Hni]; [by apply Hold|].
  apply elem_of_snoc in Hin as [Hin|Hin]; [by apply Hold|].
  injection Hin as -> ->.
  exists l, kv, []. split_and!; try done.
  intros kv' Hkv' Hs'. destruct (date kv'.2) as [t0|] eqn:Hd'; [|done].
  exfalso. apply Hni, seenSessions_ids. by exists kv', t0.
Qed.

(** The dates of [seen] go down when those of the snapshot do. *)
Lemma seenSessions_sorted l :
  StronglySorted newerFirst l ->
  StronglySorted (fun x y : list N * Z => y.2 <= x.2) (seenSessions l).
Proof.
  induction l as [|kv l IH] using rev_ind; [constructor|].
  intros Hs. rewrite seenSessions_snoc.
  pose proof (StronglySorted_app_1_l _ _ _ Hs) as Hl.
  destruct (truthy (session kv.2)) as [sid|] eqn:Hsid; [|by apply IH].
  destruct (date kv.2) as [t|] eqn:Hd; [|by apply IH].
  destruct (decide (sid ∈ (seenSessions l).*1)); [by apply IH|].
  apply StronglySorted_app. split_and!; [|by apply IH|by repeat constructor].
  intros [sid1 t1] [sid2 t2] H1 H2%list_elem_of_singleton. injection H2 as -> ->. simpl.
  apply seenSessions_first in H1 as (l1 & kv1 & l2 & -> & _ & Hd1 & _).
  assert (Hn : newerFirst kv1 kv).
  { eapply (StronglySorted_app_1_elem_of _ _ _ _ _ Hs); [|by left].
    apply elem_of_app. right. by left. }
  unfold newerFirst in Hn. by rewrite Hd, Hd1 in Hn.
Qed.

Lemma orderByDateDesc_sorted l : StronglySorted newerFirst (orderByDateDesc l).
Proof. apply StronglySorted_merge_sort; apply _. Qed.

Lemma elem_of_orderByDateDesc l x : x ∈ orderByDateDesc l <-> x ∈ l.
Proof. unfold orderByDateDesc. by rewrite merge_sort_Permutation. Qed.

Lemma limit_sorted n l : StronglySorted newerFirst l -> StronglySorted newerFirst (limit n l).
Proof.
  intros H. unfold limit. rewrite <- (take_drop n l) in H.
  by apply StronglySorted_app_1_l in H.
Qed.

Lemma length_omap_le {A B} (f : A -> option B) (l : list A) :
  (length (omap f l) <= length l)%nat.
Proof.
  induction l as [|x l IH]; [done|].
  change (omap f (x :: l)) with (match f x with Some y => y :: omap f l | None => omap f l end).
  destruct (f x); simpl; lia.
Qed.

Lemma elem_of_limit n l x : x ∈ limit n l -> x ∈ l.
Proof. intros H. rewrite <- (take_drop n l). apply elem_of_app. by left. Qed.

(** An entry that a sorted query leaves out beyond its limit is no newer
    than the entries it gives. *)
Lemma limit_newest n l x y :
  StronglySorted newerFirst l -> x ∈ limit n l -> y ∈ l ->
  y ∈ limit n l \/ newerFirst x y.
Proof.
  intros Hs Hx Hy. unfold limit in *.
  rewrite <- (take_drop n l) in Hs, Hy.
  apply elem_of_app in Hy as [Hy|Hy]; [by left|right].
  by eapply StronglySorted_app_1_elem_of.
Qed.

(** X3.  The sessions that [loadRecentSessions] lists, read from the fifty
    newest entries of the user: no session twice, newest first, each with
    the date of an entry of that session than which the user has no later
    dated entry of the same session; when the user has at most fifty
    entries, every session that has a dated entry is among them.  At most
    three items are shown, one for each of the first three of these
    sessions that the catalogue lists, and none without a user or when the
    lookup fails. *)
Theorem loadRecentSessions_newest tzOffset SESSIONS h db st :
  (forall u, currentUser st = Some u -> readOk h = true ->
     let seen := seenSessions (limit 50 (orderByDateDesc (entriesOf (uid u) db))) in
     NoDup seen.*1 /\
     StronglySorted (fun x y : list N * Z => y.2 <= x.2) seen /\
     (forall sid t, (sid, t) ∈ seen ->
        (exists k e, db !! (uid u, k) = Some e /\
                     truthy (session e) = Some sid /\ date e = Some t) /\
        (forall k e t', db !! (uid u, k) = Some e ->
           truthy (session e) = Some sid -> date e = Some t' -> t' <= t)) /\
     ((length (entriesOf (uid u) db) <= 50)%nat ->
        forall k e sid t, db !! (uid u, k) = Some e ->
          truthy (session e) = Some sid -> date e = Some t -> sid ∈ seen.*1) /\
     loadRecentSessions tzOffset SESSIONS h db st =
       omap (recentItem tzOffset SESSIONS (now h)) (take 3 seen)) /\
  (length (loadRecentSessions tzOffset SESSIONS h db st) <= 3)%nat /\
  (currentUser st = None \/ readOk h = false ->
     loadRecentSessions tzOffset SESSIONS h db st = []).
Proof.
  split_and!.
  - intros u Hu Hr seen.
    pose proof (orderByDateDesc_sorted (entriesOf (uid u) db)) as Hsorted.
    split_and!.
    + apply seenSessions_NoDup.
    + apply seenSessions_sorted. by apply limit_sorted.
    + intros sid t Hin.
      pose proof Hin as (l1 & [k0 e0] & l2 & Hl & Hs0 & Hd0 & Hfirst)%seenSessions_first.
      simpl in Hs0, Hd0.
      assert (Hin0 : (k0, e0) ∈ limit 50 (orderByDateDesc (entriesOf (uid u) db))).
      { rewrite Hl. apply elem_of_app. right. by left. }
      split.
      * exists k0, e0. split; [|done].
        by apply elem_of_entriesOf, elem_of_orderByDateDesc, (elem_of_limit 50).
      * intros k e t' He Hs Hd.
        assert (Hall : (k, e) ∈ orderByDateDesc (entriesOf (uid u) db))
          by by apply elem_of_orderByDateDesc, elem_of_entriesOf.
        destruct (limit_newest 50 _ _ _ Hsorted Hin0 Hall) as [Hlim|Hn].
        -- rewrite Hl in Hlim.
           apply elem_of_app in Hlim as [H1|H2].
           ++ specialize (Hfirst _ H1 Hs). simpl in Hfirst. congruence.
           ++ apply elem_of_cons in H2 as [[= -> ->]|H2]; [by simplify_eq|].
              pose proof (limit_sorted 50 _ Hsorted) as Hsl. rewrite Hl in Hsl.
              apply StronglySorted_app_1_r, StronglySorted_inv in Hsl as [_ Hsl].
              rewrite Forall_forall in Hsl. specialize (Hsl _ H2).
              unfold newerFirst in Hsl. simpl in Hsl. by rewrite Hd, Hd0 in Hsl.
        -- unfold newerFirst in Hn. simpl in Hn. by rewrite Hd, Hd0 in Hn.
    + intros Hlen k e sid t He Hs Hd. apply seenSessions_ids.
      exists (k, e), t. split; [|done].
      unfold limit. rewrite take_ge.
      * by apply elem_of_orderByDateDesc, elem_of_entriesOf.
      * unfold orderByDateDesc. by rewrite merge_sort_Permutation.
    + unfold loadRecentSessions, get. by rewrite Hu, Hr.
  - unfold loadRecentSessions, get.
    destruct (currentUser st) as [u|]; [|simpl; lia].
    destruct (readOk h); [|simpl; lia].
    etrans; [apply length_omap_le|]. rewrite length_take. lia.
  - unfold loadRecentSessions, get. intros [->| ->]; [done|].
    by destruct (currentUser st).
Qed.

Lemma loadRecentSessions_newest_witness :
  loadRecentSessions 0 SESSIONS_lifts_js (hostAt (squatDay + 3 * msPerDay / 4))
    rotationStore (blankState (Some user1))
  = [ {| recent_name := js "Session B"; recent_ago := js "today" |};
      {| recent_name := js "Session A"; recent_ago := js "1 day ago" |} ].
Proof.
  destruct (loadRecentSessions_newest 0 SESSIONS_lifts_js
              (hostAt (squatDay + 3 * msPerDay / 4)) rotationStore
              (blankState (Some user1))) as (H & _).
  destruct (H user1 eq_refl eq_refl) as (_ & _ & _ & _ & ->).
  vm_compute. reflexivity.
Defined.

(** ** The session overview *)

Lemma findLift_Some LIFTS liftId lift :
  findLift LIFTS liftId = Some lift -> lift ∈ LIFTS /\ Lift.id lift = liftId.
Proof.
  unfold findLift. destruct (list_find _ LIFTS) as [[i l]|] eqn:E; [|done].
  intros [= <-]. apply list_find_Some in E as (Hl & Hid & _).
  split; [by eapply list_elem_of_lookup_2|done].
Qed.

Lemma findLift_elem_of LIFTS lift : lift ∈ LIFTS -> is_Some (findLift LIFTS (Lift.id lift)).
Proof.
  intros Hin. unfold findLift.
  destruct (list_find (fun l => Lift.id l = Lift.id lift) LIFTS) as [[i l]|] eqn:E;
    [by eexists|].
  exfalso. rewrite list_find_None, Forall_forall in E. by apply (E lift).
Qed.

Lemma filter_all {A} (P : A -> Prop) `{!forall x, Decision (P x)} (l : list A) :
  Forall P l -> filter P l = l.
Proof.
  induction 1 as [|x l Hx _ IH]; [done|]. by rewrite filter_cons_True, IH.
Qed.

Lemma omap_cons {A B} (f : A -> option B) x l :
  omap f (x :: l) = match f x with Some y => y :: omap f l | None => omap f l end.
Proof. reflexivity. Qed.

Lemma overviewRows_cons item items :
  overviewRows (item :: items) =
  match item with LiftRow row => [row] | ChoiceGroup _ rows => rows end ++ overviewRows items.
Proof. reflexivity. Qed.

Lemma renderChoice_ids LIFTS today (choose : list (list N * list N)) :
  row_liftId <$> omap (renderChoice LIFTS today) choose =
  filter (fun liftId => is_Some (findLift LIFTS liftId)) (fst <$> choose).
Proof.
  induction choose as [|[liftId rx] choose IH]; [done|].
  rewrite omap_cons, fmap_cons, filter_cons. unfold renderChoice at 1. cbn [fst snd].
  destruct (findLift LIFTS liftId) as [lift|] eqn:E.
  - rewrite decide_True by done. rewrite fmap_cons, IH. done.
  - rewrite decide_False by (by intros [? ?]). done.
Qed.

Lemma renderSessionOverview_ids LIFTS today (slots : list Slot) :
  row_liftId <$> overviewRows (omap (renderSlot LIFTS today) slots) =
  filter (fun liftId => is_Some (findLift LIFTS liftId)) (slots ≫= slotLifts).
Proof.
  induction slots as [|slot slots IH]; [done|].
  rewrite omap_cons, bind_cons, filter_app, <- IH.
  destruct slot as [liftId rx|choose note]; cbn [renderSlot slotLifts].
  - destruct (findLift LIFTS liftId) as [lift|] eqn:E.
    + rewrite overviewRows_cons, fmap_app. f_equal.
      rewrite filter_cons, decide_True by (by rewrite E). done.
    + rewrite filter_cons, decide_False by (rewrite E; by intros [? ?]). done.
  - rewrite overviewRows_cons, fmap_app. f_equal. apply renderChoice_ids.
Qed.

Lemma renderChoice_row LIFTS today choice row :
  renderChoice LIFTS today choice = Some row ->
  exists lift, lift ∈ LIFTS /\ Lift.id lift = row_liftId row /\
    row = createOverviewRow today lift choice.2 choice.1.
Proof.
  unfold renderChoice. destruct (findLift LIFTS choice.1) as [lift|] eqn:E; [|done].
  intros [= <-]. apply findLift_Some in E as [Hin Hid]. by exists lift.
Qed.

Lemma elem_of_overviewRows LIFTS today (slots : list Slot) row :
  row ∈ overviewRows (omap (renderSlot LIFTS today) slots) ->
  exists slot lift rx, slot ∈ slots /\ lift ∈ LIFTS /\ Lift.id lift = row_liftId row /\
    rx ∈ slotRxs slot /\ row = createOverviewRow today lift rx (row_liftId row).
Proof.
  unfold overviewRows. rewrite list_elem_of_bind.
  intros (item & Hrow & (slot & Hslot & Hitem)%list_elem_of_omap).
  exists slot. destruct slot as [liftId rx|choose note]; cbn [renderSlot] in Hitem.
  - destruct (findLift LIFTS liftId) as [lift|] eqn:E; [|done].
    injection Hitem as <-. apply list_elem_of_singleton in Hrow as ->.
    apply findLift_Some in E as [Hin Hid].
    exists lift, rx. split_and!; try done. simpl. by left.
  - injection Hitem as <-.
    apply list_elem_of_omap in Hrow as ([liftId rx] & Hc & Hr).
    apply renderChoice_row in Hr as (lift & Hin & Hid & ->).
    exists lift, rx. split_and!; try done.
    simpl. apply list_elem_of_fmap. by exists (liftId, rx).
Qed.

(** X5.  The overview of a session shows one row for each lift of the
    session that [LIFTS] lists, in the order of the session, the lifts of
    a choice group where the group stands, and none for the others; so it
    shows a row for every lift of the session when they are all listed.
    A row carries the name of its lift and one of the prescriptions of its
    slot, both as markup, and it is marked completed exactly when its lift
    is in the completion set. *)
Theorem renderSessionOverview_rows LIFTS today session :
  let rows := overviewRows (renderSessionOverview LIFTS today session) in
  row_liftId <$> rows =
    filter (fun liftId => is_Some (findLift LIFTS liftId)) (sessionLifts session) /\
  ((forall liftId, liftId ∈ sessionLifts session -> is_Some (findLift LIFTS liftId)) ->
     row_liftId <$> rows = sessionLifts session) /\
  (forall row, row ∈ rows ->
     (row_done row = true <-> row_liftId row ∈ today) /\
     exists slot lift rx, slot ∈ Session.lifts session /\ lift ∈ LIFTS /\
       Lift.id lift = row_liftId row /\ rx ∈ slotRxs slot /\
       row_name row = escapeHtml (Lift.name lift) /\ row_rx row = escapeHtml rx).
Proof.
  intros rows. subst rows. unfold renderSessionOverview, sessionLifts. split_and!.
  - apply renderSessionOverview_ids.
  - intros Hall. rewrite renderSessionOverview_ids.
    apply filter_all, Forall_forall. exact Hall.
  - intros row (slot & lift & rx & Hslot & Hlift & Hid & Hrx & Hrow)%elem_of_overviewRows.
    split.
    + rewrite Hrow. simpl. by rewrite bool_decide_eq_true.
    + exists slot, lift, rx. split_and!; try done; by rewrite Hrow.
Qed.

Lemma renderSessionOverview_rows_witness :
  (row_liftId <$> overviewRows
     (renderSessionOverview LIFTS_lifts_js {[ js "row" ]}
        (Session.mk (js "session_a") (js "Session A")
           [ Fixed (js "box_jumps") (js "4-6 x 2-3");
             Choose [ (js "db_incline_press", js "3-4 x 8-12");
                      (js "cable_fly", js "3 x 12-15") ] (Some (js "4-week rotation"));
             Fixed (js "row") (js "3-4 x 8-12") ])))
  = [ js "box_jumps"; js "db_incline_press"; js "cable_fly"; js "row" ].
Proof.
  destruct (renderSessionOverview_rows LIFTS_lifts_js {[ js "row" ]}
              (Session.mk (js "session_a") (js "Session A")
                 [ Fixed (js "box_jumps") (js "4-6 x 2-3");
                   Choose [ (js "db_incline_press", js "3-4 x 8-12");
                            (js "cable_fly", js "3 x 12-15") ] (Some (js "4-week rotation"));
                   Fixed (js "row") (js "3-4 x 8-12") ])) as (_ & H & _).
  apply H. intros liftId Hin. vm_compute in Hin.
  repeat (apply elem_of_cons in Hin as [->|Hin]; [vm_compute; by eexists|]).
  by apply elem_of_nil in Hin.
Defined.

(** ** The groups read from the form *)

Lemma collectGroups_fold rows valid acc :
  fold_left
    (fun acc row =>
       match readRow row with
       | None => (false, acc.2)
       | Some g => (acc.1, acc.2 ++ [g])
       end) rows (valid, acc)
  = (valid && forallb readable rows, acc ++ omap readRow rows).
Proof.
  revert valid acc. induction rows as [|row rows IH]; intros valid acc.
  { simpl. by rewrite andb_true_r, app_nil_r. }
  cbn [fold_left]. rewrite omap_cons. cbn [forallb]. unfold readable at 1.
  destruct (readRow row) as [g|] eqn:E; rewrite IH; cbn [fst snd].
  - rewrite bool_decide_true by (by eexists). by rewrite <- app_assoc.
  - rewrite bool_decide_false by (by intros [? ?]). by rewrite andb_false_r.
Qed.

Lemma collectGroups_eq rows :
  collectGroups rows = (forallb readable rows, omap readRow rows).
Proof. unfold collectGroups. by rewrite collectGroups_fold. Qed.

Lemma forallb_Forall {A} (f : A -> bool) (l : list A) :
  forallb f l = true <-> Forall (fun x => f x = true) l.
Proof.
  induction l as [|x l IH]; simpl.
  - split; [constructor|done].
  - rewrite andb_true_iff, IH, Forall_cons. done.
Qed.

Lemma omap_readable rows :
  forallb readable rows = true -> length (omap readRow rows) = length rows.
Proof.
  induction rows as [|row rows IH]; [done|].
  cbn [forallb]. rewrite omap_cons. intros [Hr Hrs]%andb_true_iff.
  apply bool_decide_eq_true in Hr as [g Hg]. rewrite Hg. simpl. by rewrite IH.
Qed.

Lemma readRow_Some row g : readRow row = Some g -> g = groupOfRow row.
Proof.
  unfold readRow, groupOfRow.
  destruct (falsyInt _ || falsyInt _ || isNaN _); [done|]. by intros [= <-].
Qed.

Lemma omap_groupOfRow rows :
  forallb readable rows = true -> omap readRow rows = groupOfRow <$> rows.
Proof.
  induction rows as [|row rows IH]; [done|].
  cbn [forallb]. intros [Hr Hrs]%andb_true_iff.
  rewrite omap_cons, fmap_cons, <- IH by done.
  apply bool_decide_eq_true in Hr as [g Hg]. rewrite Hg.
  by rewrite (readRow_Some row g Hg).
Qed.

(** X6.  The groups that the save handler collects are those of the rows
    it can read, in the order of the rows, and the form is valid exactly
    when it can read every row.  So the form goes through, with as many
    groups as it has rows, exactly when it has a row and every row holds
    counts that read as numbers other than zero and a weight that reads as
    a number; one row that does not is enough to refuse them all. *)
Theorem collectGroups_all_or_nothing rows :
  collectGroups rows = (forallb readable rows, omap readRow rows) /\
  (forall row, readable row = true <->
     falsyInt (parseInt (input_sets row)) = false /\
     falsyInt (parseInt (input_reps row)) = false /\
     isNaN (parseFloat (input_weight row)) = false) /\
  ((collectGroups rows).1 = true /\ (collectGroups rows).2 <> [] <->
     rows <> [] /\ Forall (fun row => readable row = true) rows) /\
  ((collectGroups rows).1 = true ->
     length (collectGroups rows).2 = length rows /\
     (collectGroups rows).2 = groupOfRow <$> rows).
Proof.
  rewrite collectGroups_eq. cbn [fst snd]. split_and!.
  - done.
  - intros row. unfold readable, readRow. rewrite bool_decide_eq_true.
    destruct (falsyInt (parseInt (input_sets row)));
      destruct (falsyInt (parseInt (input_reps row)));
      destruct (isNaN (parseFloat (input_weight row))); simpl;
      split; try (by intros [? ?]); try (by intros (? & ? & ?)); done.
  - rewrite forallb_Forall. split.
    + intros [Hall Hne]. split; [|done]. by intros ->.
    + intros [Hne Hall]. split; [done|].
      intros H. apply (f_equal length) in H.
      rewrite omap_readable in H by (by apply forallb_Forall).
      by destruct rows.
  - intros Hall. split; [by apply omap_readable|by apply omap_groupOfRow].
Qed.

Lemma collectGroups_all_or_nothing_witness :
  (collectGroups [ {| input_sets := js "3"; input_reps := js "5"; input_weight := js "185" |};
                   {| input_sets := js "2"; input_reps := js ""; input_weight := js "95" |} ]).1
  = false.
Proof.
  destruct (collectGroups_all_or_nothing
    [ {| input_sets := js "3"; input_reps := js "5"; input_weight := js "185" |};
      {| input_sets := js "2"; input_reps := js ""; input_weight := js "95" |} ])
    as (_ & _ & H & _).
  destruct (collectGroups _).1 eqn:E; [|done].
  destruct H as [H _].
  destruct H as [_ Hall].
  - split; [done|]. by vm_compute.
  - apply Forall_cons in Hall as [_ Hall]. apply Forall_cons in Hall as [Hbad _].
    by vm_compute in Hbad.
Defined.

(** ** The history of a lift *)

Lemma sameButWeight_refl rows : sameButWeight rows rows.
Proof. by destruct rows. Qed.

Lemma sameButWeight_length rows rows' :
  sameButWeight rows rows' -> length rows' = length rows.
Proof.
  destruct rows, rows'; simpl; try done. intros (_ & _ & _ & ->). done.
Qed.

Lemma set_fields_eta st :
  set_setGroups (setGroups st) (set_historyList (historyList st) st) = st.
Proof. by destruct st. Qed.

(** What [loadHistory] changes: the history pane and, at most, the weight
    field of the first row. *)
Lemma loadHistory_frame_eq NumberToString h db liftId st :
  let st' := loadHistory NumberToString h db liftId st in
  st' = set_setGroups (setGroups st') (set_historyList (historyList st') st) /\
  sameButWeight (setGroups st) (setGroups st').
Proof.
  cbv zeta. unfold loadHistory.
  destruct (currentUser st) as [u|];
    [|split; [by rewrite set_fields_eta|apply sameButWeight_refl]].
  destruct (get h _) as [[|kv l]|];
    [split; [done|apply sameButWeight_refl]| |split; [done|apply sameButWeight_refl]].
  cbv zeta. destruct (lastWeightOf (kv :: l)) as [w|];
    [|split; [done|apply sameButWeight_refl]].
  cbn [setGroups set_historyList].
  destruct (setGroups st) as [|row rows] eqn:Hrows;
    [split; [done|simpl; by rewrite Hrows]|].
  destruct (input_weight row) eqn:Hw.
  - split; [done|]. simpl. by split_and!.
  - split; [done|]. simpl. rewrite Hrows. by split_and!.
Qed.

Lemma NoDup_entriesOf uid db : NoDup (entriesOf uid db).*1.
Proof.
  unfold entriesOf.
  pose proof (NoDup_fst_map_to_list db) as Hnd.
  induction (map_to_list db) as [|[[u k] e] l IH]; [constructor|].
  rewrite fmap_cons in Hnd. apply NoDup_cons in Hnd as [Hnin Hnd].
  rewrite omap_cons. cbn [fst snd].
  destruct (decide (u = uid)) as [->|]; [|by apply IH].
  rewrite fmap_cons. apply NoDup_cons. split; [|by apply IH].
  intros ([k' e'] & Hk & Hin)%list_elem_of_fmap. simpl in Hk. subst k'.
  apply list_elem_of_omap in Hin as ([[u' k'] e''] & Hin & Hf). simpl in Hf.
  destruct (decide (u' = uid)) as [->|]; [|done]. injection Hf as -> ->.
  apply Hnin. apply list_elem_of_fmap. by exists ((uid, k), e').
Qed.

Lemma elem_of_whereLift x l kv : kv ∈ whereLift x l <-> lift kv.2 = x /\ kv ∈ l.
Proof.
  unfold whereLift.
  apply (list_elem_of_filter (fun kv : list N * Entry => lift kv.2 = x)).
Qed.

Lemma NoDup_fst_sublist {A B} (l l' : list (A * B)) :
  l' `sublist_of` l -> NoDup l.*1 -> NoDup l'.*1.
Proof.
  intros Hs Hnd. apply (sublist_NoDup l'.*1 l.*1); [done|]. by apply fmap_sublist.
Qed.

Lemma NoDup_historyOf uid liftId db : NoDup (historyOf uid liftId db).*1.
Proof.
  unfold historyOf, limit.
  eapply NoDup_fst_sublist; [apply sublist_take|].
  unfold orderByDateDesc. rewrite merge_sort_Permutation.
  eapply NoDup_fst_sublist; [|apply NoDup_entriesOf].
  unfold whereLift. apply sublist_filter.
Qed.

(** X8.  The history that [loadHistory] shows for a lift: at most five
    entries, all of them entries of the user for that lift, no document
    twice, newest first; an entry of the lift that is not shown is no
    newer than any that is, and when the lift has at most five entries
    they are all shown.  The pane reads "No history yet." exactly when the
    user has no entry of the lift. *)
Theorem loadHistory_newest_five NumberToString h db liftId st u :
  currentUser st = Some u -> readOk h = true ->
  let shown := historyOf (uid u) liftId db in
  historyList (loadHistory NumberToString h db liftId st) =
    match shown with [] => HistoryNone | _ => HistoryEntries shown end /\
  (length shown <= 5)%nat /\
  NoDup shown.*1 /\
  StronglySorted newerFirst shown /\
  (forall k e, (k, e) ∈ shown -> db !! (uid u, k) = Some e /\ lift e = liftId) /\
  (forall k e, db !! (uid u, k) = Some e -> lift e = liftId ->
     (k, e) ∈ shown \/ forall x, x ∈ shown -> dateLe (date e) (date x.2)) /\
  ((length (whereLift liftId (entriesOf (uid u) db)) <= 5)%nat ->
     forall k e, db !! (uid u, k) = Some e -> lift e = liftId -> (k, e) ∈ shown) /\
  (shown = [] <-> forall k e, db !! (uid u, k) = Some e -> lift e <> liftId).
Proof.
  intros Hu Hr shown.
  pose proof (orderByDateDesc_sorted (whereLift liftId (entriesOf (uid u) db))) as Hsorted.
  assert (Hmem : forall k e, (k, e) ∈ orderByDateDesc (whereLift liftId (entriesOf (uid u) db))
                   <-> db !! (uid u, k) = Some e /\ lift e = liftId).
  { intros k e. rewrite elem_of_orderByDateDesc, elem_of_whereLift, elem_of_entriesOf.
    simpl. tauto. }
  split_and!.
  - rewrite (loadHistory_eq NumberToString h db liftId st u Hu Hr). fold shown.
    destruct shown as [|kv l]; [done|].
    cbv zeta. destruct (lastWeightOf (kv :: l)); [|done].
    destruct (setGroups st) as [|row rows]; [done|]. by destruct (input_weight row).
  - subst shown. unfold historyOf, limit. rewrite length_take. lia.
  - apply NoDup_historyOf.
  - by apply limit_sorted.
  - intros k e Hin. apply Hmem. by apply (elem_of_limit 5).
  - intros k e He Hl.
    assert (Hall : (k, e) ∈ orderByDateDesc (whereLift liftId (entriesOf (uid u) db)))
      by by apply Hmem.
    destruct (decide (5 <= length (orderByDateDesc (whereLift liftId (entriesOf (uid u) db))))%nat)
      as [Hlen|Hlen].
    + rewrite <- (take_drop 5 (orderByDateDesc _)) in Hall, Hsorted.
      apply elem_of_app in Hall as [Hin|Hout]; [by left|right].
      intros x Hx.
      apply (StronglySorted_app_1_elem_of _ _ _ x (k, e) Hsorted); done.
    + left. subst shown. unfold historyOf, limit. rewrite take_ge by lia. done.
  - intros Hlen k e He Hl. subst shown. unfold historyOf, limit.
    rewrite take_ge; [by apply Hmem|].
    unfold orderByDateDesc. by rewrite merge_sort_Permutation.
  - split.
    + intros Hnil k e He Hl.
      assert (Hall : (k, e) ∈ orderByDateDesc (whereLift liftId (entriesOf (uid u) db)))
        by by apply Hmem.
      subst shown. unfold historyOf, limit in Hnil.
      destruct (orderByDateDesc _) as [|x l]; [by apply elem_of_nil in Hall|done].
    + intros Hnone. subst shown. unfold historyOf, limit.
      destruct (orderByDateDesc _) as [|[k e] l] eqn:E; [done|].
      exfalso. destruct (proj1 (Hmem k e)) as [He Hl]; [by left|]. by eapply Hnone.
Qed.

Lemma loadHistory_newest_five_witness :
  historyList (loadHistory plainNumber (hostAt squatDay) rotationStore
                 (js "barbell_bench_press") (blankState (Some user1)))
  = HistoryEntries
      [ (js "e1", benchEntry (Some (squatDay + msPerDay / 2)) (js "session_b"));
        (js "e2", benchEntry (Some (squatDay - msPerDay / 2)) (js "session_a")) ].
Proof.
  destruct (loadHistory_newest_five plainNumber (hostAt squatDay) rotationStore
              (js "barbell_bench_press") (blankState (Some user1)) user1 eq_refl eq_refl)
    as (-> & _).
  vm_compute. reflexivity.
Defined.

(** X7.  [loadHistory] changes nothing on the page but the history pane
    and, at most, the weight field of the first row of the form, and that
    only if the field was empty: what was typed into the form stays.
    Without a user it changes nothing at all; when the lookup fails the
    pane says so and the form is as it was. *)
Theorem loadHistory_frame NumberToString h db liftId st :
  let st' := loadHistory NumberToString h db liftId st in
  st' = set_setGroups (setGroups st') (set_historyList (historyList st') st) /\
  sameButWeight (setGroups st) (setGroups st') /\
  (currentUser st = None -> st' = st) /\
  (is_Some (currentUser st) -> readOk h = false ->
     historyList st' = HistoryFailed /\ setGroups st' = setGroups st).
Proof.
  intros st'. subst st'.
  destruct (loadHistory_frame_eq NumberToString h db liftId st) as [Heq Hrows].
  split_and!; [done|done| |].
  - unfold loadHistory. by intros ->.
  - intros [u Hu] Hr. unfold loadHistory, get. by rewrite Hu, Hr.
Qed.

Lemma loadHistory_frame_witness :
  setGroups (loadHistory plainNumber
               {| readOk := false; writeOk := true; now := squatDay; nowAgain := squatDay;
                  serverTime := squatDay; freshId := js "new" |}
               rotationStore (js "barbell_bench_press") (formState None "3" "5" "" ))
  = setGroups (formState None "3" "5" "").
Proof.
  destruct (loadHistory_frame plainNumber
           {| readOk := false; writeOk := true; now := squatDay; nowAgain := squatDay;
              serverTime := squatDay; freshId := js "new" |}
           rotationStore (js "barbell_bench_press") (formState None "3" "5" ""))
    as (_ & _ & _ & H).
  apply H; [by eexists|reflexivity].
Defined.

(** ** The save handler, step by step *)

Lemma save_eq SESSIONS NumberToString h db st :
  save SESSIONS NumberToString h db st =
  match currentUser st, truthy (currentLiftId st) with
  | Some user, Some liftId =>
    if (collectGroups (setGroups st)).1 && negb (length (collectGroups (setGroups st)).2 =? 0)%nat
    then
      match writeEntry SESSIONS h db user liftId (collectGroups (setGroups st)).2
              (savingState st) with
      | Fetched (db', st2) => (db', afterWrite NumberToString h db' liftId st2)
      | Failed =>
        (db, saveFinally (alert (js "Failed to save. Please try again.") (savingState st)))
      end
    else (db, alert (js "Please fill in sets, reps, and weight for each group.") st)
  | _, _ => (db, st)
  end.
Proof.
  unfold save, writeEntry, afterWrite, savingState, sessionTag.
  destruct (currentUser st) as [u|]; [|reflexivity].
  destruct (truthy (currentLiftId st)) as [liftId|]; [|reflexivity].
  destruct (collectGroups (setGroups st)) as [valid groups]. cbn [fst snd].
  destruct valid; [|reflexivity]. destruct groups as [|g groups]; [reflexivity|].
  cbn [negb orb andb length Nat.eqb]. cbv zeta.
  cbn [editingEntryId set_saveBtn currentSessionIndex].
  destruct (truthy (editingEntryId st)) as [docId|].
  - destruct (update _ _ _ _ _ _) as [db'|]; [|reflexivity].
    by destruct (match truthy _ with Some _ => _ | None => _ end).
  - destruct (useSessionMode SESSIONS).
    + destruct (SESSIONS !! _) as [s|]; [|reflexivity].
      destruct (add _ _ _ _) as [db'|]; [|reflexivity].
      by destruct (match truthy _ with Some _ => _ | None => _ end).
    + destruct (add _ _ _ _) as [db'|]; [|reflexivity].
      by destruct (match truthy _ with Some _ => _ | None => _ end).
Qed.

Lemma loadHistory_fields NumberToString h db liftId st :
  let st' := loadHistory NumberToString h db liftId st in
  currentUser st' = currentUser st /\ editingEntryId st' = editingEntryId st /\
  currentSessionIndex st' = currentSessionIndex st /\
  currentLiftId st' = currentLiftId st /\ currentRx st' = currentRx st /\
  todayEntries st' = todayEntries st /\ notesInput st' = notesInput st /\
  saveBtnDisabled st' = saveBtnDisabled st /\ saveBtnText st' = saveBtnText st /\
  cancelEditHidden st' = cancelEditHidden st /\
  editBannerHidden st' = editBannerHidden st /\ alerts st' = alerts st.
Proof.
  cbv zeta. destruct (loadHistory_frame_eq NumberToString h db liftId st) as [Heq _].
  rewrite Heq. by split_and!.
Qed.

(** The auto-fill from the prescription, on a form that has a row: it
    never throws, and it changes the sets and reps of the first row only. *)
Lemma fillFromRx_row rx st row rows :
  setGroups st = row :: rows ->
  exists row',
    fillFromRx rx st = Some (set_setGroups (row' :: rows) st) /\
    input_weight row' = input_weight row /\
    match parseRx rx with
    | Some parsed =>
      input_sets row' = intInputValue (maxSets parsed) /\
      input_reps row' = intInputValue (maxReps parsed)
    | None => row' = row
    end.
Proof.
  intros Hrows. unfold fillFromRx. rewrite Hrows.
  destruct (parseRx rx) as [parsed|].
  - by eexists.
  - exists row. split; [|done]. rewrite <- Hrows. by destruct st.
Qed.

Lemma afterWrite_fields NumberToString h db' liftId st2 :
  let st5 := afterWrite NumberToString h db' liftId st2 in
  alerts st5 = alerts st2 /\ notesInput st5 = [] /\
  (exists row, setGroups st5 = [row]) /\
  editingEntryId st5 = editingEntryId st2 /\
  todayEntries st5 = todayEntries st2 /\ currentUser st5 = currentUser st2 /\
  currentLiftId st5 = currentLiftId st2 /\ currentRx st5 = currentRx st2 /\
  currentSessionIndex st5 = currentSessionIndex st2 /\
  saveBtnDisabled st5 = false /\
  saveBtnText st5 =
    match truthy (editingEntryId st2) with Some _ => js "Update" | None => js "Save" end.
Proof.
  cbv zeta. unfold afterWrite.
  destruct (loadHistory_fields NumberToString h db' liftId (resetSetGroups st2))
    as (Hu & He & Hi & Hl & Hrx & Ht & Hn & _ & _ & _ & _ & Ha).
  destruct (loadHistory_frame_eq NumberToString h db' liftId (resetSetGroups st2))
    as [_ Hrows].
  set (st3 := loadHistory NumberToString h db' liftId (resetSetGroups st2)) in *.
  cbn [resetSetGroups setGroups set_notesInput set_setGroups] in Hrows.
  destruct (setGroups st3) as [|row3 rest] eqn:Hst3; [done|].
  destruct Hrows as (_ & _ & _ & ->).
  assert (Hdone : forall st4, (exists row, st4 = set_setGroups [row] st3) ->
    alerts (saveFinally st4) = alerts st2 /\ notesInput (saveFinally st4) = [] /\
    (exists row, setGroups (saveFinally st4) = [row]) /\
    editingEntryId (saveFinally st4) = editingEntryId st2 /\
    todayEntries (saveFinally st4) = todayEntries st2 /\
    currentUser (saveFinally st4) = currentUser st2 /\
    currentLiftId (saveFinally st4) = currentLiftId st2 /\
    currentRx (saveFinally st4) = currentRx st2 /\
    currentSessionIndex (saveFinally st4) = currentSessionIndex st2 /\
    saveBtnDisabled (saveFinally st4) = false /\
    saveBtnText (saveFinally st4) =
      match truthy (editingEntryId st2) with Some _ => js "Update" | None => js "Save" end).
  { intros st4 [row ->]. unfold saveFinally.
    cbn [alerts notesInput setGroups editingEntryId todayEntries currentUser currentLiftId
         currentRx currentSessionIndex saveBtnDisabled saveBtnText set_saveBtn set_setGroups].
    rewrite Ha, Hn, He, Ht, Hu, Hl, Hrx, Hi. split_and!; try done. by exists row. }
  destruct (truthy (currentRx st3)) as [rx|].
  - destruct (fillFromRx_row (Some rx) st3 row3 [] Hst3) as (row' & -> & _).
    apply Hdone. by exists row'.
  - apply Hdone. exists row3. rewrite <- Hst3. by destruct st3.
Qed.

Lemma writeEntry_Fetched SESSIONS h db u liftId groups st1 db' st2 :
  writeEntry SESSIONS h db u liftId groups st1 = Fetched (db', st2) ->
  writeOk h = true /\
  ((exists docId e, truthy (editingEntryId st1) = Some docId /\
      db !! (uid u, docId) = Some e /\
      db' = <[(uid u, docId) :=
                {| lift := lift e; date := date e; sets := groups;
                   notes := trim (notesInput st1); session := session e |}]> db /\
      st2 = set_editHidden true (set_editingEntryId None st1)) \/
   (exists tag, truthy (editingEntryId st1) = None /\
      sessionTag SESSIONS (currentSessionIndex st1) = Some tag /\
      db' = <[(uid u, freshId h) :=
                {| lift := liftId; date := Some (serverTime h); sets := groups;
                   notes := trim (notesInput st1); session := tag |}]> db /\
      st2 = set_todayEntries ({[liftId]} ∪ todayEntries st1) st1)).
Proof.
  unfold writeEntry.
  destruct (truthy (editingEntryId st1)) as [docId|].
  - destruct (update _ _ _ _ _ _) as [db''|] eqn:Hup; [|done].
    intros [= <- <-]. apply update_lookup in Hup as (e & He & Hw & ->).
    split; [done|]. left. by exists docId, e.
  - destruct (sessionTag _ _) as [tag|]; [|done]. cbv zeta.
    unfold add. destruct (writeOk h); [|done]. intros [= <- <-].
    split; [done|]. right. by exists tag.
Qed.

Lemma writeEntry_Failed SESSIONS h db u liftId groups st1 :
  writeEntry SESSIONS h db u liftId groups st1 = Failed <->
  writeOk h = false \/
  match truthy (editingEntryId st1) with
  | Some docId => db !! (uid u, docId) = None
  | None => sessionTag SESSIONS (currentSessionIndex st1) = None
  end.
Proof.
  unfold writeEntry, update, add.
  destruct (truthy (editingEntryId st1)) as [docId|].
  - destruct (writeOk h); [|by split; [left|]].
    destruct (db !! (uid u, docId)); split; try done.
    + by intros [?|?].
    + by right.
  - destruct (sessionTag _ _) as [tag|]; cbv zeta.
    + destruct (writeOk h); split; try done; [by intros [?|?]|by left].
    + split; [by right|done].
Qed.

(** ** What the save handler leaves behind *)

Lemma collectGroups_valid rows :
  (collectGroups rows).1 && negb (length (collectGroups rows).2 =? 0)%nat = true <->
  (collectGroups rows).1 = true /\ (collectGroups rows).2 <> [].
Proof.
  rewrite andb_true_iff, negb_true_iff, Nat.eqb_neq.
  destruct (collectGroups rows).2; simpl; split; intros [? ?]; split; try done; lia.
Qed.

(** X9.  With a user and a lift, the save handler either writes or tells
    the user, never both and never neither.  A form that is refused
    leaves the store and the page as they were but for the message.  A
    write that fails (the store refuses it, the entry being edited is not
    there, or the current index is the index of no session) leaves the
    store as it was, shows one message, keeps the rows, the notes and the
    edit in progress, and enables the button again.  A write that goes
    through changes one document of the user, shows no message, ends the
    edit, and leaves a form of one row with empty notes and an enabled
    button that reads "Save". *)
Theorem save_all_or_nothing SESSIONS NumberToString h db st u liftId :
  currentUser st = Some u -> truthy (currentLiftId st) = Some liftId ->
  let r := save SESSIONS NumberToString h db st in
  let valid := (collectGroups (setGroups st)).1 = true /\
               (collectGroups (setGroups st)).2 <> [] in
  let refused :=
    writeOk h = false \/
    match truthy (editingEntryId st) with
    | Some docId => db !! (uid u, docId) = None
    | None => sessionTag SESSIONS (currentSessionIndex st) = None
    end in
  (~ valid ->
     r = (db, alert (js "Please fill in sets, reps, and weight for each group.") st)) /\
  (valid -> refused ->
     r.1 = db /\
     alerts r.2 = alerts st ++ [js "Failed to save. Please try again."] /\
     setGroups r.2 = setGroups st /\ notesInput r.2 = notesInput st /\
     editingEntryId r.2 = editingEntryId st /\ todayEntries r.2 = todayEntries st /\
     historyList r.2 = historyList st /\ saveBtnDisabled r.2 = false) /\
  (valid -> ~ refused ->
     (exists k e, r.1 = <[(uid u, k) := e]> db) /\
     alerts r.2 = alerts st /\ notesInput r.2 = [] /\
     (exists row, setGroups r.2 = [row]) /\
     truthy (editingEntryId r.2) = None /\
     saveBtnDisabled r.2 = false /\ saveBtnText r.2 = js "Save").
Proof.
  intros Hu Hl r valid refused. subst r valid refused.
  rewrite save_eq, Hu, Hl. split_and!.
  - intros Hnv. rewrite <- collectGroups_valid in Hnv.
    by destruct (_ && _).
  - intros Hv%collectGroups_valid Hr. rewrite Hv.
    assert (Hf : writeEntry SESSIONS h db u liftId (collectGroups (setGroups st)).2
                   (savingState st) = Failed) by (by apply writeEntry_Failed).
    rewrite Hf. by split_and!.
  - intros Hv%collectGroups_valid Hr. rewrite Hv.
    destruct (writeEntry _ _ _ _ _ _ _) as [[db' st2]|] eqn:Hw;
      [|by apply writeEntry_Failed in Hw].
    destruct (afterWrite_fields NumberToString h db' liftId st2)
      as (Ha & Hn & Hrow & He & _ & _ & _ & _ & _ & Hd & Ht).
    cbn [fst snd]. rewrite Ha, Hn, He, Hd, Ht.
    apply writeEntry_Fetched in Hw as (_ & [(docId & e & _ & _ & -> & ->)|(tag & Hne & _ & -> & ->)]).
    + split_and!; try done. by eexists _, _.
    + cbn [editingEntryId set_todayEntries savingState set_saveBtn] in *.
      rewrite Hne. split_and!; try done. by eexists _, _.
Qed.

Lemma save_all_or_nothing_witness :
  (save SESSIONS_lifts_js plainNumber (hostAt squatDay) rotationStore
     (formState (Some (js "gone")) "4" "6" "190")).1 = rotationStore.
Proof.
  destruct (save_all_or_nothing SESSIONS_lifts_js plainNumber (hostAt squatDay) rotationStore
              (formState (Some (js "gone")) "4" "6" "190") user1 (js "barbell_bench_press")
              eq_refl eq_refl) as (_ & H & _).
  apply H.
  - split; [by vm_compute|]. by vm_compute.
  - right. by vm_compute.
Defined.

(** The handler on the path that creates an entry. *)
Lemma save_create_eq SESSIONS NumberToString h db st u liftId tag :
  currentUser st = Some u -> truthy (currentLiftId st) = Some liftId ->
  truthy (editingEntryId st) = None ->
  (collectGroups (setGroups st)).1 = true -> setGroups st <> [] ->
  writeOk h = true -> sessionTag SESSIONS (currentSessionIndex st) = Some tag ->
  let db' :=
    <[(uid u, freshId h) :=
        {| lift := liftId; date := Some (serverTime h);
           sets := groupOfRow <$> setGroups st;
           notes := trim (notesInput st); session := tag |}]> db in
  save SESSIONS NumberToString h db st =
  (db', afterWrite NumberToString h db' liftId
          (set_todayEntries ({[liftId]} ∪ todayEntries st) (savingState st))).
Proof.
  intros Hu Hl He Hv Hne Hw Htag db'. subst db'.
  assert (Hgroups : (collectGroups (setGroups st)).2 = groupOfRow <$> setGroups st).
  { rewrite collectGroups_eq in *. by apply omap_groupOfRow. }
  assert (Hvalid : (collectGroups (setGroups st)).1 &&
                   negb (length (collectGroups (setGroups st)).2 =? 0)%nat = true).
  { apply collectGroups_valid. split; [done|]. rewrite Hgroups. by destruct (setGroups st). }
  rewrite save_eq, Hu, Hl, Hvalid.
  destruct (writeEntry _ _ _ _ _ _ _) as [[db' st2]|] eqn:Hwr.
  - apply writeEntry_Fetched in Hwr
      as (_ & [(docId & e & Hed & _)|(tag' & _ & Htag' & -> & ->)]).
    { cbn [savingState editingEntryId set_saveBtn] in Hed. congruence. }
    cbn [savingState currentSessionIndex set_saveBtn] in Htag'.
    rewrite Htag in Htag'. injection Htag' as <-.
    by rewrite Hgroups.
  - apply writeEntry_Failed in Hwr as [Hwr|Hwr]; [congruence|].
    cbn [savingState editingEntryId set_saveBtn currentSessionIndex] in Hwr.
    rewrite He in Hwr. congruence.
Qed.



Lemma store_unchanged_keeps (db : gmap (list N * list N) Entry) (st : AppState) (h : Host) :
  (forall key e, db !! key = Some e ->
     exists e', db !! key = Some e' /\
       (forall u, currentUser st = Some u -> key.1 <> uid u -> e' = e) /\
       (key.2 <> freshId h ->
          lift e' = lift e /\ date e' = date e /\ session e' = session e)) /\
  (forall key, db !! key = None -> is_Some (db !! key) ->
     exists u, currentUser st = Some u /\ key = (uid u, freshId h)).
Proof.
  split.
  - intros key e He. by exists e.
  - intros key -> [? ?]. done.
Qed.

(** X11.  Whatever the page and the store, the save handler removes no
    document, leaves the documents of every other user as they are, and
    keeps the lift, the date and the session of the documents it finds;
    a document it adds is one of the user under the id the store gives;
    without a user it writes nothing. *)
Theorem save_keeps_documents SESSIONS NumberToString h db st :
  let r := save SESSIONS NumberToString h db st in
  ((forall key e, db !! key = Some e ->
      exists e', r.1 !! key = Some e' /\
        (forall u, currentUser st = Some u -> key.1 <> uid u -> e' = e) /\
        (key.2 <> freshId h ->
           lift e' = lift e /\ date e' = date e /\ session e' = session e)) /\
   (forall key, db !! key = None -> is_Some (r.1 !! key) ->
      exists u, currentUser st = Some u /\ key = (uid u, freshId h))) /\
  (currentUser st = None -> r.1 = db).
Proof.
  intros r. subst r. rewrite save_eq.
  pose proof (store_unchanged_keeps db st h) as Hsame.
  destruct (currentUser st) as [u|] eqn:Hu; [|done].
  split; [|done].
  destruct (truthy (currentLiftId st)) as [liftId|]; [|done].
  destruct (_ && _); [|done].
  destruct (writeEntry _ _ _ _ _ _ _) as [[db' st2]|] eqn:Hw; [|done].
  cbn [fst snd]. clear Hsame.
  apply writeEntry_Fetched in Hw
    as (_ & [(docId & e0 & _ & He0 & -> & _)|(tag & _ & _ & -> & _)]).
  - split.
    + intros [u' k] e He. destruct (decide ((u', k) = (uid u, docId))) as [[= -> ->]|Hne].
      * rewrite lookup_insert_eq. eexists. split; [done|].
        rewrite He0 in He. injection He as <-. split; [|done].
        intros ? [= <-] Hneq. done.
      * rewrite lookup_insert_ne by done. by exists e.
    + intros key Hnone [e' He'].
      destruct (decide (key = (uid u, docId))) as [->|Hne]; [congruence|].
      rewrite lookup_insert_ne in He' by done. congruence.
  - split.
    + intros [u' k] e He. destruct (decide ((u', k) = (uid u, freshId h))) as [[= -> ->]|Hne].
      * rewrite lookup_insert_eq. eexists. split; [done|]. split; [|done].
        intros ? [= <-] Hneq. done.
      * rewrite lookup_insert_ne by done. by exists e.
    + intros key Hnone [e' He'].
      destruct (decide (key = (uid u, freshId h))) as [->|Hne]; [by exists u|].
      rewrite lookup_insert_ne in He' by done. congruence.
Qed.

Lemma save_keeps_documents_witness :
  exists e',
    (save SESSIONS_lifts_js plainNumber (hostAt squatDay) rotationStore
       (formState None "4" "6" "190")).1 !! (js "u1", js "e2") = Some e' /\
    lift e' = js "barbell_bench_press" /\ session e' = Some (js "session_a").
Proof.
  destruct (save_keeps_documents SESSIONS_lifts_js plainNumber (hostAt squatDay) rotationStore
              (formState None "4" "6" "190")) as ((H & _) & _).
  destruct (H (js "u1", js "e2") (benchEntry (Some (squatDay - msPerDay / 2)) (js "session_a")))
    as (e' & He' & _ & Hsame); [by vm_compute|].
  destruct Hsame as (Hl & _ & Hs); [by vm_compute|].
  exists e'. by split_and!.
Defined.

(** ** From one launch to the next *)

Lemma findIndex_NoDup SESSIONS i s :
  NoDup (Session.id <$> SESSIONS) -> SESSIONS !! i = Some s ->
  findIndex SESSIONS (Session.id s) = Some i.
Proof.
  intros Hnd Hi. unfold findIndex.
  destruct (list_find (fun s' => Session.id s' = Session.id s) SESSIONS) as [[j s']|] eqn:E.
  - apply list_find_Some in E as (Hj & Hid & _). simpl. f_equal.
    eapply NoDup_lookup; [exact Hnd| |].
    + rewrite list_lookup_fmap, Hj. simpl. by rewrite Hid.
    + by rewrite list_lookup_fmap, Hi.
  - exfalso. rewrite list_find_None, Forall_forall in E.
    apply (E s); [|done]. by eapply list_elem_of_lookup_2.
Qed.

(** The newest entry of a user, when one entry is dated after all the
    others. *)
Lemma mostRecentEntry_insert uid db k e t :
  date e = Some t ->
  (forall k' e', db !! (uid, k') = Some e' -> k' <> k ->
     exists t', date e' = Some t' /\ t' < t) ->
  mostRecentEntry uid (<[(uid, k) := e]> db) = Some (k, e).
Proof.
  intros Hd Hold.
  destruct (mostRecentEntry uid (<[(uid, k) := e]> db)) as [[k0 e0]|] eqn:E.
  - apply mostRecentEntry_newest in E as [Hin Hmax].
    destruct (decide (k0 = k)) as [->|Hne].
    + rewrite lookup_insert_eq in Hin. by injection Hin as ->.
    + rewrite lookup_insert_ne in Hin by congruence.
      destruct (Hold k0 e0 Hin Hne) as (t0 & Hd0 & Hlt).
      specialize (Hmax k e). rewrite lookup_insert_eq in Hmax.
      specialize (Hmax eq_refl). rewrite Hd, Hd0 in Hmax. simpl in Hmax. lia.
  - unfold mostRecentEntry in E. apply head_orderByDateDesc_nil in E.
    assert ((k, e) ∈ entriesOf uid (<[(uid, k) := e]> db)) as Hin
      by (apply elem_of_entriesOf; by rewrite lookup_insert_eq).
    rewrite E in Hin. by apply elem_of_nil in Hin.
Qed.

(** X12.  What the save handler writes is what the rotation reads.  After
    an entry is saved while session [i] of the catalogue is current, and
    when that entry is dated after every other entry of the user, a later
    launch by the same user opens session [i] again if it happens on the
    local day of the entry, and the session after [i], the first after the
    last, on any other day.  The ids of the catalogue have to be distinct
    and the id of session [i] not empty. *)
Theorem save_then_resume tzOffset SESSIONS NumberToString h db st u liftId s h' :
  currentUser st = Some u -> truthy (currentLiftId st) = Some liftId ->
  truthy (editingEntryId st) = None ->
  (collectGroups (setGroups st)).1 = true -> setGroups st <> [] ->
  writeOk h = true ->
  SESSIONS !! currentSessionIndex st = Some s ->
  NoDup (Session.id <$> SESSIONS) -> Session.id s <> [] ->
  (forall k e, db !! (uid u, k) = Some e -> k <> freshId h ->
     exists t, date e = Some t /\ t < serverTime h) ->
  readOk h' = true ->
  let r := save SESSIONS NumberToString h db st in
  determineCurrentSession tzOffset SESSIONS h' r.1 r.2 =
    if decide (localDay tzOffset (serverTime h) = localDay tzOffset (now h'))
    then currentSessionIndex st
    else ((currentSessionIndex st + 1) mod length SESSIONS)%nat.
Proof.
  intros Hu Hl He Hv Hne Hw Hs Hnd Hid Hold Hr r. subst r.
  assert (Htag : sessionTag SESSIONS (currentSessionIndex st) = Some (Some (Session.id s))).
  { unfold sessionTag, useSessionMode. rewrite Hs. by destruct SESSIONS. }
  rewrite (save_create_eq SESSIONS NumberToString h db st u liftId _ Hu Hl He Hv Hne Hw Htag).
  cbn [fst snd].
  match goal with |- context [afterWrite ?n ?hh ?d ?l ?s] =>
    destruct (afterWrite_fields n hh d l s) as (_ & _ & _ & _ & _ & Hu' & _) end.
  rewrite determineCurrentSession_eq, Hu', Hr.
  cbn [currentUser set_todayEntries savingState set_saveBtn]. rewrite Hu.
  rewrite (mostRecentEntry_insert (uid u) db (freshId h) _ (serverTime h)) by done.
  cbn [session date].
  assert (truthy (Some (Session.id s)) = Some (Session.id s)) as ->
    by (by destruct (Session.id s)).
  rewrite (findIndex_NoDup SESSIONS _ s Hnd Hs). cbv zeta.
  destruct (decide (localDay tzOffset (serverTime h) = localDay tzOffset (now h'))) as [Hd|Hd].
  - rewrite decide_True; [done|]. by apply localDate_localDay.
  - rewrite decide_False; [done|]. by intros ?%localDate_localDay.
Qed.

Lemma save_then_resume_witness :
  determineCurrentSession 0 SESSIONS_lifts_js (hostAt (squatDay + 5 * msPerDay / 2))
    (save SESSIONS_lifts_js plainNumber (hostAt (squatDay + msPerDay)) rotationStore
       (formState None "4" "6" "190")).1
    (save SESSIONS_lifts_js plainNumber (hostAt (squatDay + msPerDay)) rotationStore
       (formState None "4" "6" "190")).2
  = 1%nat.
Proof.
  apply (save_then_resume 0 SESSIONS_lifts_js plainNumber (hostAt (squatDay + msPerDay))
           rotationStore (formState None "4" "6" "190") user1 (js "barbell_bench_press")
           (Session.mk (js "session_a") (js "Session A")
              [ Fixed (js "box_jumps") (js "4-6 x 2-3");
                Fixed (js "barbell_bench_press") (js "alt: 3x5, 4x5-6");
                Fixed (js "leg_press") (js "2-3 x 8-10");
                Choose [ (js "db_incline_press", js "3-4 x 8-12");
                         (js "cable_fly", js "3 x 12-15") ]
                       (Some (js "4-week rotation"));
                Fixed (js "row") (js "3-4 x 8-12");
                Fixed (js "triceps_pushdown") (js "2-4 x 10-15");
                Fixed (js "incline_db_curl") (js "2-4 x 10-15") ])
           (hostAt (squatDay + 5 * msPerDay / 2))).
  - reflexivity.
  - reflexivity.
  - reflexivity.
  - by vm_compute.
  - done.
  - reflexivity.
  - reflexivity.
  - apply (bool_decide_unpack _). by vm_compute.
  - done.
  - intros k e He Hk.
    destruct (decide (k = js "e1")) as [->|H1].
    { vm_compute in He. injection He as <-. eexists. split; [reflexivity|]. by vm_compute. }
    destruct (decide (k = js "e2")) as [->|H2].
    { vm_compute in He. injection He as <-. eexists. split; [reflexivity|]. by vm_compute. }
    unfold rotationStore in He. rewrite !lookup_insert_ne in He by congruence.
    by rewrite lookup_empty in He.
  - reflexivity.
Defined.

(** ** The completion marks after a save *)

Lemma elem_of_loadTodayEntries tzOffset h db st u x :
  currentUser st = Some u -> readOk h = true ->
  x ∈ todayEntries (loadTodayEntries tzOffset h db st) <->
  exists k e t, db !! (uid u, k) = Some e /\ lift e = x /\
                date e = Some t /\ startOfDay tzOffset (now h) <= t.
Proof.
  intros Hu Hr. rewrite (loadTodayEntries_eq _ _ _ _ u) by done.
  rewrite elem_of_list_to_set, list_elem_of_fmap. split.
  - intros ([k e] & -> & [Hd Hin]%elem_of_whereDateFrom).
    apply elem_of_entriesOf in Hin. simpl in Hd.
    destruct (date e) as [t|] eqn:Ht; [|done]. by exists k, e, t.
  - intros (k & e & t & Hdb & <- & Ht & Hd). exists (k, e). split; [done|].
    apply elem_of_whereDateFrom. split; [|by apply elem_of_entriesOf].
    simpl. by rewrite Ht.
Qed.



(** ** The session that a launch opens *)

(** X14.  The index that [determineCurrentSession] gives is the index of
    a session whenever the catalogue has one, whatever the store holds;
    and for a dated newest entry of a session of the catalogue, it is the
    index of that session exactly on the local day of the entry, and the
    index after it, the first after the last, on every other day. *)
Theorem determineCurrentSession_in_range tzOffset SESSIONS h db st :
  let r := determineCurrentSession tzOffset SESSIONS h db st in
  (SESSIONS <> [] -> is_Some (SESSIONS !! r)) /\
  (SESSIONS = [] -> r = 0%nat) /\
  (forall u k e t sid i,
     currentUser st = Some u -> readOk h = true ->
     mostRecentEntry (uid u) db = Some (k, e) -> date e = Some t ->
     truthy (session e) = Some sid -> findIndex SESSIONS sid = Some i ->
     r = if decide (localDay tzOffset t = localDay tzOffset (now h)) then i
         else ((i + 1) mod length SESSIONS)%nat).
Proof.
  intros r. subst r. rewrite determineCurrentSession_eq. split_and!.
  - intros Hne. apply lookup_lt_is_Some.
    assert (0 < length SESSIONS)%nat as Hpos by (destruct SESSIONS; simpl; [done|lia]).
    destruct (currentUser st) as [u|]; [|done].
    destruct (readOk h); [|done].
    destruct (mostRecentEntry (uid u) db) as [[k e]|]; [|done].
    destruct (truthy (session e)) as [sid|]; [|done].
    destruct (findIndex SESSIONS sid) as [i|] eqn:Hi; [|done].
    cbv zeta. apply findIndex_Some in Hi as [Hi _].
    destruct (decide _); [done|]. by apply Nat.mod_upper_bound, Nat.neq_0_lt_0.
  - intros ->.
    destruct (currentUser st) as [u|]; [|done].
    destruct (readOk h); [|done].
    destruct (mostRecentEntry (uid u) db) as [[k e]|]; [|done].
    destruct (truthy (session e)) as [sid|]; [|done]. done.
  - intros u k e t sid i -> -> -> Hd -> ->. rewrite Hd. cbv zeta.
    destruct (decide (localDay tzOffset t = localDay tzOffset (now h))) as [H|H].
    + rewrite decide_True; [done|]. by apply localDate_localDay.
    + rewrite decide_False; [done|]. by intros ?%localDate_localDay.
Qed.

Lemma determineCurrentSession_in_range_witness :
  is_Some (SESSIONS_lifts_js !!
    determineCurrentSession 0 SESSIONS_lifts_js (hostAt (squatDay + 3 * msPerDay / 2))
      rotationStore (blankState (Some user1))).
Proof.
  destruct (determineCurrentSession_in_range 0 SESSIONS_lifts_js
              (hostAt (squatDay + 3 * msPerDay / 2)) rotationStore (blankState (Some user1)))
    as (H & _).
  by apply H.
Defined.

(** ** Numbers through the form and back *)

Lemma parseRx_numeric rx r :
  parseRx rx = Some r -> nonNegative (maxSets r) /\ nonNegative (maxReps r).
Proof.
  destruct rx as [s|]; [|done].
  destruct (decide (s = [])) as [->|Hne]; [done|].
  rewrite parseRx_schemeText by done.
  destruct (schemeText s) as [t|]; [|done]. simpl.
  destruct (findScheme t) as [r0|] eqn:E; [|done]. simpl. intros [= <-].
  by apply (findScheme_numeric t).
Qed.

Lemma falsyInt_ne a : falsyInt (Int a) = false <-> Int a <> Int 0.
Proof.
  simpl. rewrite Z.eqb_neq. split; [congruence|]. intros H ->. by apply H.
Qed.

(** X16.  The numbers that the auto-fill writes into the first row are the
    numbers that the save handler reads from it, when they are below 2^53:
    after [fillFromRx] on a prescription that parses to such numbers, the
    sets and reps fields of the first row read back as the upper bounds of
    the prescription, the weight field and the other rows are untouched,
    and the row goes through the validation exactly when both bounds are
    other than zero and the weight field reads as a number. *)
Theorem fillFromRx_reads_back rx st row rows parsed :
  parseRx rx = Some parsed -> setGroups st = row :: rows ->
  safeInteger (maxSets parsed) -> safeInteger (maxReps parsed) ->
  exists row',
    fillFromRx rx st = Some (set_setGroups (row' :: rows) st) /\
    parseInt (input_sets row') = maxSets parsed /\
    parseInt (input_reps row') = maxReps parsed /\
    input_weight row' = input_weight row /\
    (readable row' = true <->
       maxSets parsed <> Int 0 /\ maxReps parsed <> Int 0 /\
       isNaN (parseFloat (input_weight row)) = false) /\
    (readable row' = true ->
       readRow row' =
       Some (Group.mk (maxSets parsed) (maxReps parsed) (parseFloat (input_weight row)))).
Proof.
  intros Hp Hrows Hsafe Hsafe'.
  destruct (fillFromRx_row rx st row rows Hrows) as (row' & Hfill & Hw & Hsr).
  rewrite Hp in Hsr. destruct Hsr as [Hs Hr].
  destruct parsed as [[|a|] [|b|]]; try done.
  cbn [maxSets maxReps safeInteger] in *.
  assert (Hps : parseInt (input_sets row') = Int a)
    by (rewrite Hs; by apply parseInt_intInputValue).
  assert (Hpr : parseInt (input_reps row') = Int b)
    by (rewrite Hr; by apply parseInt_intInputValue).
  exists row'. split_and!; try done.
  - unfold readable, readRow. rewrite bool_decide_eq_true, Hps, Hpr, Hw.
    rewrite <- (falsyInt_ne a), <- (falsyInt_ne b).
    destruct (falsyInt (Int a)); destruct (falsyInt (Int b));
      destruct (isNaN (parseFloat (input_weight row))); simpl;
      (split; [intros [? ?]; try congruence; by split_and!|]);
      try (intros (? & ? & ?); congruence).
    all: intros _; by eexists.
  - unfold readable. rewrite bool_decide_eq_true. intros [g Hg].
    rewrite Hg. f_equal. apply readRow_Some in Hg as ->.
    unfold groupOfRow. by rewrite Hps, Hpr, Hw.
Qed.

Lemma fillFromRx_reads_back_witness :
  exists row',
    fillFromRx (Some (js "2-3 x 10-15/side")) (formState None "" "" "40")
      = Some (set_setGroups [row'] (formState None "" "" "40")) /\
    readRow row' = Some (Group.mk (Int 3) (Int 15) (FDec false 40 0)).
Proof.
  destruct (fillFromRx_reads_back (Some (js "2-3 x 10-15/side")) (formState None "" "" "40")
              {| input_sets := []; input_reps := []; input_weight := js "40" |} []
              {| maxSets := Int 3; maxReps := Int 15 |})
    as (row' & Hfill & _ & _ & _ & Hok & Hread);
    [by vm_compute|done|by vm_compute|by vm_compute|].
  exists row'. split; [done|]. rewrite Hread; [by vm_compute|].
  apply Hok. split_and!; [done|done|by vm_compute].
Defined.

(** A count beyond the integers that [String] writes in full does not come
    back: 10^21 is written with an exponent, and [parseInt] stops at the
    letter. *)
Lemma intInputValue_exponent :
  intInputValue (Int (10 ^ 21)) = js "1e+21" /\
  parseInt (intInputValue (Int (10 ^ 21))) = Int 1.
Proof. split; by vm_compute. Qed.

(** X15.  The rows that [startEdit] fills from an entry read back as the
    groups of the entry, when these pass the validation, their sets and
    reps are integers below 2^53 in absolute value and the host writes
    each weight as a numeral that reads back as that weight; the notes
    field holds the notes of the entry.  So an entry that is edited
    and saved at once, nothing changed, is written back as it was: the
    store is what it was, provided the entry is the user's, has a group,
    an id that is not empty and notes without white space around them. *)
Theorem startEdit_reads_back SESSIONS NumberToString docId data st :
  Forall (fun g => passes g /\
            safeInteger (Group.sets g) /\ safeInteger (Group.reps g) /\
            parseFloat (floatInputValue NumberToString (Group.weight g)) = Group.weight g)
         (sets data) ->
  let st' := startEdit NumberToString docId data st in
  collectGroups (setGroups st') = (true, sets data) /\
  notesInput st' = notes data /\ editingEntryId st' = Some docId /\
  (forall h db u liftId,
     currentUser st = Some u -> truthy (currentLiftId st) = Some liftId ->
     writeOk h = true -> db !! (uid u, docId) = Some data ->
     sets data <> [] -> docId <> [] -> trim (notes data) = notes data ->
     (save SESSIONS NumberToString h db st').1 = db).
Proof.
  intros Hall st'.
  assert (Hc : collectGroups (setGroups st') = (true, sets data)).
  { subst st'. unfold startEdit. cbn [setGroups set_editHidden set_saveBtn set_notesInput
                                       set_setGroups].
    rewrite collectGroups_eq.
    induction Hall as [|g gs ((Hs & Hr & Hw) & Hss & Hsr & Hrt) _ IH]; [done|].
    rewrite fmap_cons. cbn [forallb]. rewrite omap_cons.
    injection IH as IH1 IH2. rewrite IH1, IH2.
    destruct g as [[|a|] [|b|] w]; cbn [Group.sets Group.reps Group.weight] in *; try done.
    unfold readable, readRow. cbn [input_sets input_reps input_weight].
    rewrite !parseInt_intInputValue, Hrt, Hs, Hr, Hw by done. by simpl. }
  split_and!; [done|done|done|].
  intros h db u liftId Hu Hl Hw Hdb Hne Hid Htrim.
  rewrite save_eq.
  assert (currentUser st' = Some u) as -> by done.
  assert (truthy (currentLiftId st') = Some liftId) as -> by done.
  rewrite Hc. cbn [fst snd].
  destruct (sets data) as [|g gs] eqn:Hsets; [done|].
  cbn [length Nat.eqb negb andb].
  unfold writeEntry.
  assert (truthy (editingEntryId (savingState st')) = Some docId) as ->
    by (by destruct docId).
  unfold update. rewrite Hw, Hdb.
  assert (notesInput (savingState st') = notes data) as -> by done.
  rewrite Htrim, <- Hsets. cbn [fst].
  apply insert_id. rewrite Hdb. by destruct data.
Qed.

Lemma startEdit_reads_back_witness :
  (save SESSIONS_lifts_js plainNumber (hostAt squatDay) rotationStore
     (startEdit plainNumber (js "e1")
        (benchEntry (Some (squatDay + msPerDay / 2)) (js "session_b"))
        (formState None "" "" ""))).1
  = rotationStore.
Proof.
  destruct (startEdit_reads_back SESSIONS_lifts_js plainNumber (js "e1")
              (benchEntry (Some (squatDay + msPerDay / 2)) (js "session_b"))
              (formState None "" "" "")) as (_ & _ & _ & H).
  - repeat constructor; by vm_compute.
  - apply (H (hostAt squatDay) rotationStore user1 (js "barbell_bench_press"));
      try reflexivity; try done.
Defined.

(** ** The rows of the form under clicks *)

Lemma set_setGroups_eta st : set_setGroups (setGroups st) st = st.
Proof. by destruct st. Qed.

Lemma delete_keeps_a_row {A} (l : list A) i : (1 < length l)%nat -> delete i l <> [].
Proof. destruct l as [|x [|y l]], i; simpl; try done; lia. Qed.

Lemma formClick_rows c st :
  formClick c st = set_setGroups (setGroups (formClick c st)) st /\
  (setGroups st <> [] -> setGroups (formClick c st) <> []) /\
  (forall row, row ∈ setGroups (formClick c st) ->
     row ∈ setGroups st \/ row = createSetGroupRow).
Proof.
  destruct c as [|i]; cbn [formClick].
  - unfold addGroup. cbn [setGroups set_setGroups]. split_and!; [done| |].
    + by destruct (setGroups st).
    + intros row [H| ->]%elem_of_snoc; [by left|by right].
  - unfold removeGroup. destruct (1 <? length (setGroups st))%nat eqn:E.
    + cbn [setGroups set_setGroups]. split_and!; [done| |].
      * intros _. apply delete_keeps_a_row. by apply Nat.ltb_lt.
      * intros row Hrow. left. eapply elem_of_sublist; [exact Hrow|]. apply sublist_delete.
    + split_and!; [by rewrite set_setGroups_eta|done|by left].
Qed.

(** X17.  Clicks on the add button and on the remove buttons of the rows,
    in any number and order, change nothing on the page but the rows;
    they leave at least one row on a form that had one, the last row
    being the one that cannot be removed; and every row that is there
    after them is a row that was there before, as it was, or an empty
    row. *)
Theorem formClicks_keep_a_row cs st :
  formClicks cs st = set_setGroups (setGroups (formClicks cs st)) st /\
  (setGroups st <> [] -> setGroups (formClicks cs st) <> []) /\
  (forall row, row ∈ setGroups (formClicks cs st) ->
     row ∈ setGroups st \/ row = createSetGroupRow) /\
  (forall i, length (setGroups st) = 1%nat -> removeGroup i st = st).
Proof.
  split_and!.
  - revert st. induction cs as [|c cs IH]; intros st; [by rewrite set_setGroups_eta|].
    cbn [formClicks fold_left]. fold (formClicks cs (formClick c st)).
    rewrite IH at 1. destruct (formClick_rows c st) as (Heq & _).
    rewrite Heq at 2. by destruct st.
  - revert st. induction cs as [|c cs IH]; intros st Hne; [done|].
    cbn [formClicks fold_left]. fold (formClicks cs (formClick c st)).
    apply IH. by apply formClick_rows.
  - revert st. induction cs as [|c cs IH]; intros st row Hrow; [by left|].
    cbn [formClicks fold_left] in Hrow. fold (formClicks cs (formClick c st)) in Hrow.
    apply IH in Hrow as [Hrow|Hrow]; [|by right]. by apply formClick_rows in Hrow.
  - intros i Hlen. unfold removeGroup. by rewrite Hlen.
Qed.

Lemma formClicks_keep_a_row_witness :
  setGroups (formClicks [RemoveGroup 0; AddGroup; RemoveGroup 1; RemoveGroup 0]
               (formState None "3" "5" "185")) <> [].
Proof.
  destruct (formClicks_keep_a_row [RemoveGroup 0; AddGroup; RemoveGroup 1; RemoveGroup 0]
              (formState None "3" "5" "185")) as (_ & H & _).
  by apply H.
Defined.

(** ** Cancelling an edit *)

(** The row that the form holds after a reset and the auto-fill from the
    prescription [rx]. *)
Lemma cancelEdit_eq st :
  cancelEdit st =
  set_setGroups
    [ match truthy (currentRx st) with
      | Some rx =>
        match parseRx (Some rx) with
        | Some parsed =>
          {| input_sets := intInputValue (maxSets parsed);
             input_reps := intInputValue (maxReps parsed); input_weight := [] |}
        | None => createSetGroupRow
        end
      | None => createSetGroupRow
      end ]
    (set_notesInput []
       (set_editHidden true
          (set_saveBtn (saveBtnDisabled st) (js "Save") (set_editingEntryId None st)))).
Proof.
  unfold cancelEdit, resetSetGroups, fillFromRx.
  cbn [currentRx set_notesInput set_setGroups set_editHidden set_saveBtn set_editingEntryId
       setGroups].
  destruct (truthy (currentRx st)) as [rx|]; [|done].
  by destruct (parseRx (Some rx)).
Qed.

(** X18.  Cancelling forgets the edit: the page after [startEdit] and then
    the cancel button is the page after the cancel button alone, and a
    second cancel changes nothing.  After it no entry is being edited, the
    button reads "Save", the notes are empty and the form is one row with
    an empty weight field, holding the upper bounds of the current
    prescription when there is one that parses and nothing otherwise; the
    user, the lift, the prescription, the completion set, the history pane
    and the messages are what they were. *)
Theorem cancelEdit_forgets NumberToString docId data st :
  cancelEdit (startEdit NumberToString docId data st) = cancelEdit st /\
  cancelEdit (cancelEdit st) = cancelEdit st /\
  editingEntryId (cancelEdit st) = None /\ saveBtnText (cancelEdit st) = js "Save" /\
  notesInput (cancelEdit st) = [] /\
  (exists row, setGroups (cancelEdit st) = [row] /\ input_weight row = [] /\
     forall rx parsed, truthy (currentRx st) = Some rx -> parseRx (Some rx) = Some parsed ->
       input_sets row = intInputValue (maxSets parsed) /\
       input_reps row = intInputValue (maxReps parsed)) /\
  currentUser (cancelEdit st) = currentUser st /\
  currentLiftId (cancelEdit st) = currentLiftId st /\
  currentRx (cancelEdit st) = currentRx st /\
  todayEntries (cancelEdit st) = todayEntries st /\
  historyList (cancelEdit st) = historyList st /\
  alerts (cancelEdit st) = alerts st.
Proof.
  rewrite !cancelEdit_eq. split_and!; try done.
  eexists. split; [done|]. split.
  - destruct (truthy (currentRx st)) as [rx|]; [|done]. by destruct (parseRx (Some rx)).
  - intros rx parsed -> ->. done.
Qed.

Lemma cancelEdit_forgets_witness :
  exists row,
    setGroups (cancelEdit (formState (Some (js "e1")) "9" "9" "999")) = [row] /\
    input_sets row = js "4" /\ input_reps row = js "6".
Proof.
  destruct (cancelEdit_forgets plainNumber (js "e1")
              (benchEntry (Some squatDay) (js "session_a"))
              (formState (Some (js "e1")) "9" "9" "999"))
    as (_ & _ & _ & _ & _ & (row & Hrow & _ & Hfill) & _).
  exists row. split; [done|].
  apply (Hfill (js "alt: 3x5, 4x5-6") {| maxSets := Int 4; maxReps := Int 6 |}).
  - reflexivity.
  - by vm_compute.
Defined.

(** ** Selecting a lift while an entry is being edited *)

Lemma selectLift_fields LIFTS NumberToString h db liftId rx st :
  let st' := selectLift LIFTS NumberToString h db liftId rx st in
  currentUser st' = currentUser st /\ editingEntryId st' = editingEntryId st /\
  currentSessionIndex st' = currentSessionIndex st /\
  currentLiftId st' = Some liftId /\ currentRx st' = rx /\
  todayEntries st' = todayEntries st /\
  saveBtnDisabled st' = saveBtnDisabled st /\ saveBtnText st' = saveBtnText st /\
  cancelEditHidden st' = cancelEditHidden st /\
  editBannerHidden st' = editBannerHidden st /\ alerts st' = alerts st.
Proof.
  cbv zeta. unfold selectLift.
  destruct (list_find _ LIFTS) as [l|]; [|by split_and!].
  destruct (fillFromRx_row rx (resetSetGroups (set_currentLift (Some liftId) rx st))
              createSetGroupRow [] eq_refl) as (row' & -> & _).
  cbn [currentUser set_setGroups resetSetGroups set_notesInput set_currentLift].
  destruct (currentUser st) as [u|] eqn:Hu; [|by split_and!].
  match goal with |- context [loadHistory ?n ?hh ?d ?l ?s] =>
    destruct (loadHistory_fields n hh d l s)
      as (H1 & H2 & H3 & H4 & H5 & H6 & _ & H8 & H9 & H10 & H11 & H12) end.
  rewrite H1, H2, H3, H4, H5, H6, H8, H9, H10, H11, H12. by split_and!.
Qed.

(** X19.  Selecting a lift does not end an edit: [selectLift] leaves the
    entry being edited, the label of the button and the edit banner as
    they are, whatever lift is selected.  So when an entry is being edited
    and another lift is selected, the next save of a valid form rewrites
    the groups and the notes of the entry being edited, which keeps its
    own lift, date and session, and adds no entry for the lift that is
    now selected. *)
Theorem selectLift_keeps_edit LIFTS SESSIONS NumberToString h db liftId rx st :
  let st' := selectLift LIFTS NumberToString h db liftId rx st in
  (editingEntryId st' = editingEntryId st /\ saveBtnText st' = saveBtnText st /\
   cancelEditHidden st' = cancelEditHidden st /\
   editBannerHidden st' = editBannerHidden st /\
   currentLiftId st' = Some liftId /\ currentRx st' = rx) /\
  (forall h' db' u docId e rows text,
     currentUser st = Some u -> truthy (editingEntryId st) = Some docId ->
     liftId <> [] -> db' !! (uid u, docId) = Some e -> writeOk h' = true ->
     forallb readable rows = true -> rows <> [] ->
     (save SESSIONS NumberToString h' db'
        (set_notesInput text (set_setGroups rows st'))).1
     = <[(uid u, docId) :=
           {| lift := lift e; date := date e; sets := groupOfRow <$> rows;
              notes := trim text; session := session e |}]> db').
Proof.
  intros st'.
  destruct (selectLift_fields LIFTS NumberToString h db liftId rx st)
    as (Hu & He & _ & Hl & Hrx & _ & _ & Ht & Hc & Hb & _).
  fold st' in Hu, He, Hl, Hrx, Ht, Hc, Hb.
  split; [by split_and!|].
  intros h' db' u docId e rows text Hu' Hed Hid Hdb Hw Hrows Hne.
  rewrite save_eq.
  cbn [currentUser currentLiftId setGroups set_notesInput set_setGroups].
  rewrite Hu, Hu', Hl.
  assert (truthy (Some liftId) = Some liftId) as -> by (by destruct liftId).
  rewrite collectGroups_eq, Hrows, (omap_groupOfRow rows Hrows). cbn [fst snd].
  assert (negb (length (groupOfRow <$> rows) =? 0)%nat = true) as ->
    by (by destruct rows).
  cbn [andb]. unfold writeEntry, update.
  cbn [savingState editingEntryId notesInput set_saveBtn set_notesInput set_setGroups].
  rewrite He, Hed, Hw, Hdb. done.
Qed.

Lemma selectLift_keeps_edit_witness :
  (save SESSIONS_lifts_js plainNumber (hostAt squatDay) rotationStore
     (set_notesInput (js "heavy")
        (set_setGroups [ {| input_sets := js "3"; input_reps := js "10";
                            input_weight := js "400" |} ]
           (selectLift LIFTS_lifts_js plainNumber (hostAt squatDay) rotationStore
              (js "leg_press") (Some (js "2-3 x 8-10"))
              (formState (Some (js "e1")) "" "" ""))))).1 !! (js "u1", js "e1")
  = Some {| lift := js "barbell_bench_press"; date := Some (squatDay + msPerDay / 2);
            sets := [Group.mk (Int 3) (Int 10) (FDec false 400 0)];
            notes := js "heavy"; session := Some (js "session_b") |}.
Proof.
  destruct (selectLift_keeps_edit LIFTS_lifts_js SESSIONS_lifts_js plainNumber
              (hostAt squatDay) rotationStore (js "leg_press") (Some (js "2-3 x 8-10"))
              (formState (Some (js "e1")) "" "" "")) as (_ & H).
  rewrite (H (hostAt squatDay) rotationStore user1 (js "e1")
             (benchEntry (Some (squatDay + msPerDay / 2)) (js "session_b")));
    try reflexivity; try done.
Defined.

(** ** The catalogue of [lifts.js] *)

(** X20.  The catalogue is consistent: the sessions have distinct ids,
    none empty, and so have the lifts; every lift is prescribed in exactly
    one slot, the sessions listing the lifts in the order of [LIFTS], so
    every slot names a lift that [LIFTS] defines; and every prescription
    parses, to bounds of at least one set and one rep. *)
Theorem catalogue_consistent :
  NoDup (Session.id <$> SESSIONS_lifts_js) /\
  Forall (fun s => Session.id s <> []) SESSIONS_lifts_js /\
  NoDup (Lift.id <$> LIFTS_lifts_js) /\
  SESSIONS_lifts_js ≫= sessionLifts = Lift.id <$> LIFTS_lifts_js /\
  (forall s liftId, s ∈ SESSIONS_lifts_js -> liftId ∈ sessionLifts s ->
     is_Some (findLift LIFTS_lifts_js liftId)) /\
  Forall (fun rx => exists a b,
            parseRx (Some rx) = Some {| maxSets := Int a; maxReps := Int b |} /\
            1 <= a /\ 1 <= b)
         (catalogueRxs SESSIONS_lifts_js).
Proof.
  assert (Hlifts : SESSIONS_lifts_js ≫= sessionLifts = Lift.id <$> LIFTS_lifts_js)
    by (by vm_compute).
  split_and!.
  - apply (bool_decide_unpack _). by vm_compute.
  - repeat constructor; by vm_compute.
  - apply (bool_decide_unpack _). by vm_compute.
  - done.
  - intros s liftId Hs Hl.
    assert (Hin : liftId ∈ Lift.id <$> LIFTS_lifts_js).
    { rewrite <- Hlifts. apply list_elem_of_bind. by exists s. }
    apply list_elem_of_fmap in Hin as (l & -> & Hin). by apply findLift_elem_of.
  - repeat (constructor; [eexists _, _; split; [by vm_compute|by vm_compute]|]).
    constructor.
Qed.

Lemma catalogue_consistent_witness :
  is_Some (findLift LIFTS_lifts_js (js "cable_fly")).
Proof.
  destruct catalogue_consistent as (_ & _ & _ & _ & H & _).
  apply (H (Session.mk (js "session_a") (js "Session A")
      [ Fixed (js "box_jumps") (js "4-6 x 2-3");
        Fixed (js "barbell_bench_press") (js "alt: 3x5, 4x5-6");
        Fixed (js "leg_press") (js "2-3 x 8-10");
        Choose [ (js "db_incline_press", js "3-4 x 8-12");
                 (js "cable_fly", js "3 x 12-15") ]
               (Some (js "4-week rotation"));
        Fixed (js "row") (js "3-4 x 8-12");
        Fixed (js "triceps_pushdown") (js "2-4 x 10-15");
        Fixed (js "incline_db_curl") (js "2-4 x 10-15") ])).
  - by left.
  - vm_compute. do 4 right. by left.
Defined.

(** ** Opening a session *)

Lemma renderSessionTabs_lookup SESSIONS st i :
  renderSessionTabs SESSIONS st !! i =
  (fun s => {| tab_name := Session.name s;
               tab_active := bool_decide (i = currentSessionIndex st) |}) <$> SESSIONS !! i.
Proof. unfold renderSessionTabs. apply list_lookup_imap. Qed.

Lemma renderSessionTabs_length SESSIONS st :
  length (renderSessionTabs SESSIONS st) = length SESSIONS.
Proof. unfold renderSessionTabs. apply length_imap. Qed.

Lemma renderSessionTabs_active SESSIONS st i tab :
  renderSessionTabs SESSIONS st !! i = Some tab ->
  (tab_active tab = true <-> i = currentSessionIndex st).
Proof.
  rewrite renderSessionTabs_lookup. destruct (SESSIONS !! i) as [s|]; [|done].
  intros [= <-]. simpl. by rewrite bool_decide_eq_true.
Qed.

Lemma loadTodayEntries_fields tzOffset h db st :
  loadTodayEntries tzOffset h db st =
  set_todayEntries (todayEntries (loadTodayEntries tzOffset h db st)) st.
Proof.
  unfold loadTodayEntries. cbv zeta.
  destruct (currentUser st) as [u|]; [|done]. by destruct (get h _).
Qed.

(** The overview that is shown marks the lifts that have an entry
    today. *)
Lemma overview_marks_today tzOffset LIFTS h db st u session row :
  currentUser st = Some u -> readOk h = true ->
  row ∈ overviewRows
          (renderSessionOverview LIFTS (todayEntries (loadTodayEntries tzOffset h db st))
             session) ->
  (row_done row = true <->
   exists k e t, db !! (uid u, k) = Some e /\ lift e = row_liftId row /\
                 date e = Some t /\ startOfDay tzOffset (now h) <= t).
Proof.
  intros Hu Hr Hrow. unfold renderSessionOverview in Hrow.
  apply elem_of_overviewRows in Hrow as (_ & lift & rx & _ & _ & _ & _ & ->).
  cbn [row_done row_liftId createOverviewRow]. rewrite bool_decide_eq_true.
  by apply elem_of_loadTodayEntries.
Qed.

(** X21.  Signing in opens a session that exists.  With a catalogue that
    has a session, after the listener of the sign-in has run the current
    index is the one [determineCurrentSession] gives, it is the index of a
    session, the tab of that session and no other is active, the overview
    is the overview of that session and is shown, the lift detail is
    hidden and no lift is selected; and when the store answers, a row of
    the overview is marked completed exactly when the user has an entry of
    its lift dated at or after the local midnight of today.  The rows of
    the form and an edit in progress are left as they were. *)
Theorem signIn_opens_session tzOffset SESSIONS LIFTS h1 h2 h3 db u st v :
  SESSIONS <> [] ->
  let p := authStateChanged tzOffset SESSIONS LIFTS h1 h2 h3 db (Some u) (st, v) in
  let index := currentSessionIndex p.1 in
  currentUser p.1 = Some u /\ viewOnly p.2 = false /\
  currentLiftId p.1 = None /\ currentRx p.1 = None /\ liftDetailHidden p.2 = true /\
  setGroups p.1 = setGroups st /\ editingEntryId p.1 = editingEntryId st /\
  index = determineCurrentSession tzOffset SESSIONS h1 db (set_currentUser (Some u) st) /\
  length (sessionTabs p.2) = length SESSIONS /\
  (forall i tab, sessionTabs p.2 !! i = Some tab -> (tab_active tab = true <-> i = index)) /\
  exists session,
    SESSIONS !! index = Some session /\
    sessionTabs p.2 !! index =
      Some {| tab_name := Session.name session; tab_active := true |} /\
    sessionOverview p.2 = renderSessionOverview LIFTS (todayEntries p.1) session /\
    sessionOverviewHidden p.2 = false /\
    (readOk h3 = true ->
     forall row, row ∈ overviewRows (sessionOverview p.2) ->
       (row_done row = true <->
        exists k e t, db !! (uid u, k) = Some e /\ lift e = row_liftId row /\
                      date e = Some t /\ startOfDay tzOffset (now h3) <= t)).
Proof.
  intros Hne p index. subst index p.
  unfold authStateChanged, initApp.
  assert (useSessionMode SESSIONS = true) as -> by (by destruct SESSIONS).
  cbv zeta. cbn [fst snd].
  set (st0 := set_currentUser (Some u) st).
  set (i := determineCurrentSession tzOffset SESSIONS h1 db st0).
  assert (Hi : is_Some (SESSIONS !! i)).
  { subst i. rewrite determineCurrentSession_eq.
    apply lookup_lt_is_Some.
    assert (0 < length SESSIONS)%nat as Hpos by (destruct SESSIONS; simpl; [done|lia]).
    destruct (currentUser st0) as [u'|]; [|done].
    destruct (readOk h1); [|done].
    destruct (mostRecentEntry (uid u') db) as [[k e]|]; [|done].
    destruct (truthy (session e)) as [sid|]; [|done].
    destruct (findIndex SESSIONS sid) as [j|] eqn:Hj; [|done].
    cbv zeta. apply findIndex_Some in Hj as [Hj _].
    destruct (decide _); [done|]. by apply Nat.mod_upper_bound, Nat.neq_0_lt_0. }
  destruct Hi as [session Hs].
  unfold loadSession. cbn [fst snd currentSessionIndex set_currentSessionIndex].
  fold i. rewrite Hs.
  set (st1 := set_currentLift None None (set_currentSessionIndex i st0)).
  rewrite (loadTodayEntries_fields tzOffset h3 db st1).
  cbn [currentUser viewOnly currentLiftId currentRx liftDetailHidden setGroups editingEntryId
       currentSessionIndex sessionTabs sessionOverview sessionOverviewHidden todayEntries
       set_todayEntries st1 set_currentLift set_currentSessionIndex st0 set_currentUser].
  split_and!; try done.
  - apply renderSessionTabs_length.
  - intros j tab Hj. by apply renderSessionTabs_active in Hj.
  - exists session. split_and!; try done.
    + rewrite renderSessionTabs_lookup, Hs. simpl. by rewrite bool_decide_true.
    + intros Hr row Hrow. by eapply (overview_marks_today tzOffset LIFTS h3 db st1 u).
Qed.

Lemma signIn_opens_session_witness :
  currentSessionIndex
    (authStateChanged 0 SESSIONS_lifts_js LIFTS_lifts_js
       (hostAt (squatDay + 3 * msPerDay / 2)) (hostAt (squatDay + 3 * msPerDay / 2))
       (hostAt (squatDay + 3 * msPerDay / 2)) rotationStore (Some user1)
       (blankState None, blankView)).1
  = 2%nat.
Proof.
  destruct (signIn_opens_session 0 SESSIONS_lifts_js LIFTS_lifts_js
       (hostAt (squatDay + 3 * msPerDay / 2)) (hostAt (squatDay + 3 * msPerDay / 2))
       (hostAt (squatDay + 3 * msPerDay / 2)) rotationStore user1
       (blankState None) blankView ltac:(done))
    as (_ & _ & _ & _ & _ & _ & _ & -> & _).
  by vm_compute.
Defined.

(** X22.  A click on the tab of a session opens that session: the index
    becomes the index of the tab, that tab and no other is active, the
    overview is the overview of that session, drawn from the completion
    set loaded at the click, and is shown; the lift detail is hidden and
    no lift is selected.  The rows of the form, the notes and an edit in
    progress are left as they were. *)
Theorem tabClick_opens_session tzOffset SESSIONS LIFTS h db i session st v :
  SESSIONS !! i = Some session ->
  let p := tabClick tzOffset SESSIONS LIFTS h db i (st, v) in
  currentSessionIndex p.1 = i /\
  currentLiftId p.1 = None /\ currentRx p.1 = None /\ liftDetailHidden p.2 = true /\
  setGroups p.1 = setGroups st /\ notesInput p.1 = notesInput st /\
  editingEntryId p.1 = editingEntryId st /\
  (forall j tab, sessionTabs p.2 !! j = Some tab -> (tab_active tab = true <-> j = i)) /\
  sessionTabs p.2 !! i = Some {| tab_name := Session.name session; tab_active := true |} /\
  sessionOverview p.2 = renderSessionOverview LIFTS (todayEntries p.1) session /\
  sessionOverviewHidden p.2 = false /\
  recentSessions p.2 = recentSessions v /\
  (forall u, currentUser st = Some u -> readOk h = true ->
     forall row, row ∈ overviewRows (sessionOverview p.2) ->
       (row_done row = true <->
        exists k e t, db !! (uid u, k) = Some e /\ lift e = row_liftId row /\
                      date e = Some t /\ startOfDay tzOffset (now h) <= t)) /\
  (currentUser st = None -> todayEntries p.1 = ∅).
Proof.
  intros Hs p. subst p. unfold tabClick, loadSession.
  cbv zeta. cbn [fst snd]. rewrite Hs.
  set (st1 := set_currentLift None None (set_currentSessionIndex i st)).
  rewrite (loadTodayEntries_fields tzOffset h db st1).
  cbn [currentUser viewOnly currentLiftId currentRx liftDetailHidden setGroups editingEntryId
       currentSessionIndex sessionTabs sessionOverview sessionOverviewHidden todayEntries
       recentSessions notesInput
       set_todayEntries st1 set_currentLift set_currentSessionIndex].
  split_and!; try done.
  - intros j tab Hj. by apply renderSessionTabs_active in Hj.
  - rewrite renderSessionTabs_lookup, Hs. simpl. by rewrite bool_decide_true.
  - intros u Hu Hr row Hrow. by eapply (overview_marks_today tzOffset LIFTS h db st1 u).
  - intros Hu. unfold loadTodayEntries. subst st1.
    cbn [currentUser set_currentLift set_currentSessionIndex]. by rewrite Hu.
Qed.

Lemma tabClick_opens_session_witness :
  sessionTabs
    (tabClick 0 SESSIONS_lifts_js LIFTS_lifts_js (hostAt squatDay) rotationStore 1
       (blankState (Some user1), blankView)).2
  = [ {| tab_name := js "Session A"; tab_active := false |};
      {| tab_name := js "Session B"; tab_active := true |};
      {| tab_name := js "Session C"; tab_active := false |} ].
Proof.
  destruct (tabClick_opens_session 0 SESSIONS_lifts_js LIFTS_lifts_js (hostAt squatDay)
              rotationStore 1
              (Session.mk (js "session_b") (js "Session B")
                 [ Fixed (js "trap_bar_deadlift") (js "3 x 5");
                   Fixed (js "seated_hamstring_curl") (js "2-3 x 10-15");
                   Fixed (js "weighted_pull_ups") (js "4-5 x 4-8");
                   Fixed (js "db_flat_bench") (js "3-4 x 8-12");
                   Choose [ (js "rear_delt_fly", js "3 x 12-15");
                            (js "face_pull", js "3 x 12-15") ]
                          None;
                   Fixed (js "overhead_triceps_extension") (js "2-3 x 10-15");
                   Fixed (js "hammer_curl") (js "2-3 x 10-15") ])
              (blankState (Some user1)) blankView eq_refl) as (_ & _ & _ & _ & _ & _ & _ & _ & H & _).
  by vm_compute.
Defined.

(** X23.  Signing out clears the selection and the form, and no more: the
    page has no user, no lift and no prescription, the form has no row and
    no notes, the lift detail is hidden and the index is 0, so that the
    save handler does nothing; but the completion set, the recent sessions
    and an edit in progress are what they were, and the overview of the
    first session, which is shown, carries the completion marks of the
    user who has signed out. *)
Theorem signOut_keeps_marks tzOffset SESSIONS LIFTS NumberToString h1 h2 h3 db st v :
  let p := authStateChanged tzOffset SESSIONS LIFTS h1 h2 h3 db None (st, v) in
  currentUser p.1 = None /\ viewOnly p.2 = true /\
  currentLiftId p.1 = None /\ currentRx p.1 = None /\
  setGroups p.1 = [] /\ notesInput p.1 = [] /\ liftDetailHidden p.2 = true /\
  (forall h' db', save SESSIONS NumberToString h' db' p.1 = (db', p.1)) /\
  todayEntries p.1 = todayEntries st /\ editingEntryId p.1 = editingEntryId st /\
  recentSessions p.2 = recentSessions v /\
  (forall session, SESSIONS !! 0%nat = Some session ->
     currentSessionIndex p.1 = 0%nat /\
     sessionOverviewHidden p.2 = false /\
     sessionOverview p.2 = renderSessionOverview LIFTS (todayEntries st) session /\
     forall row, row ∈ overviewRows (sessionOverview p.2) ->
       (row_done row = true <-> row_liftId row ∈ todayEntries st)).
Proof.
  intros p. subst p. unfold authStateChanged, initViewOnly, resetAll.
  cbv zeta. cbn [fst snd].
  destruct (useSessionMode SESSIONS) eqn:Hmode.
  - destruct (SESSIONS !! 0%nat) as [session|] eqn:Hs; cbn [fst snd];
      split_and!; try done; try (by intros h' db'; rewrite save_eq).
    intros ? [= <-]. split_and!; try done.
    intros row Hrow. unfold renderSessionOverview in Hrow.
    apply elem_of_overviewRows in Hrow as (_ & lift & rx & _ & _ & _ & _ & ->).
    cbn [row_done row_liftId createOverviewRow]. by rewrite bool_decide_eq_true.
  - cbn [fst snd]. split_and!; try done; try (by intros h' db'; rewrite save_eq).
    intros session Hs. by destruct SESSIONS.
Qed.

Lemma signOut_keeps_marks_witness :
  sessionOverviewHidden
    (authStateChanged 0 SESSIONS_lifts_js LIFTS_lifts_js (hostAt squatDay) (hostAt squatDay)
       (hostAt squatDay) rotationStore None
       (formState None "3" "5" "185", blankView)).2
  = false.
Proof.
  destruct (signOut_keeps_marks 0 SESSIONS_lifts_js LIFTS_lifts_js plainNumber
              (hostAt squatDay) (hostAt squatDay) (hostAt squatDay) rotationStore
              (formState None "3" "5" "185") blankView)
    as (_ & _ & _ & _ & _ & _ & _ & _ & _ & _ & _ & H).
  destruct (H (Session.mk (js "session_a") (js "Session A")
      [ Fixed (js "box_jumps") (js "4-6 x 2-3");
        Fixed (js "barbell_bench_press") (js "alt: 3x5, 4x5-6");
        Fixed (js "leg_press") (js "2-3 x 8-10");
        Choose [ (js "db_incline_press", js "3-4 x 8-12");
                 (js "cable_fly", js "3 x 12-15") ]
               (Some (js "4-week rotation"));
        Fixed (js "row") (js "3-4 x 8-12");
        Fixed (js "triceps_pushdown") (js "2-4 x 10-15");
        Fixed (js "incline_db_curl") (js "2-4 x 10-15") ]) eq_refl) as (_ & Hshown & _).
  exact Hshown.
Defined.

(** ** The service worker *)

Lemma startsWith_spec p s : startsWith p s = true <-> exists post, s = p ++ post.
Proof.
  revert s. induction p as [|a p IH]; intros s.
  { split; [by exists s|done]. }
  destruct s as [|c s]; simpl.
  { split; [done|]. by intros (post & ?). }
  rewrite andb_true_iff, N.eqb_eq, IH. split.
  - intros [-> (post & ->)]. by exists post.
  - intros (post & [= -> ->]). split; [done|by exists post].
Qed.

Lemma includes_spec needle s :
  includes needle s = true <-> exists pre post, s = pre ++ needle ++ post.
Proof.
  induction s as [|c s IH].
  - simpl. rewrite orb_false_r, startsWith_spec. split.
    + intros (post & H). by exists [], post.
    + intros (pre & post & H). destruct pre; [by exists post|done].
  - cbn [includes]. rewrite orb_true_iff, startsWith_spec, IH. split.
    + intros [(post & H)|(pre & post & ->)]; [by exists [], post|by exists (c :: pre), post].
    + intros ([|c' pre] & post & H); [left; by exists post|].
      injection H as -> ->. right. by exists pre, post.
Qed.

Lemma cachesDelete_fold (ks : list (list N)) (caches : list (list N * gmap (list N) Response)) :
  fold_left (fun cs k => cachesDelete k cs) ks caches = filter (fun c => c.1 ∉ ks) caches.
Proof.
  revert caches. induction ks as [|k ks IH]; intros caches.
  { simpl. symmetry. apply filter_all, Forall_forall. intros c _. apply not_elem_of_nil. }
  cbn [fold_left]. rewrite IH. unfold cachesDelete. rewrite list_filter_filter.
  apply list_filter_iff. intros c. rewrite not_elem_of_cons. tauto.
Qed.

Lemma filter_ext_elem_of {A} (P Q : A -> Prop) `{!forall x, Decision (P x)}
    `{!forall x, Decision (Q x)} (l : list A) :
  (forall x, x ∈ l -> (P x <-> Q x)) -> filter P l = filter Q l.
Proof.
  induction l as [|x l IH]; intros Hext; [done|].
  rewrite !filter_cons.
  destruct (decide (P x)) as [HP|HP], (decide (Q x)) as [HQ|HQ].
  - f_equal. apply IH. intros y Hy. apply Hext. by right.
  - exfalso. apply HQ, Hext; [by left|done].
  - exfalso. apply HP, Hext; [by left|done].
  - apply IH. intros y Hy. apply Hext. by right.
Qed.

Lemma onActivate_eq (name : list N) (caches : list (list N * gmap (list N) Response)) :
  onActivate name caches = filter (fun c => c.1 = name) caches.
Proof.
  unfold onActivate. rewrite cachesDelete_fold.
  apply filter_ext_elem_of. intros c Hc.
  rewrite (list_elem_of_filter (fun k => k <> name)). split.
  - intros Hn. destruct (decide (c.1 = name)) as [|Hne]; [done|].
    exfalso. apply Hn. split; [done|]. apply list_elem_of_fmap. by exists c.
  - intros Heq [Hne _]. done.
Qed.

Lemma filter_name_none (name : list N) (caches : list (list N * gmap (list N) Response)) :
  name ∉ caches.*1 ->
  filter (fun c : list N * gmap (list N) Response => c.1 = name) caches = [].
Proof.
  induction caches as [|[k c] caches IH]; [done|].
  rewrite fmap_cons, not_elem_of_cons. intros [Hk Hn]. simpl in Hk.
  rewrite filter_cons_False by (simpl; congruence). by apply IH.
Qed.

Lemma filter_name_one (name : list N) (cache : gmap (list N) Response) (caches : list (list N * gmap (list N) Response)) :
  NoDup caches.*1 -> (name, cache) ∈ caches ->
  filter (fun c : list N * gmap (list N) Response => c.1 = name) caches = [(name, cache)].
Proof.
  induction caches as [|[k c] caches IH]; intros Hnd Hin; [by apply elem_of_nil in Hin|].
  rewrite fmap_cons in Hnd. apply NoDup_cons in Hnd as [Hk Hnd]. simpl in Hk.
  destruct (decide (k = name)) as [->|Hne].
  - rewrite filter_cons_True by done.
    rewrite filter_name_none by done.
    apply elem_of_cons in Hin as [[= <-]|Hin]; [done|].
    exfalso. apply Hk. apply list_elem_of_fmap. by exists (name, cache).
  - rewrite filter_cons_False by done.
    apply elem_of_cons in Hin as [[= <- <-]|Hin]; [done|]. by apply IH.
Qed.

(** X24.  Activation deletes every cache but the current one: the caches
    that are left are those named [CACHE_NAME], as they were, so with
    distinct names the storage is the current cache alone, or empty when
    there was none; and a request is then answered from the storage as the
    current cache answers it. *)
Theorem onActivate_keeps_current (name : list N) (caches : list (list N * gmap (list N) Response)) :
  (forall c, c ∈ onActivate name caches <-> c ∈ caches /\ c.1 = name) /\
  (NoDup caches.*1 -> forall cache : gmap (list N) Response, (name, cache) ∈ caches ->
     onActivate name caches = [(name, cache)] /\
     forall req, cachesMatch (onActivate name caches) req = cacheMatch cache req) /\
  (name ∉ caches.*1 -> onActivate name caches = []).
Proof.
  rewrite onActivate_eq. split_and!.
  - intros c. rewrite (list_elem_of_filter (fun c => c.1 = name)). tauto.
  - intros Hnd cache Hin. rewrite (filter_name_one name cache) by done.
    split; [done|]. intros req. simpl. by destruct (cacheMatch cache req).
  - apply filter_name_none.
Qed.

Lemma onActivate_keeps_current_witness :
  onActivate CACHE_NAME_v4
    [ (CACHE_NAME_v1, {[ js "https://lifts.example/app.js" :=
                           {| resp_status := 200; resp_varyStar := false;
                              resp_body := js "old" |} ]});
      (CACHE_NAME_v4, ∅) ]
  = [ (CACHE_NAME_v4, ∅) ].
Proof.
  destruct (onActivate_keeps_current CACHE_NAME_v4
    [ (CACHE_NAME_v1, {[ js "https://lifts.example/app.js" :=
                           {| resp_status := 200; resp_varyStar := false;
                              resp_body := js "old" |} ]});
      (CACHE_NAME_v4, ∅) ]) as (_ & H & _).
  apply H.
  - apply (bool_decide_unpack _). by vm_compute.
  - right. by left.
Defined.

(** The requests that the fetch handlers leave to the browser. *)
Lemma bypassed_spec req :
  bypassed req = true <->
  exists domain pre post,
    domain ∈ [js "googleapis.com"; js "gstatic.com"; js "firebaseio.com"; js "google.com"] /\
    req_hostname req = pre ++ domain ++ post.
Proof.
  unfold bypassed. rewrite !orb_true_iff, !includes_spec. split.
  - intros [[[(pre & post & H)|(pre & post & H)]|(pre & post & H)]|(pre & post & H)];
      eexists _, pre, post; (split; [|exact H]).
    + by left.
    + right. by left.
    + do 2 right. by left.
    + do 3 right. by left.
  - intros (domain & pre & post & Hd & H).
    repeat (apply elem_of_cons in Hd as [->|Hd]); [..|by apply elem_of_nil in Hd].
    + left. left. left. by exists pre, post.
    + left. left. right. by exists pre, post.
    + left. right. by exists pre, post.
    + right. by exists pre, post.
Qed.

(** X25.  Both fetch handlers leave a request alone, answering nothing
    and touching no cache, exactly when its host name contains
    [googleapis.com], [gstatic.com], [firebaseio.com] or [google.com],
    wherever in the name; every other request is answered by the worker.
    In particular the requests to the hosts of Firestore and of the sign-in
    are never answered from a cache. *)
Theorem fetch_bypasses_google (name : list N) network caches req :
  ((onFetch name network caches req).1 = PassThrough <->
   exists domain pre post,
     domain ∈ [js "googleapis.com"; js "gstatic.com"; js "firebaseio.com"; js "google.com"] /\
     req_hostname req = pre ++ domain ++ post) /\
  ((onFetch_v1 network caches req).1 = PassThrough <->
   (onFetch name network caches req).1 = PassThrough) /\
  ((onFetch name network caches req).1 = PassThrough ->
   (onFetch name network caches req).2 = caches /\
   (onFetch_v1 network caches req).2 = caches).
Proof.
  rewrite <- bypassed_spec. unfold onFetch, onFetch_v1.
  destruct (bypassed req); cbn [fst snd].
  - by split_and!.
  - destruct (includes (js "/icons/") (req_pathname req)); cbn [fst snd].
    + by split_and!.
    + destruct (network req); by split_and!.
Qed.

Lemma fetch_bypasses_google_witness :
  (onFetch CACHE_NAME_v4 (fun _ => None) []
     {| req_url := js "https://firestore.googleapis.com/v1/x";
        req_hostname := js "firestore.googleapis.com";
        req_pathname := js "/v1/x"; req_cacheable := true |}).2 = [].
Proof.
  destruct (fetch_bypasses_google CACHE_NAME_v4 (fun _ => None) []
     {| req_url := js "https://firestore.googleapis.com/v1/x";
        req_hostname := js "firestore.googleapis.com";
        req_pathname := js "/v1/x"; req_cacheable := true |}) as (Hiff & _ & H).
  apply H, Hiff. exists (js "googleapis.com"), (js "firestore."), []. split; [by left|].
  by vm_compute.
Defined.

(** ** What the caches hold after a put *)

Lemma cachePut_current (name : list N) (req : Request) (resp : Response)
    (caches : list (list N * gmap (list N) Response)) :
  filter (fun c : list N * gmap (list N) Response => c.1 = name)
    (cachePut name req resp caches)
  = (fun c : list N * gmap (list N) Response => (c.1, <[req_url req := resp]> c.2)) <$>
      filter (fun c : list N * gmap (list N) Response => c.1 = name) caches.
Proof.
  unfold cachePut. induction caches as [|[k c] caches IH]; [done|].
  rewrite fmap_cons. cbn [fst snd].
  destruct (decide (k = name)) as [->|Hne].
  - rewrite !filter_cons_True by done. rewrite fmap_cons. cbn [fst snd]. by rewrite IH.
  - rewrite !filter_cons_False by done. exact IH.
Qed.

Lemma cachePut_others (name : list N) (req : Request) (resp : Response)
    (caches : list (list N * gmap (list N) Response)) (c : list N * gmap (list N) Response) :
  c.1 <> name -> (c ∈ cachePut name req resp caches <-> c ∈ caches).
Proof.
  intros Hc. unfold cachePut. rewrite list_elem_of_fmap. split.
  - intros ([k c'] & -> & Hin). cbn [fst snd] in *.
    destruct (decide (k = name)) as [->|Hne]; [done|done].
  - intros Hin. exists c. split; [|done]. by rewrite decide_False.
Qed.

Lemma cachesOpen_current (name : list N) (caches : list (list N * gmap (list N) Response)) :
  filter (fun c : list N * gmap (list N) Response => c.1 = name) (cachesOpen name caches)
  <> [].
Proof.
  unfold cachesOpen. destruct (decide (name ∈ caches.*1)) as [Hin|Hnin].
  - apply list_elem_of_fmap in Hin as (c & -> & Hin). intros Hnil.
    eapply (filter_nil_not_elem_of _ _ c); [exact Hnil|done|done].
  - rewrite filter_app. rewrite filter_cons_True by done. by destruct (filter _ caches).
Qed.

Lemma cachesOpen_others (name : list N) (caches : list (list N * gmap (list N) Response))
    (c : list N * gmap (list N) Response) :
  c.1 <> name -> (c ∈ cachesOpen name caches <-> c ∈ caches).
Proof.
  intros Hc. unfold cachesOpen. destruct (decide _); [done|].
  rewrite elem_of_snoc. split; [|by left]. intros [?| ->]; [done|]. by destruct Hc.
Qed.

(** A request that the current cache has just been given is found there
    first. *)
Lemma cachesMatch_put (caches : list (list N * gmap (list N) Response))
    (req : Request) (resp : Response) :
  caches <> [] -> req_cacheable req = true ->
  cachesMatch
    ((fun c : list N * gmap (list N) Response => (c.1, <[req_url req := resp]> c.2)) <$>
       caches) req
  = Some resp.
Proof.
  intros Hne Hc. destruct caches as [|c caches]; [done|].
  rewrite fmap_cons. cbn [cachesMatch snd]. unfold cacheMatch.
  by rewrite Hc, lookup_insert_eq.
Qed.

Lemma cachesMatch_put_ne (caches : list (list N * gmap (list N) Response))
    (req : Request) (resp : Response) (req' : Request) :
  req_url req' <> req_url req ->
  cachesMatch
    ((fun c : list N * gmap (list N) Response => (c.1, <[req_url req := resp]> c.2)) <$>
       caches) req'
  = cachesMatch caches req'.
Proof.
  intros Hne. induction caches as [|c caches IH]; [done|].
  rewrite fmap_cons. cbn [cachesMatch snd]. unfold cacheMatch.
  destruct (req_cacheable req'); [|exact IH].
  rewrite lookup_insert_ne by done. by rewrite IH.
Qed.

Lemma cachesMatch_url (caches : list (list N * gmap (list N) Response)) (req req' : Request) :
  req_url req = req_url req' -> req_cacheable req = req_cacheable req' ->
  cachesMatch caches req = cachesMatch caches req'.
Proof.
  intros Hu Hc. induction caches as [|c caches IH]; [done|].
  cbn [cachesMatch]. unfold cacheMatch. by rewrite Hu, Hc, IH.
Qed.

(** ** Installation *)

Lemma fetchAll_Some network assetRequest urls pairs :
  fetchAll network assetRequest urls = Some pairs ->
  Forall2 (fun url (p : Request * Response) =>
             p.1 = assetRequest url /\ network (assetRequest url) = Some p.2 /\
             resp_ok p.2 = true /\ resp_refused p.2 = false /\ req_cacheable p.1 = true)
          urls pairs.
Proof.
  revert pairs. induction urls as [|url urls IH]; intros pairs.
  { intros [= <-]. constructor. }
  cbn [fetchAll]. destruct (network (assetRequest url)) as [r|] eqn:Hn; [|done].
  destruct (resp_ok r) eqn:Hok; [|done].
  destruct (resp_refused r) eqn:Hre; [done|].
  destruct (req_cacheable (assetRequest url)) eqn:Hc; [|done]. simpl.
  destruct (fetchAll network assetRequest urls) as [rest|]; [|done].
  intros [= <-]. constructor; [done|]. by apply IH.
Qed.

Lemma fetchAll_None network assetRequest urls :
  fetchAll network assetRequest urls = None <->
  exists url, url ∈ urls /\
    match network (assetRequest url) with
    | Some r => resp_ok r && negb (resp_refused r) && req_cacheable (assetRequest url) = false
    | None => True
    end.
Proof.
  induction urls as [|url urls IH].
  { split; [done|]. by intros (url & ?%elem_of_nil & _). }
  cbn [fetchAll]. destruct (network (assetRequest url)) as [r|] eqn:Hn.
  - destruct (resp_ok r && negb (resp_refused r) && req_cacheable (assetRequest url))
      eqn:Hok.
    + destruct (fetchAll network assetRequest urls) as [rest|]; split.
      * done.
      * intros (url' & [->|Hin]%elem_of_cons & H).
        -- rewrite Hn in H. congruence.
        -- assert (Some rest = None) by (apply IH; by exists url'). done.
      * intros _. destruct (proj1 IH eq_refl) as (url' & Hin & H).
        exists url'. split; [by right|done].
      * done.
    + split; [|done]. intros _. exists url. split; [by left|]. by rewrite Hn.
  - split; [|done]. intros _. exists url. split; [by left|]. by rewrite Hn.
Qed.

(** The current cache after the responses of [pairs] have been put. *)
Lemma putAll_current (name : list N) (pairs : list (Request * Response))
    (caches : list (list N * gmap (list N) Response)) :
  filter (fun c : list N * gmap (list N) Response => c.1 = name) caches <> [] ->
  let caches' :=
    fold_left (fun cs (p : Request * Response) => cachePut name p.1 p.2 cs) pairs caches in
  filter (fun c : list N * gmap (list N) Response => c.1 = name) caches' <> [] /\
  forall p, p ∈ pairs -> req_cacheable p.1 = true ->
    exists p', p' ∈ pairs /\ req_url p'.1 = req_url p.1 /\
      cachesMatch (filter (fun c : list N * gmap (list N) Response => c.1 = name) caches') p.1
      = Some p'.2.
Proof.
  intros Hne. cbv zeta. induction pairs as [|q pairs IH] using rev_ind.
  { split; [done|]. by intros p ?%elem_of_nil. }
  rewrite fold_left_app. cbn [fold_left]. destruct IH as [IHne IH].
  rewrite cachePut_current. split.
  - by destruct (filter _ (fold_left _ pairs caches)).
  - intros p [Hp| ->]%elem_of_snoc Hc.
    + destruct (decide (req_url p.1 = req_url q.1)) as [Heq|Hneq].
      * exists q. split; [apply elem_of_snoc; by right|]. split; [done|].
        rewrite (cachesMatch_url _ p.1 {| req_url := req_url q.1;
                   req_hostname := req_hostname p.1; req_pathname := req_pathname p.1;
                   req_cacheable := true |}) by done.
        rewrite <- (cachesMatch_put _ {| req_url := req_url q.1;
                   req_hostname := req_hostname p.1; req_pathname := req_pathname p.1;
                   req_cacheable := true |} q.2 IHne eq_refl). done.
      * destruct (IH p Hp Hc) as (p' & Hp' & Hu & Hm).
        exists p'. split; [apply elem_of_snoc; by left|]. split; [done|].
        by rewrite cachesMatch_put_ne.
    + exists q. split; [apply elem_of_snoc; by right|]. split; [done|].
      by apply cachesMatch_put.
Qed.

(** X26.  Installation is all or nothing, and what it stores is served
    when the network is down.  The promise of the [install] handler is
    fulfilled exactly when every static asset is fetched with a response
    that is ok and that a cache takes; otherwise nothing is stored.  After
    an installation that went through, and the activation, every static
    asset whose host the worker does not leave alone is answered without
    the network, by the first version of the worker whatever the network
    says and by the later one when the network is down, with a response
    that is ok and that the network gave at installation for that URL. *)
Theorem install_serves_offline (name : list N) (network : Request -> option Response)
    (assetRequest : list N -> Request)
    (caches : list (list N * gmap (list N) Response)) :
  let installed := onInstall name network assetRequest caches in
  (installed.2 = true <->
   forall url, url ∈ STATIC_ASSETS ->
     exists r, network (assetRequest url) = Some r /\ resp_ok r = true /\
               resp_refused r = false /\ req_cacheable (assetRequest url) = true) /\
  (installed.2 = false -> installed.1 = cachesOpen name caches) /\
  (installed.2 = true ->
   forall url, url ∈ STATIC_ASSETS -> bypassed (assetRequest url) = false ->
     exists url' r,
       url' ∈ STATIC_ASSETS /\ req_url (assetRequest url') = req_url (assetRequest url) /\
       network (assetRequest url') = Some r /\ resp_ok r = true /\
       cachesMatch (onActivate name installed.1) (assetRequest url) = Some r /\
       (onFetch name (fun _ => None) (onActivate name installed.1) (assetRequest url)).1
         = RespondWith (Some r) /\
       forall network',
         (onFetch_v1 network' (onActivate name installed.1) (assetRequest url)).1
         = RespondWith (Some r)).
Proof.
  intros installed. subst installed. unfold onInstall. cbv zeta.
  destruct (fetchAll network assetRequest STATIC_ASSETS) as [pairs|] eqn:Hf; cbn [fst snd].
  - pose proof (fetchAll_Some _ _ _ _ Hf) as Hall. split_and!; [|done|].
    + split; [|done]. intros _ url Hin.
      apply list_elem_of_lookup in Hin as [i Hi].
      destruct (Forall2_lookup_l _ _ _ _ _ Hall Hi) as (p & Hp & _ & Hn & Hok & Hre & Hc).
      exists p.2. subst. split_and!; try done.
      destruct (Forall2_lookup_lr _ _ _ _ _ _ Hall Hi Hp) as (<- & _). done.
    + intros _ url Hin Hby.
      apply list_elem_of_lookup in Hin as [i Hi].
      destruct (Forall2_lookup_l _ _ _ _ _ Hall Hi) as (p & Hp & Hp1 & _ & _ & _ & Hc).
      destruct (putAll_current name pairs (cachesOpen name caches)
                  (cachesOpen_current name caches)) as [_ Hput].
      destruct (Hput p (list_elem_of_lookup_2 _ _ _ Hp) Hc) as (p' & Hp' & Hu & Hm).
      apply list_elem_of_lookup in Hp' as [j Hj].
      destruct (Forall2_lookup_r _ _ _ _ _ Hall Hj) as (url' & Hurl' & Hp1' & Hn' & Hok' & _).
      rewrite Hp1 in *. rewrite Hp1' in *.
      exists url', p'.2. rewrite onActivate_eq.
      split_and!; try done; [by eapply list_elem_of_lookup_2|..].
      * unfold onFetch. rewrite Hby, Hm.
        by destruct (includes (js "/icons/") (req_pathname (assetRequest url))).
      * intros network'. unfold onFetch_v1. by rewrite Hby, Hm.
  - split_and!; [|done|done]. split; [done|]. intros Hall.
    apply fetchAll_None in Hf as (url & Hin & Hbad).
    destruct (Hall url Hin) as (r & Hn & Hok & Hre & Hc).
    rewrite Hn, Hok, Hre, Hc in Hbad. done.
Qed.

Lemma install_serves_offline_witness :
  (onFetch CACHE_NAME_v4 (fun _ => None)
     (onActivate CACHE_NAME_v4
        (onInstall CACHE_NAME_v4 (fun _ => Some examplePage) exampleRequest []).1)
     (exampleRequest (js "./app.js"))).1
  = RespondWith (Some examplePage).
Proof.
  destruct (install_serves_offline CACHE_NAME_v4 (fun _ => Some examplePage)
              exampleRequest []) as (Hok & _ & H).
  destruct (H (proj2 Hok ltac:(intros url _; by exists examplePage)) (js "./app.js"))
    as (url' & r & _ & _ & Hr & _ & _ & Hfetch & _).
  - do 3 right. by left.
  - by vm_compute.
  - injection Hr as <-. exact Hfetch.
Defined.

(** ** The network first *)

Lemma filter_current_all (name : list N) (caches : list (list N * gmap (list N) Response)) :
  (forall c, c ∈ caches -> c.1 = name) ->
  filter (fun c : list N * gmap (list N) Response => c.1 = name) caches = caches.
Proof. intros H. apply filter_all, Forall_forall. exact H. Qed.

Lemma cachesOpen_all (name : list N) (caches : list (list N * gmap (list N) Response)) :
  (forall c, c ∈ caches -> c.1 = name) ->
  forall c, c ∈ cachesOpen name caches -> c.1 = name.
Proof.
  intros H c. unfold cachesOpen. destruct (decide _); [apply H|].
  intros [Hc| ->]%elem_of_snoc; [by apply H|done].
Qed.

Lemma cachePut_all (name : list N) (req : Request) (resp : Response)
    (caches : list (list N * gmap (list N) Response)) :
  (forall c, c ∈ caches -> c.1 = name) ->
  forall c, c ∈ cachePut name req resp caches -> c.1 = name.
Proof.
  intros H c. unfold cachePut. rewrite list_elem_of_fmap.
  intros ([k c'] & -> & Hin). specialize (H _ Hin). simpl in *.
  by destruct (decide (k = name)).
Qed.

(** X27.  For a request that is neither left alone nor a request for an
    icon, the later worker answers with the response of the network
    whenever the network gives one, whatever the caches hold, and keeps a
    copy in the current cache when the request and the response are ones a
    cache takes; the caches of other names are not touched.  When only the
    current cache exists, as after an activation, the same request made
    next while the network is down is answered with that copy.  When the
    network gives nothing, the answer is what the caches hold, and the
    caches are not changed. *)
Theorem network_first_then_offline (name : list N) (network : Request -> option Response)
    (caches : list (list N * gmap (list N) Response)) (req : Request) :
  bypassed req = false -> includes (js "/icons/") (req_pathname req) = false ->
  let a := onFetch name network caches req in
  (forall x, network req = Some x ->
     a.1 = RespondWith (Some x) /\
     (forall c : list N * gmap (list N) Response, c.1 <> name -> (c ∈ a.2 <-> c ∈ caches)) /\
     (req_cacheable req = true -> resp_refused x = false ->
        cachesMatch (onActivate name a.2) req = Some x /\
        ((forall c, c ∈ caches -> c.1 = name) ->
         forall offline : Request -> option Response, offline req = None ->
           (onFetch name offline a.2 req).1 = RespondWith (Some x)))) /\
  (network req = None -> a = (RespondWith (cachesMatch caches req), caches)).
Proof.
  intros Hby Hicon a. subst a. unfold onFetch. rewrite Hby, Hicon. split.
  - intros x ->. cbn [fst snd]. split_and!; [done| |].
    + intros c Hc. destruct (req_cacheable req && negb (resp_refused x)).
      * by rewrite cachePut_others, cachesOpen_others.
      * by rewrite cachesOpen_others.
    + intros Hc Hre. rewrite Hc, Hre. cbn [andb negb].
      assert (Hcur : cachesMatch
                (filter (fun c : list N * gmap (list N) Response => c.1 = name)
                   (cachePut name req x (cachesOpen name caches))) req = Some x).
      { rewrite cachePut_current. apply cachesMatch_put; [|done].
        apply cachesOpen_current. }
      split; [by rewrite onActivate_eq|].
      intros Hall offline Hoff. rewrite Hoff. cbn [fst]. f_equal.
      rewrite <- Hcur. f_equal. symmetry. apply filter_current_all.
      by apply cachePut_all, cachesOpen_all.
  - by intros ->.
Qed.

Lemma network_first_then_offline_witness :
  (onFetch CACHE_NAME_v4 (fun _ => None)
     (onFetch CACHE_NAME_v4 (fun _ => Some examplePage) []
        (exampleRequest (js "./app.js"))).2
     (exampleRequest (js "./app.js"))).1
  = RespondWith (Some examplePage).
Proof.
  destruct (network_first_then_offline CACHE_NAME_v4 (fun _ => Some examplePage) []
              (exampleRequest (js "./app.js")) ltac:(by vm_compute) ltac:(by vm_compute))
    as (H & _).
  destruct (H examplePage eq_refl) as (_ & _ & Hcopy).
  destruct (Hcopy eq_refl eq_refl) as (_ & Hoff).
  apply Hoff; [|done]. by intros c ?%elem_of_nil.
Defined.
